(** * import_mu/armature.py: skeleton construction from a skinned scene graph

    A shallow embedding of [src/import_mu/armature.py] and the properties
    of its bone resolver ([find_bones]), armature builder
    ([create_armature]) and pose propagator ([process_armature]).

    Conventions of the embedding:
    - Python floats are idealised as exact rationals ([Q]); equalities
      between computed scalars are stated with [==] and its liftings to
      vectors, quaternions and matrices.
    - Python objects are addresses ([objid]) into a heap; attributes that
      the code attaches at run time ([bindPose], [bone], ...) are optional
      record fields, so that [hasattr] is a test on [Some].
    - Python's loops that may not terminate ([while]) and the recursion of
      [process_bone] take a [fuel] argument; running out of it is the result
      [OutOfFuel], which is neither a value nor an exception.
    - Exceptions are values of [exn]; a raised exception discards the
      state, as nothing in this file catches one. *)

From Stdlib Require Import QArith Lia.
From stdpp Require Import base functions gmap sets list strings.

(** ** mathutils

    [Vector], [Quaternion] and [Matrix] of Blender's [mathutils], with the
    operations the module uses.  The arithmetic follows the library's C
    source ([mul_qt_qtqt], [mul_qt_v3], [invert_qt], the adjugate inverse
    of a matrix); none of them normalises its argument. *)

Module mathutils.
Local Open Scope Q_scope.

Record Vector := mkVector { vx : Q; vy : Q; vz : Q }.

(** Components in the order of the constructor [Quaternion((w, x, y, z))]. *)
Record Quaternion := mkQuaternion { qw : Q; qx : Q; qy : Q; qz : Q }.

Definition Row : Type := Q * Q * Q * Q.
Definition Matrix : Type := Row * Row * Row * Row.

Definition veq (a b : Vector) : Prop :=
  vx a == vx b /\ vy a == vy b /\ vz a == vz b.

Definition quat_eq (a b : Quaternion) : Prop :=
  qw a == qw b /\ qx a == qx b /\ qy a == qy b /\ qz a == qz b.

Definition row_eq (a b : Row) : Prop :=
  let '(a0, a1, a2, a3) := a in
  let '(b0, b1, b2, b3) := b in
  a0 == b0 /\ a1 == b1 /\ a2 == b2 /\ a3 == b3.

Definition meq (a b : Matrix) : Prop :=
  let '(a0, a1, a2, a3) := a in
  let '(b0, b1, b2, b3) := b in
  row_eq a0 b0 /\ row_eq a1 b1 /\ row_eq a2 b2 /\ row_eq a3 b3.

Definition vadd (a b : Vector) : Vector :=
  mkVector (vx a + vx b) (vy a + vy b) (vz a + vz b).

Definition vsub (a b : Vector) : Vector :=
  mkVector (vx a - vx b) (vy a - vy b) (vz a - vz b).

Definition vscale (k : Q) (a : Vector) : Vector :=
  mkVector (k * vx a) (k * vy a) (k * vz a).

Definition vdot (a b : Vector) : Q :=
  vx a * vx b + vy a * vy b + vz a * vz b.

Definition qdot (a b : Quaternion) : Q :=
  qw a * qw b + qx a * qx b + qy a * qy b + qz a * qz b.

(** [a @ b] on two quaternions. *)
Definition quat_mul (a b : Quaternion) : Quaternion :=
  mkQuaternion
    (qw a * qw b - qx a * qx b - qy a * qy b - qz a * qz b)
    (qw a * qx b + qx a * qw b + qy a * qz b - qz a * qy b)
    (qw a * qy b + qy a * qw b + qz a * qx b - qx a * qz b)
    (qw a * qz b + qz a * qw b + qx a * qy b - qy a * qx b).

(** [q @ v]: the vector part of [q v conj(q)], computed in the two passes
    of the library. *)
Definition quat_rotate (q : Quaternion) (r : Vector) : Vector :=
  let t0 := - qx q * vx r - qy q * vy r - qz q * vz r in
  let t1 := qw q * vx r + qy q * vz r - qz q * vy r in
  let t2 := qw q * vy r + qz q * vx r - qx q * vz r in
  let r2 := qw q * vz r + qx q * vy r - qy q * vx r in
  let r0 := t1 in
  let r1 := t2 in
  mkVector
    (t0 * - qx q + r0 * qw q - r1 * qz q + r2 * qy q)
    (t0 * - qy q + r1 * qw q - r2 * qx q + r0 * qz q)
    (t0 * - qz q + r2 * qw q - r0 * qy q + r1 * qx q).

(** [q.inverted()]: the conjugate over the squared norm; a zero quaternion
    is returned unchanged. *)
Definition quat_inverted (q : Quaternion) : Quaternion :=
  let f := qdot q q in
  if Qeq_bool f 0 then q
  else mkQuaternion (qw q / f) (- qx q / f) (- qy q / f) (- qz q / f).

Definition row_dot (a : Row) (b0 b1 b2 b3 : Q) : Q :=
  let '(a0, a1, a2, a3) := a in a0 * b0 + a1 * b1 + a2 * b2 + a3 * b3.

Definition row_mul (a : Row) (b : Matrix) : Row :=
  let '((b00, b01, b02, b03), (b10, b11, b12, b13),
        (b20, b21, b22, b23), (b30, b31, b32, b33)) := b in
  (row_dot a b00 b10 b20 b30, row_dot a b01 b11 b21 b31,
   row_dot a b02 b12 b22 b32, row_dot a b03 b13 b23 b33).

(** [a @ b] on two 4x4 matrices. *)
Definition mat_mul (a b : Matrix) : Matrix :=
  let '(a0, a1, a2, a3) := a in
  (row_mul a0 b, row_mul a1 b, row_mul a2 b, row_mul a3 b).

(** [m @ v] with a 4x4 matrix and a 3D vector: the vector is extended by
    [w = 1] and the first three rows of the product are returned. *)
Definition mat_apply (m : Matrix) (v : Vector) : Vector :=
  let '(m0, m1, m2, _) := m in
  mkVector (row_dot m0 (vx v) (vy v) (vz v) 1)
           (row_dot m1 (vx v) (vy v) (vz v) 1)
           (row_dot m2 (vx v) (vy v) (vz v) 1).

Definition mat_identity : Matrix :=
  ((1, 0, 0, 0), (0, 1, 0, 0), (0, 0, 1, 0), (0, 0, 0, 1)).

Definition mat_det (a : Matrix) : Q :=
  let '((a00, a01, a02, a03), (a10, a11, a12, a13),
        (a20, a21, a22, a23), (a30, a31, a32, a33)) := a in
  let s0 := a00 * a11 - a10 * a01 in
  let s1 := a00 * a12 - a10 * a02 in
  let s2 := a00 * a13 - a10 * a03 in
  let s3 := a01 * a12 - a11 * a02 in
  let s4 := a01 * a13 - a11 * a03 in
  let s5 := a02 * a13 - a12 * a03 in
  let c5 := a22 * a33 - a32 * a23 in
  let c4 := a21 * a33 - a31 * a23 in
  let c3 := a21 * a32 - a31 * a22 in
  let c2 := a20 * a33 - a30 * a23 in
  let c1 := a20 * a32 - a30 * a22 in
  let c0 := a20 * a31 - a30 * a21 in
  s0 * c5 - s1 * c4 + s2 * c3 + s3 * c2 - s4 * c1 + s5 * c0.

Definition mat_adjugate (a : Matrix) : Matrix :=
  let '((a00, a01, a02, a03), (a10, a11, a12, a13),
        (a20, a21, a22, a23), (a30, a31, a32, a33)) := a in
  let s0 := a00 * a11 - a10 * a01 in
  let s1 := a00 * a12 - a10 * a02 in
  let s2 := a00 * a13 - a10 * a03 in
  let s3 := a01 * a12 - a11 * a02 in
  let s4 := a01 * a13 - a11 * a03 in
  let s5 := a02 * a13 - a12 * a03 in
  let c5 := a22 * a33 - a32 * a23 in
  let c4 := a21 * a33 - a31 * a23 in
  let c3 := a21 * a32 - a31 * a22 in
  let c2 := a20 * a33 - a30 * a23 in
  let c1 := a20 * a32 - a30 * a22 in
  let c0 := a20 * a31 - a30 * a21 in
  ((  a11 * c5 - a12 * c4 + a13 * c3, - a01 * c5 + a02 * c4 - a03 * c3,
      a31 * s5 - a32 * s4 + a33 * s3, - a21 * s5 + a22 * s4 - a23 * s3),
   (- a10 * c5 + a12 * c2 - a13 * c1,   a00 * c5 - a02 * c2 + a03 * c1,
    - a30 * s5 + a32 * s2 - a33 * s1,   a20 * s5 - a22 * s2 + a23 * s1),
   (  a10 * c4 - a11 * c2 + a13 * c0, - a00 * c4 + a01 * c2 - a03 * c0,
      a30 * s4 - a31 * s2 + a33 * s0, - a20 * s4 + a21 * s2 - a23 * s0),
   (- a10 * c3 + a11 * c1 - a12 * c0,   a00 * c3 - a01 * c1 + a02 * c0,
    - a30 * s3 + a31 * s1 - a32 * s0,   a20 * s3 - a21 * s1 + a22 * s0)).

Definition row_scale (k : Q) (a : Row) : Row :=
  let '(a0, a1, a2, a3) := a in (k * a0, k * a1, k * a2, k * a3).

Definition mat_scale (k : Q) (a : Matrix) : Matrix :=
  let '(a0, a1, a2, a3) := a in
  (row_scale k a0, row_scale k a1, row_scale k a2, row_scale k a3).

(** [m.inverted()]: [None] stands for the [ValueError] raised on a matrix
    without an inverse. *)
Definition mat_inverted (a : Matrix) : option Matrix :=
  let d := mat_det a in
  if Qeq_bool d 0 then None else Some (mat_scale (/ d) (mat_adjugate a)).

End mathutils.
Export mathutils.

(** ** Python results

    What a call can do: return, raise, or (in the model only) exhaust the
    fuel given to its loops. *)

Inductive exn :=
| KeyError (key : string)
| IndexError
| AttributeError (attr : string)
| TypeError
| ValueError
| ReferenceError.

(** The classes of an exception, most specific first (Python's built-in
    hierarchy; [ReferenceError] is what Blender raises on a bone handle
    that no longer exists). *)
Definition exn_mro (e : exn) : list string :=
  match e with
  | KeyError _ => ["KeyError"; "LookupError"; "Exception"; "BaseException"]
  | IndexError => ["IndexError"; "LookupError"; "Exception"; "BaseException"]
  | AttributeError _ => ["AttributeError"; "Exception"; "BaseException"]
  | TypeError => ["TypeError"; "Exception"; "BaseException"]
  | ValueError => ["ValueError"; "Exception"; "BaseException"]
  | ReferenceError => ["ReferenceError"; "Exception"; "BaseException"]
  end.

Definition isinstance (e : exn) (cls : string) : bool :=
  bool_decide (cls ∈ exn_mro e).

Inductive Res (A : Type) :=
| Ok (a : A)
| Raise (e : exn)
| OutOfFuel.
Arguments Ok {A} a.
Arguments Raise {A} e.
Arguments OutOfFuel {A}.

Definition bind {A B : Type} (r : Res A) (k : A -> Res B) : Res B :=
  match r with
  | Ok a => k a
  | Raise e => Raise e
  | OutOfFuel => OutOfFuel
  end.

Notation "'let!' x := r 'in' k" := (bind r (fun x => k))
  (at level 10, x pattern, r at level 100, k at level 200).

(** [x[key]] on a dict and [getattr] on an attribute that may be absent. *)
Definition getitem {V} (d : gmap string V) (key : string) : Res V :=
  match d !! key with
  | Some v => Ok v
  | None => Raise (KeyError key)
  end.

Definition getattr {V} (attr : string) (field : option V) : Res V :=
  match field with
  | Some v => Ok v
  | None => Raise (AttributeError attr)
  end.

(** ** Data model *)

Abbreviation objid := nat (only parsing).

Record MuTransform := mkMuTransform {
  name : string;
  localPosition : Vector;
  localRotation : Quaternion
}.

(** One bind pose as the loader delivers it: 16 floats, row-major. *)
Inductive floats16 :=
| F16 (b0 b1 b2 b3 b4 b5 b6 b7 b8 b9 b10 b11 b12 b13 b14 b15 : Q).

Record MuMesh := mkMuMesh { bindPoses : list floats16 }.

Record MuSkinnedMeshRenderer := mkMuSkinnedMeshRenderer {
  bones : list string;
  mesh : MuMesh
}.

(** The four Blender data blocks and objects that one build creates. *)
Inductive bpy_id :=
| ArmatureData      (* bpy.data.armatures.new(name) *)
| BindPoseData      (* bpy.data.armatures.new(name + ".bindPose") *)
| ArmatureObject    (* create_data_object(name, armobj.armature, ...) *)
| BindPoseObject.   (* create_data_object(name + ".bindPose", ...) *)

#[global] Instance bpy_id_eq_dec : EqDecision bpy_id.
Proof. solve_decision. Defined.

(** Values of the attributes that the module uses at two types:
    [bindPose] is a matrix on a bone and an armature on [armobj];
    [armature] is [armobj] on a bone and an armature on [armobj] and on
    the skins; [bone] is an edit-bone handle inside edit mode and the
    bone's name afterwards. *)
Inductive bindPose_attr :=
| BindMatrix (m : Matrix)
| BindArmature (a : bpy_id).

Inductive armature_attr :=
| ArmatureOwner (armobj : objid)
| ArmatureBlock (a : bpy_id).

(** A handle on an edit bone: the armature and the index of the bone in
    its [edit_bones]. *)
Abbreviation handle := (bpy_id * nat)%type (only parsing).

Inductive bone_attr :=
| EditBoneRef (hd : handle)
| BoneName (nm : string).

Record MuObject := mkMuObject {
  transform : MuTransform;
  parent : option objid;
  children : list objid;
  skinned_mesh_renderer : option MuSkinnedMeshRenderer;
  (* attributes attached by this module *)
  bindPose : option bindPose_attr;
  position : option Vector;
  rotation : option Quaternion;
  relRotation : option Quaternion;
  armature : option armature_attr;
  bone : option bone_attr;
  force_import : option bool;
  poseBone : option string;
  armature_obj : option bpy_id;
  bindPose_obj : option bpy_id
}.

Definition set_bindPose (v : bindPose_attr) (o : MuObject) : MuObject :=
  let 'mkMuObject t p c s _ pos rot rr arm bn fi pb ao bo := o in
  mkMuObject t p c s (Some v) pos rot rr arm bn fi pb ao bo.

Definition set_position (v : Vector) (o : MuObject) : MuObject :=
  let 'mkMuObject t p c s bp _ rot rr arm bn fi pb ao bo := o in
  mkMuObject t p c s bp (Some v) rot rr arm bn fi pb ao bo.

Definition set_rotation (v : Quaternion) (o : MuObject) : MuObject :=
  let 'mkMuObject t p c s bp pos _ rr arm bn fi pb ao bo := o in
  mkMuObject t p c s bp pos (Some v) rr arm bn fi pb ao bo.

Definition set_relRotation (v : Quaternion) (o : MuObject) : MuObject :=
  let 'mkMuObject t p c s bp pos rot _ arm bn fi pb ao bo := o in
  mkMuObject t p c s bp pos rot (Some v) arm bn fi pb ao bo.

Definition set_armature (v : armature_attr) (o : MuObject) : MuObject :=
  let 'mkMuObject t p c s bp pos rot rr _ bn fi pb ao bo := o in
  mkMuObject t p c s bp pos rot rr (Some v) bn fi pb ao bo.

Definition set_bone (v : bone_attr) (o : MuObject) : MuObject :=
  let 'mkMuObject t p c s bp pos rot rr arm _ fi pb ao bo := o in
  mkMuObject t p c s bp pos rot rr arm (Some v) fi pb ao bo.

Definition set_force_import (v : bool) (o : MuObject) : MuObject :=
  let 'mkMuObject t p c s bp pos rot rr arm bn _ pb ao bo := o in
  mkMuObject t p c s bp pos rot rr arm bn (Some v) pb ao bo.

Definition set_poseBone (v : string) (o : MuObject) : MuObject :=
  let 'mkMuObject t p c s bp pos rot rr arm bn fi _ ao bo := o in
  mkMuObject t p c s bp pos rot rr arm bn fi (Some v) ao bo.

Definition set_armature_obj (v : bpy_id) (o : MuObject) : MuObject :=
  let 'mkMuObject t p c s bp pos rot rr arm bn fi pb _ bo := o in
  mkMuObject t p c s bp pos rot rr arm bn fi pb (Some v) bo.

Definition set_bindPose_obj (v : bpy_id) (o : MuObject) : MuObject :=
  let 'mkMuObject t p c s bp pos rot rr arm bn fi pb ao _ := o in
  mkMuObject t p c s bp pos rot rr arm bn fi pb ao (Some v).

(** The objects of the scene graph, by address.  Every address denotes an
    object, as every Python reference does. *)
Abbreviation heap := (objid -> MuObject) (only parsing).

(** [mu.objects]: the loader's dictionary from bone names to objects. *)
Record Mu := mkMu { objects : gmap string objid }.

(** An edit bone of an armature.  [eb_roll] records the vector the roll
    was last aligned to ([align_roll]); the angle itself is Blender's. *)
Record BoneFlags := mkBoneFlags {
  use_connect : bool;
  use_inherit_rotation : bool;
  use_envelope_multiply : bool;
  use_deform : bool;
  use_inherit_scale : bool;
  use_local_location : bool;
  use_relative_parent : bool;
  use_cyclic_offset : bool
}.

Record EditBone := mkEditBone {
  eb_name : string;
  eb_head : Vector;
  eb_tail : Vector;
  eb_roll : option Vector;
  eb_parent : option handle;
  eb_flags : option BoneFlags
}.

Definition set_head (v : Vector) (b : EditBone) : EditBone :=
  let 'mkEditBone n _ t r p f := b in mkEditBone n v t r p f.

Definition set_tail (v : Vector) (b : EditBone) : EditBone :=
  let 'mkEditBone n h _ r p f := b in mkEditBone n h v r p f.

Definition align_roll (v : Vector) (b : EditBone) : EditBone :=
  let 'mkEditBone n h t _ p f := b in mkEditBone n h t (Some v) p f.

Definition set_parent (hp : handle) (b : EditBone) : EditBone :=
  let 'mkEditBone n h t r _ f := b in mkEditBone n h t r (Some hp) f.

Definition set_flags (f : BoneFlags) (b : EditBone) : EditBone :=
  let 'mkEditBone n h t r p _ := b in mkEditBone n h t r p (Some f).

(** The part of Blender that the module relies on and does not define:
    how [edit_bones.new] makes a name unique among the bones that exist,
    and the armature-space matrix a pose bone gets from its edit bone when
    edit mode is left. *)
Class Host := mkHost {
  unique_name : list string -> string -> string;
  rest_matrix : EditBone -> Matrix
}.

(** The state a build works on: the scene graph, the edit bones of the
    two armatures in the order of their creation, and the pose matrices
    ([obj.pose.bones[name].matrix]) of the two armature objects. *)
Record World := mkWorld {
  objs : heap;
  armature_bones : list EditBone;
  bindPose_bones : list EditBone;
  armature_pose : gmap string Matrix;
  bindPose_pose : gmap string Matrix
}.

Definition set_objs (h : heap) (w : World) : World :=
  let 'mkWorld _ a b ap bp := w in mkWorld h a b ap bp.

Definition set_armature_bones (a : list EditBone) (w : World) : World :=
  let 'mkWorld h _ b ap bp := w in mkWorld h a b ap bp.

Definition set_bindPose_bones (b : list EditBone) (w : World) : World :=
  let 'mkWorld h a _ ap bp := w in mkWorld h a b ap bp.

Definition set_armature_pose (ap : gmap string Matrix) (w : World) : World :=
  let 'mkWorld h a b _ bp := w in mkWorld h a b ap bp.

Definition set_bindPose_pose (bp : gmap string Matrix) (w : World) : World :=
  let 'mkWorld h a b ap _ := w in mkWorld h a b ap bp.

(** [setattr] on the object at an address. *)
Definition update (o : objid) (f : MuObject -> MuObject) (w : World) : World :=
  set_objs (alter f o (objs w)) w.

(** ** Module constants *)

Definition BONE_LENGTH : Q := 0.1.

(** matrix for converting between LHS and RHS (works either direction) *)
Definition Matrix_YZ : Matrix :=
  ((1, 0, 0, 0),
   (0, 0, 1, 0),
   (0, 1, 0, 0),
   (0, 0, 0, 1))%Q.

(** The matrix with the second and third rows, and the second and third
    columns, of [m] exchanged. *)
Definition swap_yz (m : Matrix) : Matrix :=
  let '((a00, a01, a02, a03), (a10, a11, a12, a13),
        (a20, a21, a22, a23), (a30, a31, a32, a33)) := m in
  ((a00, a02, a01, a03), (a20, a22, a21, a23),
   (a10, a12, a11, a13), (a30, a32, a31, a33)).

(** ** find_bones *)

(** [Matrix((bp[0:4], bp[4:8], bp[8:12], bp[12:16]))] *)
Definition Matrix_of_rows (bp : floats16) : Matrix :=
  let 'F16 b0 b1 b2 b3 b4 b5 b6 b7 b8 b9 b10 b11 b12 b13 b14 b15 := bp in
  ((b0, b1, b2, b3), (b4, b5, b6, b7), (b8, b9, b10, b11),
   (b12, b13, b14, b15)).

(** [Matrix_YZ @ bp @ Matrix_YZ] *)
Definition convert (bp : Matrix) : Matrix :=
  mat_mul (mat_mul Matrix_YZ bp) Matrix_YZ.

(** Lines 102-106: the loop over [enumerate(skin.skinned_mesh_renderer.bones)],
    from index [i] on. *)
Fixpoint record_bindPoses (mu : Mu) (poses : list floats16) (i : nat)
    (names : list string) (h : heap) : Res heap :=
  match names with
  | [] => Ok h
  | bname :: rest =>
      let! bone := getitem (objects mu) bname in
      let! bp := match poses !! i with
                 | Some bp => Ok bp
                 | None => Raise IndexError
                 end in
      let bp := Matrix_of_rows bp in
      record_bindPoses mu poses (S i) rest
        (alter (set_bindPose (BindMatrix (convert bp))) bone h)
  end.

(** Lines 107-109: [bones.add(mu.objects[bname])] for the names of a list. *)
Fixpoint named_bones (mu : Mu) (names : list string) (bones : gset objid)
    : Res (gset objid) :=
  match names with
  | [] => Ok bones
  | bname :: rest =>
      let! b := getitem (objects mu) bname in
      named_bones mu rest ({[b]} ∪ bones)
  end.

(** Lines 117-119: [while b not in siblings: b = b.parent; bones.add(b)].
    When [b.parent] is [None] the source adds [None] to the set, finds it
    outside [siblings] and raises on [None.parent]; the set is lost with
    the exception, so the model raises at once. *)
Fixpoint walk_up (fuel : nat) (h : heap) (siblings : gset objid)
    (b : objid) (bones : gset objid) : Res (gset objid) :=
  if decide (b ∈ siblings) then Ok bones
  else
    match fuel with
    | O => OutOfFuel
    | S fuel =>
        match parent (h b) with
        | Some p => walk_up fuel h siblings p ({[p]} ∪ bones)
        | None => Raise (AttributeError "parent")
        end
    end.

(** Lines 115-119: one pass of [for b in prev_bones] over the elements
    that remain. *)
Fixpoint closure_pass (fuel : nat) (h : heap) (siblings : gset objid)
    (prev : list objid) (bones : gset objid) : Res (gset objid) :=
  match prev with
  | [] => Ok bones
  | b :: rest =>
      let! bones := walk_up fuel h siblings b ({[b]} ∪ bones) in
      closure_pass fuel h siblings rest bones
  end.

(** Lines 112-119: [while bones - prev_bones]. *)
Fixpoint closure_loop (fuel : nat) (h : heap) (siblings : gset objid)
    (prev_bones bones : gset objid) : Res (gset objid) :=
  if decide (bones ∖ prev_bones = ∅) then Ok bones
  else
    match fuel with
    | O => OutOfFuel
    | S fuel' =>
        let prev_bones := bones in
        let! bones := closure_pass fuel h siblings (elements prev_bones) ∅ in
        closure_loop fuel' h siblings prev_bones bones
    end.

Definition find_bones (fuel : nat) (mu : Mu) (skin : objid)
    (siblings : gset objid) (h : heap) : Res (gset objid * heap) :=
  let! smr := getattr "skinned_mesh_renderer" (skinned_mesh_renderer (h skin)) in
  let bone_names : gset string := list_to_set (bones smr) in
  let! h := record_bindPoses mu (bindPoses (mesh smr)) 0 (bones smr) h in
  let! bones := named_bones mu (elements bone_names) ∅ in
  let! bones := closure_loop fuel h siblings ∅ bones in
  Ok (bones, h).

(** ** Blender's bone collections *)

(** [for x in xs: body(x)] on a state that [body] may fail on. *)
Fixpoint for_each {A S : Type} (body : A -> S -> Res S) (xs : list A) (s : S)
    : Res S :=
  match xs with
  | [] => Ok s
  | x :: xs => let! s := body x s in for_each body xs s
  end.

(** [a.edit_bones]: only the two armatures have one. *)
Definition edit_bones (a : bpy_id) (w : World) : Res (list EditBone) :=
  match a with
  | ArmatureData => Ok (armature_bones w)
  | BindPoseData => Ok (bindPose_bones w)
  | _ => Raise (AttributeError "edit_bones")
  end.

Definition set_edit_bones (a : bpy_id) (l : list EditBone) (w : World)
    : World :=
  match a with
  | ArmatureData => set_armature_bones l w
  | BindPoseData => set_bindPose_bones l w
  | _ => w
  end.

(** Reading and writing through a bone handle. *)
Definition get_bone (hd : handle) (w : World) : Res EditBone :=
  let! l := edit_bones hd.1 w in
  match l !! hd.2 with
  | Some eb => Ok eb
  | None => Raise ReferenceError
  end.

Definition alter_bone (hd : handle) (f : EditBone -> EditBone) (w : World)
    : Res World :=
  let! eb := get_bone hd w in
  let! l := edit_bones hd.1 w in
  Ok (set_edit_bones hd.1 (<[hd.2 := f eb]> l) w).

(** [obj.pose.bones]: only the two armature objects have one. *)
Definition pose_bones (o : bpy_id) (w : World) : Res (gmap string Matrix) :=
  match o with
  | ArmatureObject => Ok (armature_pose w)
  | BindPoseObject => Ok (bindPose_pose w)
  | _ => Raise (AttributeError "pose")
  end.

Definition set_pose_bones (o : bpy_id) (p : gmap string Matrix) (w : World)
    : World :=
  match o with
  | ArmatureObject => set_armature_pose p w
  | BindPoseObject => set_bindPose_pose p w
  | _ => w
  end.

(** The use of a [bone] attribute as an edit bone: a name (a [str]) has
    none of the attributes of one. *)
Definition as_edit_bone (attr : string) (b : bone_attr) : Res handle :=
  match b with
  | EditBoneRef hd => Ok hd
  | BoneName _ => Raise (AttributeError attr)
  end.

Section Builder.
Context `{Host}.

(** ** create_bone

    The collection [edit_bones] is given by the armature [a] it belongs
    to.  The new bone is appended to it; its handle is returned with the
    new state. *)
Definition create_bone (bone_obj : MuObject) (a : bpy_id) (w : World)
    : Res (handle * World) :=
  let xform := transform bone_obj in
  let! l := edit_bones a w in
  let bone :=
    mkEditBone (unique_name (eb_name <$> l) (name xform))
      (mkVector 0 0 0) (mkVector 0 0 0) None None None in
  (* actual positions and orientations will be sorted out when building
     the hierarchy *)
  let bone := set_head (mkVector 0 0 0) bone in
  let bone := set_tail (vadd (eb_head bone) (mkVector 0 BONE_LENGTH 0)) bone in
  let bone :=
    set_flags
      {| use_connect := false;
         use_inherit_rotation := true;
         use_envelope_multiply := false;
         use_deform := true;
         use_inherit_scale := true;
         use_local_location := false;
         use_relative_parent := false;
         use_cyclic_offset := false |} bone in
  Ok ((a, length l), set_edit_bones a (l ++ [bone]) w).

(** ** process_armature *)

(** [hasattr(child, "armature") and child.armature == armobj] *)
Definition in_armature (armobj : objid) (child : MuObject) : bool :=
  match armature child with
  | Some (ArmatureOwner a) => bool_decide (a = armobj)
  | _ => false
  end.

Fixpoint process_bone (fuel : nat) (armobj : objid) (obj : objid)
    (position' : Vector) (rotation' : Quaternion) (w : World) : Res World :=
  match fuel with
  | O => OutOfFuel
  | S fuel =>
      let! p := getattr "position" (position (objs w obj)) in
      let! b := getattr "bone" (bone (objs w obj)) in
      let! hd := as_edit_bone "head" b in
      let! w := alter_bone hd (set_head (vadd (quat_rotate rotation' p) position')) w in
      let! rot := getattr "rotation" (rotation (objs w obj)) in
      let lrot := quat_mul rotation' rot in
      let y := BONE_LENGTH in
      let! eb := get_bone hd w in
      let! w := alter_bone hd
                  (set_tail (vadd (eb_head eb) (quat_rotate lrot (mkVector 0 y 0)))) w in
      let! w := alter_bone hd (align_roll (quat_rotate lrot (mkVector 0 0 1))) w in
      let! w :=
        for_each
          (fun child w =>
             if in_armature armobj (objs w child) then
               let! b := getattr "bone" (bone (objs w obj)) in
               let! hd := as_edit_bone "head" b in
               let! eb := get_bone hd w in
               process_bone fuel armobj child (eb_head eb) lrot w
             else Ok w)
          (children (objs w obj)) w in
      (* must not keep references to bones when the armature leaves edit
         mode, so keep the bone's name instead *)
      let! b := getattr "bone" (bone (objs w obj)) in
      let! hd := as_edit_bone "name" b in
      let! eb := get_bone hd w in
      Ok (update obj (set_bone (BoneName (eb_name eb))) w)
  end.

Definition process_armature (fuel : nat) (armobj : objid)
    (rootBones : gset objid) (w : World) : Res World :=
  let pos := mkVector 0 0 0 in
  let rot := mkQuaternion 1 0 0 0 in
  (* the armature object has no bone *)
  for_each (fun rootBone w => process_bone fuel armobj rootBone pos rot w)
    (elements rootBones) w.

(** ** create_armature *)

(** Lines 129-130: [bones.update(find_bones(mu, skin, siblings))] for the
    skins of a list. *)
Fixpoint collect_bones (fuel : nat) (mu : Mu) (skins : list objid)
    (siblings : gset objid) (bones : gset objid) (h : heap)
    : Res (gset objid * heap) :=
  match skins with
  | [] => Ok (bones, h)
  | skin :: rest =>
      let! (found, h) := find_bones fuel mu skin siblings h in
      collect_bones fuel mu rest siblings (bones ∪ found) h
  end.

(** Lines 132-145: the armature object is the first skin; the two
    armatures and their objects are created and attached to it.  (The
    [show_axes] flags, the parenting of the bind-pose object and the
    collection links have no part in what follows.) *)
Definition setup_armobj (armobj : objid) (w : World) : World :=
  let w := update armobj
             (set_position (localPosition (transform (objs w armobj)))) w in
  let w := update armobj
             (set_rotation (localRotation (transform (objs w armobj)))) w in
  let w := update armobj (set_armature (ArmatureBlock ArmatureData)) w in
  let w := update armobj (set_bindPose (BindArmature BindPoseData)) w in
  let w := update armobj (set_armature_obj ArmatureObject) w in
  update armobj (set_bindPose_obj BindPoseObject) w.

(** [armobj.armature.edit_bones] and [armobj.bindPose.edit_bones]: the
    attribute must hold an armature. *)
Definition armature_block (a : armature_attr) : Res bpy_id :=
  match a with
  | ArmatureBlock a => Ok a
  | ArmatureOwner _ => Raise (AttributeError "edit_bones")
  end.

Definition bindPose_block (a : bindPose_attr) : Res bpy_id :=
  match a with
  | BindArmature a => Ok a
  | BindMatrix _ => Raise (AttributeError "edit_bones")
  end.

(** Lines 156-165: the body of the first loop over [bones]. *)
Definition annotate_bone (armobj : objid) (siblings : gset objid)
    (b : objid) (w : World) : Res World :=
  let w := update b (set_position (localPosition (transform (objs w b)))) w in
  let w := update b (set_rotation (localRotation (transform (objs w b)))) w in
  let w := update b (set_relRotation (mkQuaternion 1 0 0 0)) w in
  let! w :=
    if decide (b ∈ siblings) then
      let! arot := getattr "rotation" (rotation (objs w armobj)) in
      let r := quat_inverted arot in
      let! brot := getattr "rotation" (rotation (objs w b)) in
      let w := update b (set_rotation (quat_mul r brot)) w in
      let! bpos := getattr "position" (position (objs w b)) in
      let! apos := getattr "position" (position (objs w armobj)) in
      let w := update b (set_position (quat_rotate r (vsub bpos apos))) w in
      Ok (update b (set_relRotation r) w)
    else Ok w in
  let w := update b (set_armature (ArmatureOwner armobj)) w in
  let! arm := getattr "armature" (armature (objs w armobj)) in
  let! a := armature_block arm in
  let! (hd, w) := create_bone (objs w b) a w in
  Ok (update b (set_bone (EditBoneRef hd)) w).

(** Lines 167-174: the body of the second loop over [bones], on the
    state and the root bones found so far. *)
Definition link_bone (bones : gset objid) (b : objid)
    (s : World * gset objid) : Res (World * gset objid) :=
  let '(w, rootBones) := s in
  let! (w, rootBones) :=
    match parent (objs w b) with
    | Some p =>
        if decide (p ∈ bones) then
          let! pb := getattr "bone" (bone (objs w p)) in
          let! bb := getattr "bone" (bone (objs w b)) in
          let! hd := as_edit_bone "parent" bb in
          match pb with
          | EditBoneRef hp =>
              let! w := alter_bone hd (set_parent hp) w in
              Ok (w, rootBones)
          | BoneName _ => Raise TypeError
          end
        else Ok (w, {[b]} ∪ rootBones)
    | None => Ok (w, {[b]} ∪ rootBones)
    end in
  let w := update b (set_force_import false) w in
  let w :=
    foldl (fun w c =>
             if decide (c ∈ bones) then w
             else update b (set_force_import true) w)
      w (children (objs w b)) in
  Ok (w, rootBones).

(** [bpy.ops.object.mode_set(mode='OBJECT')] on an armature object: the
    pose bones are rebuilt from the edit bones, by name.  (Every edit
    bone is taken to give a pose bone; that Blender drops the edit bones
    of zero length is not modelled.) *)
Definition rest_pose (l : list EditBone) : gmap string Matrix :=
  list_to_map ((fun eb => (eb_name eb, rest_matrix eb)) <$> l).

Definition leave_edit_mode (o : bpy_id) (w : World) : World :=
  match o with
  | ArmatureObject => set_armature_pose (rest_pose (armature_bones w)) w
  | BindPoseObject => set_bindPose_pose (rest_pose (bindPose_bones w)) w
  | _ => w
  end.

(** [b.bindPose.inverted()] *)
Definition bindPose_inverted (bp : bindPose_attr) : Res Matrix :=
  match bp with
  | BindMatrix m =>
      match mat_inverted m with
      | Some i => Ok i
      | None => Raise ValueError
      end
  | BindArmature _ => Raise (AttributeError "inverted")
  end.

(** Lines 181-187: the body of the loop that builds the bind-pose
    skeleton. *)
Definition place_bind_bone (armobj : objid) (b : objid) (w : World)
    : Res World :=
  match bindPose (objs w b) with
  | None => Ok w
  | Some bp =>
      let! m := bindPose_inverted bp in
      let! abp := getattr "bindPose" (bindPose (objs w armobj)) in
      let! a := bindPose_block abp in
      let! (pb, w) := create_bone (objs w b) a w in
      let! w := alter_bone pb (set_head (mat_apply m (mkVector 0 0 0))) w in
      let! w := alter_bone pb
                  (set_tail (mat_apply m (mkVector 0 BONE_LENGTH 0))) w in
      let! w := alter_bone pb (align_roll (mat_apply m (mkVector 0 0 1))) w in
      let! eb := get_bone pb w in
      Ok (update b (set_poseBone (eb_name eb)) w)
  end.

(** Lines 190-193: the body of the loop over the pose bones. *)
Definition copy_pose_matrix (armobj : objid) (b : objid) (w : World)
    : Res World :=
  match bindPose (objs w b) with
  | None => Ok w
  | Some _ =>
      let! bo := getattr "bindPose_obj" (bindPose_obj (objs w armobj)) in
      let! bposes := pose_bones bo w in
      let! nm := getattr "poseBone" (poseBone (objs w b)) in
      let! pb := getitem bposes nm in
      let! ao := getattr "armature_obj" (armature_obj (objs w armobj)) in
      let! aposes := pose_bones ao w in
      let! rb := getitem aposes nm in
      (* pb.matrix = rb.matrix *)
      let! bposes := pose_bones bo w in
      Ok (set_pose_bones bo (<[nm := rb]> bposes) w)
  end.

(** Lines 202-206: the back references on a skin. *)
Definition attach_skin (armobj : objid) (skin : objid) (w : World)
    : Res World :=
  let! a := getattr "armature" (armature (objs w armobj)) in
  let w := update skin (set_armature a) w in
  let! ao := getattr "armature_obj" (armature_obj (objs w armobj)) in
  let w := update skin (set_armature_obj ao) w in
  let! bp := getattr "bindPose" (bindPose (objs w armobj)) in
  let w := update skin (set_bindPose bp) w in
  let! bo := getattr "bindPose_obj" (bindPose_obj (objs w armobj)) in
  Ok (update skin (set_bindPose_obj bo) w).

(** Lines 155-174 as one step: both loops of the first edit session, from
    the bone set to the linked skeleton and its roots. *)
Definition build_skeleton (armobj : objid) (siblings bones : gset objid)
    (w : World) : Res (World * gset objid) :=
  let! w := for_each (annotate_bone armobj siblings) (elements bones) w in
  for_each (link_bone bones) (elements bones) (w, ∅).

Definition create_armature (fuel : nat) (mu : Mu) (skins : list objid)
    (siblings : list objid) (h : heap) : Res (bpy_id * World) :=
  (* FIXME assumes all skin transfroms and bind poses are compatible *)
  let siblings : gset objid := list_to_set siblings in
  let! (bones, h) := collect_bones fuel mu skins siblings ∅ h in
  let! armobj := match skins !! 0%nat with
                 | Some skin => Ok skin
                 | None => Raise IndexError
                 end in
  let w := setup_armobj armobj (mkWorld h [] [] ∅ ∅) in
  (* lines 147-154: link armature objects so they can be edited; edit
     mode on armobj.armature_obj *)
  let! (w, rootBones) := build_skeleton armobj siblings bones w in
  let! w := process_armature fuel armobj rootBones w in
  let w := leave_edit_mode ArmatureObject w in
  (* lines 178-179: edit mode on armobj.bindPose_obj *)
  let! w := for_each (place_bind_bone armobj) (elements bones) w in
  let w := leave_edit_mode BindPoseObject w in
  let! w := for_each (copy_pose_matrix armobj) (elements bones) w in
  (* lines 195-200: the collections and the active object, which hold
     no bone *)
  let! w := for_each (attach_skin armobj) skins w in
  let! ao := getattr "armature_obj" (armature_obj (objs w armobj)) in
  Ok (ao, w).

End Builder.

(** ** Relations used to state the properties *)

(** The [k]-th parent of an object ([b] itself for [k = 0]). *)
Fixpoint nth_parent (h : heap) (k : nat) (b : objid) : option objid :=
  match k with
  | O => Some b
  | S k =>
      match parent (h b) with
      | Some p => nth_parent h k p
      | None => None
      end
  end.

(** [on_walk h siblings b x]: the upward walk of [find_bones] that starts
    at [b] visits [x]; it goes on from a bone to its parent only while the
    bone is outside [siblings]. *)
Inductive on_walk (h : heap) (siblings : gset objid) : objid -> objid -> Prop :=
| on_walk_start b : on_walk h siblings b b
| on_walk_step b p x :
    b ∉ siblings -> parent (h b) = Some p -> on_walk h siblings p x ->
    on_walk h siblings b x.

(** [walk_len h siblings b n]: the walk from [b] stops at a sibling
    boundary after [n] steps. *)
Inductive walk_len (h : heap) (siblings : gset objid) : objid -> nat -> Prop :=
| walk_len_here b : b ∈ siblings -> walk_len h siblings b 0
| walk_len_up b p n :
    b ∉ siblings -> parent (h b) = Some p -> walk_len h siblings p n ->
    walk_len h siblings b (S n).

(** A bone is a sibling boundary or has one among its ancestors. *)
Definition reaches_sibling (h : heap) (siblings : gset objid) (b : objid)
    : Prop :=
  exists n, walk_len h siblings b n.

(** [root_len h siblings b n]: the walk from [b] passes the root of the
    scene after [n] steps without having met a sibling boundary. *)
Inductive root_len (h : heap) (siblings : gset objid) : objid -> nat -> Prop :=
| root_len_here b :
    b ∉ siblings -> parent (h b) = None -> root_len h siblings b 0
| root_len_up b p n :
    b ∉ siblings -> parent (h b) = Some p -> root_len h siblings p n ->
    root_len h siblings b (S n).

Definition passes_root (h : heap) (siblings : gset objid) (b : objid)
    : Prop :=
  exists n, root_len h siblings b n.

(** The bones a skin lists, as objects. *)
Definition listed (mu : Mu) (smr : MuSkinnedMeshRenderer) (b : objid) : Prop :=
  exists bname, bname ∈ bones smr /\ objects mu !! bname = Some b.

(** [mu.objects] gives no object two names. *)
Definition one_name_each (mu : Mu) : Prop :=
  forall n1 n2 o,
    objects mu !! n1 = Some o -> objects mu !! n2 = Some o -> n1 = n2.

(** The calls [process_bone(obj, position, rotation)] that follow from
    the call on [start]: the call itself, and for a call on [obj] one on
    each child of [obj] that belongs to the armature, with the head and
    the accumulated rotation of [obj]. *)
Inductive visited (w : World) (armobj : objid) (start : objid)
    (pos0 : Vector) (rot0 : Quaternion)
    : objid -> Vector -> Quaternion -> Prop :=
| visited_start : visited w armobj start pos0 rot0 start pos0 rot0
| visited_child obj pos rot p q child :
    visited w armobj start pos0 rot0 obj pos rot ->
    position (objs w obj) = Some p ->
    rotation (objs w obj) = Some q ->
    child ∈ children (objs w obj) ->
    in_armature armobj (objs w child) = true ->
    visited w armobj start pos0 rot0 child
      (vadd (quat_rotate rot p) pos) (quat_mul rot q).

(** [b.parent] when it is in [bones] (the test [b.parent in bones]). *)
Definition parent_in (bones : gset objid) (b : MuObject) : option objid :=
  match parent b with
  | Some p => if decide (p ∈ bones) then Some p else None
  | None => None
  end.

(** No two objects hold a handle on the same edit bone. *)
Definition handles_distinct (w : World) : Prop :=
  forall o1 o2 hd,
    bone (objs w o1) = Some (EditBoneRef hd) ->
    bone (objs w o2) = Some (EditBoneRef hd) -> o1 = o2.

(** How the state changes over complete calls of [process_bone]: the
    annotations that the calls read stay as they are; a [bone] attribute
    changes at most from a handle to a name; and an edit bone changes
    only if an object that held a handle on it has been given its name. *)
Definition evolves (w w' : World) : Prop :=
  (forall o,
     position (objs w' o) = position (objs w o) /\
     rotation (objs w' o) = rotation (objs w o) /\
     children (objs w' o) = children (objs w o) /\
     armature (objs w' o) = armature (objs w o)) /\
  (forall o,
     bone (objs w' o) = bone (objs w o) \/
     exists hd nm, bone (objs w o) = Some (EditBoneRef hd) /\
                   bone (objs w' o) = Some (BoneName nm)) /\
  (forall hd,
     (forall o, bone (objs w o) = Some (EditBoneRef hd) ->
                bone (objs w' o) = Some (EditBoneRef hd)) ->
     get_bone hd w' = get_bone hd w).

(** The geometry [process_bone] gives a bone from the position and the
    rotation handed down to it and the bone's own [p] and [q]. *)
Definition propagated (pos : Vector) (rot : Quaternion) (p : Vector)
    (q : Quaternion) (eb : EditBone) : Prop :=
  let lrot := quat_mul rot q in
  eb_head eb = vadd (quat_rotate rot p) pos /\
  eb_tail eb = vadd (eb_head eb) (quat_rotate lrot (mkVector 0 BONE_LENGTH 0)) /\
  eb_roll eb = Some (quat_rotate lrot (mkVector 0 0 1)).

(** The outcome of the call [process_bone(o, pos, rot)] in a run from
    [w] to [w']: the edit bone that [o] held has the propagated geometry
    and no object holds a handle on it any more. *)
Definition settled (w w' : World) (o : objid) (pos : Vector)
    (rot : Quaternion) : Prop :=
  exists hd eb p q,
    bone (objs w o) = Some (EditBoneRef hd) /\
    position (objs w o) = Some p /\
    rotation (objs w o) = Some q /\
    (forall o', bone (objs w' o') <> Some (EditBoneRef hd)) /\
    get_bone hd w' = Ok eb /\
    propagated pos rot p q eb.

(** The attributes that the edit sessions read and never write. *)
Definition kept (o : MuObject)
    : option bindPose_attr * option bpy_id * option bpy_id :=
  (bindPose o, bindPose_obj o, armature_obj o).

(** A vector has length [l]: stated on squares, [l] not negative. *)
Definition has_length (v : Vector) (l : Q) : Prop :=
  (0 <= l)%Q /\ (vdot v v == l * l)%Q.

(** A bone set holds, for each of its bones, every proper ancestor below
    the first proper ancestor that is a sibling boundary. *)
Definition closed_below_boundary (h : heap) (siblings bones : gset objid)
    : Prop :=
  forall b k a,
    b ∈ bones -> 0 < k -> nth_parent h k b = Some a ->
    (forall j c, 0 < j <= k -> nth_parent h j b = Some c -> c ∉ siblings) ->
    a ∈ bones.

(** The same, with the bone itself taken for a boundary when it is one:
    every ancestor that no sibling boundary separates from the bone. *)
Definition closed_up_to_boundary (h : heap) (siblings bones : gset objid)
    : Prop :=
  forall b k a,
    b ∈ bones -> nth_parent h k b = Some a ->
    (forall j c, j < k -> nth_parent h j b = Some c -> c ∉ siblings) ->
    a ∈ bones.

(** ** Scene graphs of the scenarios *)

Definition identity16 : floats16 := F16 1 0 0 0 0 1 0 0 0 0 1 0 0 0 0 1.

(** A bind pose that moves the origin to [(x, 0, 0)]. *)
Definition shift16 (x : Q) : floats16 := F16 1 0 0 x 0 1 0 0 0 0 1 0 0 0 0 1.

Definition fresh_object (nm : string) (pos : Vector) (rot : Quaternion)
    (par : option objid) (ch : list objid)
    (smr : option MuSkinnedMeshRenderer) : MuObject :=
  mkMuObject (mkMuTransform nm pos rot) par ch smr
    None None None None None None None None None None.

(** Three chained transforms A (0), B (1), C (2) and a skin (3) that
    lists [names] with the bind poses [poses]; [rotB] is the local
    rotation of B. *)
Definition chain_heap (rotB : Quaternion) (names : list string)
    (poses : list floats16) : heap :=
  fun o =>
    match o with
    | 0 => fresh_object "A" (mkVector 1 0 0) (mkQuaternion 1 0 0 0)
             None [1] None
    | 1 => fresh_object "B" (mkVector 0 1 0) rotB (Some 0) [2] None
    | 2 => fresh_object "C" (mkVector 0 0 1) (mkQuaternion 1 0 0 0)
             (Some 1) [] None
    | _ => fresh_object "skin" (mkVector 0 0 0) (mkQuaternion 1 0 0 0)
             None []
             (Some (mkMuSkinnedMeshRenderer names (mkMuMesh poses)))
    end.

Definition chain_mu : Mu :=
  mkMu (list_to_map [("A", 0); ("B", 1); ("C", 2)]).

(** The scenario of the specification: one skin on the bones A and C. *)
Definition chain_AC : heap :=
  chain_heap (mkQuaternion 1 0 0 0) ["A"; "C"] [identity16; identity16].

(** A host that keeps the names it is given and takes the translation to
    the head of a bone for its rest matrix. *)
Definition translation_host : Host :=
  mkHost (fun _ nm => nm)
    (fun eb => ((1, 0, 0, vx (eb_head eb)), (0, 1, 0, vy (eb_head eb)),
                (0, 0, 1, vz (eb_head eb)), (0, 0, 0, 1))%Q).

(** The state in which the first edit session of a build on [h] starts. *)
Definition start_world (armobj : objid) (h : heap) : World :=
  setup_armobj armobj (mkWorld h [] [] ∅ ∅).

(** The value of a call that returns ([d] otherwise). *)
Definition returned {A} (d : A) (r : Res A) : A :=
  match r with
  | Ok a => a
  | _ => d
  end.

(** A skin that lists A at the indices 0 and 2, with different bind
    poses, and C in between. *)
Definition repeated_smr : MuSkinnedMeshRenderer :=
  mkMuSkinnedMeshRenderer ["A"; "C"; "A"]
    (mkMuMesh [identity16; identity16; shift16 2]).

Definition repeated_heap : heap :=
  chain_heap (mkQuaternion 1 0 0 0) (bones repeated_smr)
    (bindPoses (mesh repeated_smr)).

Definition repeated_run : gset objid * heap :=
  returned (∅, repeated_heap) (find_bones 4 chain_mu 3 {[0]} repeated_heap).

(** The scenario with A as the sibling boundary. *)
Definition chain_run : gset objid * heap :=
  returned (∅, chain_AC) (find_bones 4 chain_mu 3 {[0]} chain_AC).

(** The first edit session of the build on that scenario. *)
Definition chain_skeleton : World * gset objid :=
  returned (start_world 3 chain_run.2, ∅)
    (@build_skeleton translation_host 3 {[0]} chain_run.1
       (start_world 3 chain_run.2)).

(** The pose propagation on that skeleton. *)
Definition chain_posed : World :=
  returned chain_skeleton.1
    (process_armature 4 3 chain_skeleton.2 chain_skeleton.1).

(** The position and the rotation that the build has given A. *)
Definition chain_A_position : Vector :=
  default (mkVector 0 0 0) (position (objs chain_skeleton.1 0)).

Definition chain_A_rotation : Quaternion :=
  default (mkQuaternion 1 0 0 0) (rotation (objs chain_skeleton.1 0)).

(** The whole build on the scenario, and the bone set it works on. *)
Definition chain_built : bpy_id * World :=
  returned (ArmatureObject, start_world 3 chain_AC)
    (@create_armature translation_host 4 chain_mu [3] [0] chain_AC).

Definition chain_collected : gset objid * heap :=
  returned (∅, chain_AC)
    (collect_bones 4 chain_mu [3] (list_to_set [0]) ∅ chain_AC).

(** The same scenario with a zero quaternion for the rotation of B. *)
Definition degenerate_heap : heap :=
  chain_heap (mkQuaternion 0 0 0 0) ["A"; "C"] [identity16; identity16].

Definition degenerate_run : gset objid * heap :=
  returned (∅, degenerate_heap)
    (find_bones 4 chain_mu 3 {[0]} degenerate_heap).

Definition degenerate_skeleton : World * gset objid :=
  returned (start_world 3 degenerate_run.2, ∅)
    (@build_skeleton translation_host 3 {[0]} degenerate_run.1
       (start_world 3 degenerate_run.2)).

Definition degenerate_posed : World :=
  returned degenerate_skeleton.1
    (process_armature 4 3 degenerate_skeleton.2 degenerate_skeleton.1).

(** A skin on the bone C alone, with both A and C sibling boundaries: B
    lies between them. *)
Definition nested_heap : heap :=
  chain_heap (mkQuaternion 1 0 0 0) ["C"] [identity16].

Definition nested_run : gset objid * heap :=
  returned (∅, nested_heap) (find_bones 4 chain_mu 3 {[0; 2]} nested_heap).

(** ** is_armature *)

(** In Unity, it seems that an object with a SkinnedMeshRenderer is the
    armature, and bones can be children of the SMR object, or even
    siblings. *)
Definition is_armature (obj : MuObject) : bool :=
  match skinned_mesh_renderer obj with
  | Some smr =>
      match bones smr with
      | [] => false
      | _ :: _ => true
      end
  | None => false
  end.

(** ** Further relations and scenarios *)

(** The walk from [b] goes on for ever: every parent of [b], at any
    distance, exists and is outside [siblings]. *)
Definition endless (h : heap) (siblings : gset objid) (b : objid) : Prop :=
  forall k, exists a, nth_parent h k b = Some a /\ a ∉ siblings.

(** A skin without bones on the chain. *)
Definition boneless_heap : heap :=
  chain_heap (mkQuaternion 1 0 0 0) [] [].

(** A skin on A and C with a single bind pose. *)
Definition short_smr : MuSkinnedMeshRenderer :=
  mkMuSkinnedMeshRenderer ["A"; "C"] (mkMuMesh [identity16]).

Definition short_heap : heap :=
  chain_heap (mkQuaternion 1 0 0 0) (bones short_smr)
    (bindPoses (mesh short_smr)).

(** A transform that is its own parent, and a skin on it. *)
Definition cyclic_heap : heap :=
  fun o =>
    match o with
    | 0 => fresh_object "A" (mkVector 0 0 0) (mkQuaternion 1 0 0 0)
             (Some 0) [0] None
    | _ => fresh_object "skin" (mkVector 0 0 0) (mkQuaternion 1 0 0 0)
             None []
             (Some (mkMuSkinnedMeshRenderer ["A"] (mkMuMesh [identity16])))
    end.

(** The numbers of edit bones of the two skeletons. *)
Definition skeleton_sizes (w : World) : nat * nat :=
  (length (armature_bones w), length (bindPose_bones w)).

(** The references that a build leaves on its skins. *)
Definition refs (o : MuObject)
    : option armature_attr * option bpy_id * option bindPose_attr
      * option bpy_id :=
  (armature o, armature_obj o, bindPose o, bindPose_obj o).

(** The placement that the first edit session records on a bone. *)
Definition placement (o : MuObject)
    : option Vector * option Quaternion * option Quaternion :=
  (position o, rotation o, relRotation o).

(** A bone lies directly under a skin that is the only sibling boundary. *)
Definition inner_heap : heap :=
  fun o =>
    match o with
    | 0 => fresh_object "A" (mkVector 1 0 0) (mkQuaternion 1 0 0 0)
             (Some 3) [] None
    | _ => fresh_object "skin" (mkVector 0 0 0) (mkQuaternion 1 0 0 0)
             None [0]
             (Some (mkMuSkinnedMeshRenderer ["A"] (mkMuMesh [identity16])))
    end.

Definition inner_collected : gset objid * heap :=
  returned (∅, inner_heap)
    (collect_bones 4 chain_mu [3] (list_to_set [3]) ∅ inner_heap).

(** What the linking loop decides for an edit bone: its name, its parent
    and its flags. *)
Definition bone_links (hd : handle) (w : World)
    : option (string * option handle * option BoneFlags) :=
  match get_bone hd w with
  | Ok eb => Some (eb_name eb, eb_parent eb, eb_flags eb)
  | _ => None
  end.

(** From [w] to [w'] no edit bone is renamed, re-parented or re-flagged,
    and a [bone] attribute changes at most from the handle of an edit bone
    to the name of that bone. *)
Definition renames (w w' : World) : Prop :=
  (forall hd, bone_links hd w' = bone_links hd w) /\
  (forall o,
     bone (objs w' o) = bone (objs w o) \/
     exists hd eb,
       bone (objs w o) = Some (EditBoneRef hd) /\ get_bone hd w = Ok eb /\
       bone (objs w' o) = Some (BoneName (eb_name eb))).

(** ** create_armature_modifier *)

(** An armature modifier on a mesh object, with the attributes that the
    importer writes. *)
Record ArmatureModifier := mkArmatureModifier {
  mod_name : string;
  use_apply_on_spline : bool;
  use_bone_envelopes : bool;
  use_deform_preserve_volume : bool;
  use_multi_modifier : bool;
  use_vertex_groups : bool;
  mod_object : bpy_id
}.

(** The local function [add_modifier]: [obj.modifiers.new] appends a
    modifier under a name that is unique in the stack. *)
Definition add_modifier `{Host} (modifiers : list ArmatureModifier)
    (nm : string) (armature' : bpy_id) : list ArmatureModifier :=
  modifiers
  ++ [ {| mod_name := unique_name (mod_name <$> modifiers) nm;
          use_apply_on_spline := false;
          use_bone_envelopes := false;
          use_deform_preserve_volume := false; (* silly Unity :P *)
          use_multi_modifier := false;
          use_vertex_groups := true;
          mod_object := armature' |} ].

(** [obj] is given by its modifier stack. *)
Definition create_armature_modifier `{Host} (modifiers : list ArmatureModifier)
    (armobj : MuObject) : Res (list ArmatureModifier) :=
  let! bo := getattr "bindPose_obj" (bindPose_obj armobj) in
  let modifiers := add_modifier modifiers "BindPose" bo in
  let! ao := getattr "armature_obj" (armature_obj armobj) in
  Ok (add_modifier modifiers "Armature" ao).

(** ** create_vertex_groups *)

Record VertexGroup := mkVertexGroup {
  vg_name : string;
  vg_weights : gmap nat Q
}.

(** The bone weights of one vertex: four bone indices and four weights. *)
Record MuBoneWeight := mkMuBoneWeight {
  indices : list Z;
  weights : list Q
}.

(** [VertexGroup.add((vind,), weight, 'ADD')] on the weights of a group
    is Blender's. *)
Class VertexGroupOps := mkVertexGroupOps {
  add_weight : gmap nat Q -> nat -> Q -> gmap nat Q
}.

(** [seq[i]] on a Python list, for [i] not negative. *)
Definition list_item {A} (l : list A) (i : nat) : Res A :=
  match l !! i with
  | Some x => Ok x
  | None => Raise IndexError
  end.

(** [obj.vertex_groups[bind]]: a negative index counts from the end. *)
Definition group_at (groups : list VertexGroup) (bind : Z) : Res nat :=
  let n := Z.of_nat (length groups) in
  let k := if (bind <? 0)%Z then (bind + n)%Z else bind in
  if ((0 <=? k)%Z && (k <? n)%Z)%bool then Ok (Z.to_nat k)
  else Raise IndexError.

(** Lines 39-41: the body of [for i in range(4)]. *)
Definition add_slot `{VertexGroupOps} (vind : nat) (weight : MuBoneWeight)
    (i : nat) (groups : list VertexGroup) : Res (list VertexGroup) :=
  let! bind := list_item (indices weight) i in
  let! bweight := list_item (weights weight) i in
  if Qeq_bool bweight 0 then Ok groups
  else
    let! k := group_at groups bind in
    let! g := list_item groups k in
    Ok (<[k := mkVertexGroup (vg_name g)
                 (add_weight (vg_weights g) vind bweight)]> groups).

(** [obj.vertex_groups.new(name=bone)]: a new, empty group at the end,
    under a name that is unique among the groups. *)
Definition new_group `{Host} (groups : list VertexGroup) (bone : string)
    : list VertexGroup :=
  groups ++ [mkVertexGroup (unique_name (vg_name <$> groups) bone) ∅].

(** [obj] is given by its vertex groups. *)
Definition create_vertex_groups `{Host} `{VertexGroupOps}
    (groups : list VertexGroup) (bones : list string)
    (weights' : list MuBoneWeight) : Res (list VertexGroup) :=
  let groups := foldl new_group groups bones in
  for_each (fun vw groups =>
              for_each (add_slot vw.1 vw.2) (seq 0 4) groups)
    (imap pair weights') groups.

(** A group index that [obj.vertex_groups[bind]] accepts among [n]
    groups. *)
Definition in_range (n : nat) (bind : Z) : Prop :=
  (- Z.of_nat n <= bind < Z.of_nat n)%Z.

(** The slot [i] of the bone weights of a vertex can be applied to [n]
    groups: it has an index and a weight, and the index is in range
    unless the weight is zero. *)
Definition slot_ok (n : nat) (bw : MuBoneWeight) (i : nat) : Prop :=
  exists bind x,
    indices bw !! i = Some bind /\ weights bw !! i = Some x /\
    (Qeq_bool x 0 = false -> in_range n bind).

(** ** Scenarios of the skinning functions *)

(** Vertex groups whose [add] sums the weights of a vertex. *)
Definition summing_groups : VertexGroupOps :=
  mkVertexGroupOps
    (fun ws vind x => <[vind := (default 0 (ws !! vind) + x)%Q]> ws).

(** One vertex, bound by halves to the bones A and B; its two other slots
    are unused. *)
Definition two_bone_weights : list MuBoneWeight :=
  [mkMuBoneWeight [0; 1; 9; 9]%Z [1 # 2; 1 # 2; 0; 0]%Q].

Definition two_bone_groups : list VertexGroup :=
  returned []
    (@create_vertex_groups translation_host summing_groups [] ["A"; "B"]
       two_bone_weights).

(** * Properties *)

(** ** Coordinate conversion *)

Section Conversion.
Local Open Scope Q_scope.

Lemma Matrix_YZ_squared : mat_mul Matrix_YZ Matrix_YZ = mat_identity.
Proof. reflexivity. Qed.

Lemma convert_twice (m : Matrix) : meq (convert (convert m)) m.
Proof.
  destruct m as [[[[[[a00 a01] a02] a03] [[[a10 a11] a12] a13]]
                   [[[a20 a21] a22] a23]] [[[a30 a31] a32] a33]].
  unfold convert, Matrix_YZ, mat_mul, row_mul, row_dot, meq, row_eq.
  repeat split; ring.
Qed.

Lemma Matrix_YZ_apply_twice (v : Vector) :
  veq (mat_apply Matrix_YZ (mat_apply Matrix_YZ v)) v.
Proof.
  destruct v as [x y z].
  unfold mat_apply, Matrix_YZ, row_dot, veq; simpl.
  repeat split; ring.
Qed.

(** The conversion swaps the second and third rows and columns. *)
Lemma convert_swaps (m : Matrix) : meq (convert m) (swap_yz m).
Proof.
  destruct m as [[[[[[a00 a01] a02] a03] [[[a10 a11] a12] a13]]
                   [[[a20 a21] a22] a23]] [[[a30 a31] a32] a33]].
  unfold convert, swap_yz, Matrix_YZ, mat_mul, row_mul, row_dot, meq, row_eq.
  repeat split; ring.
Qed.

(** C5. [Matrix_YZ] composed with itself is the identity; applying it
    twice to a position, or converting a 4x4 matrix (hence a rotation
    given as a matrix) twice, gives back the original; and the conversion
    of a matrix multiplies it by [Matrix_YZ] on the left and on the
    right, which exchanges its second and third rows and columns. *)
Theorem conversion_is_involution :
  mat_mul Matrix_YZ Matrix_YZ = mat_identity /\
  (forall v, veq (mat_apply Matrix_YZ (mat_apply Matrix_YZ v)) v) /\
  (forall m, meq (convert (convert m)) m) /\
  (forall m, convert m = mat_mul (mat_mul Matrix_YZ m) Matrix_YZ) /\
  (forall m, meq (convert m) (swap_yz m)).
Proof.
  split; [exact Matrix_YZ_squared |].
  split; [exact Matrix_YZ_apply_twice |].
  split; [exact convert_twice |].
  split; [reflexivity | exact convert_swaps].
Qed.

(** ** Quaternions *)

Lemma quat_rotate_norm (q : Quaternion) (v : Vector) :
  vdot (quat_rotate q v) (quat_rotate q v)
  == qdot q q * qdot q q * vdot v v.
Proof.
  destruct q as [w x y z], v as [a b c].
  unfold quat_rotate, vdot, qdot; simpl. ring.
Qed.

Lemma quat_rotate_scale (q : Quaternion) (k : Q) (v : Vector) :
  veq (quat_rotate q (vscale k v)) (vscale k (quat_rotate q v)).
Proof.
  destruct q as [w x y z], v as [a b c].
  unfold quat_rotate, vscale, veq; simpl. repeat split; ring.
Qed.

Lemma quat_mul_norm (a b : Quaternion) :
  qdot (quat_mul a b) (quat_mul a b) == qdot a a * qdot b b.
Proof.
  destruct a as [w x y z], b as [w' x' y' z'].
  unfold quat_mul, qdot; simpl. ring.
Qed.

Lemma vsub_vadd (a b : Vector) : veq (vsub (vadd a b) a) b.
Proof.
  destruct a, b. unfold vsub, vadd, veq; simpl. repeat split; ring.
Qed.

Lemma vdot_veq (a b c d : Vector) :
  veq a b -> veq c d -> vdot a c == vdot b d.
Proof.
  destruct a, b, c, d. unfold veq, vdot; simpl.
  intros (E1 & E2 & E3) (E4 & E5 & E6).
  rewrite E1, E2, E3, E4, E5, E6. reflexivity.
Qed.

(** The segment from head to tail of a propagated bone, for any
    accumulated rotation [lrot]. *)
Lemma bone_segment (head : Vector) (lrot : Quaternion) :
  let tail := vadd head (quat_rotate lrot (mkVector 0 BONE_LENGTH 0)) in
  veq (vsub tail head) (vscale BONE_LENGTH (quat_rotate lrot (mkVector 0 1 0))) /\
  vdot (vsub tail head) (vsub tail head)
  == (qdot lrot lrot * BONE_LENGTH) * (qdot lrot lrot * BONE_LENGTH).
Proof.
  destruct head as [hx hy hz], lrot as [w x y z].
  unfold quat_rotate, vscale, vsub, vadd, veq, vdot, qdot; simpl.
  repeat split; ring.
Qed.

(** ** The inverse of a matrix *)

Lemma mat_adjugate_det (m : Matrix) :
  meq (mat_mul m (mat_adjugate m)) (mat_scale (mat_det m) mat_identity).
Proof.
  destruct m as [[[[[[a00 a01] a02] a03] [[[a10 a11] a12] a13]]
                   [[[a20 a21] a22] a23]] [[[a30 a31] a32] a33]].
  unfold mat_mul, mat_adjugate, mat_det, mat_scale, row_scale, mat_identity,
    row_mul, row_dot, meq, row_eq.
  repeat split; ring.
Qed.

Lemma mat_inverted_inverse (m i : Matrix) :
  mat_inverted m = Some i -> meq (mat_mul m i) mat_identity.
Proof.
  unfold mat_inverted. destruct (Qeq_bool (mat_det m) 0) eqn:Hd; [discriminate |].
  intros E. injection E as <-. apply Qeq_bool_neq in Hd.
  pose proof (mat_adjugate_det m) as Hadj. revert Hadj Hd.
  generalize (mat_det m) as d. generalize (mat_adjugate m) as a.
  intros a d.
  destruct m as [[[[[[a00 a01] a02] a03] [[[a10 a11] a12] a13]]
                   [[[a20 a21] a22] a23]] [[[a30 a31] a32] a33]].
  destruct a as [[[[[[b00 b01] b02] b03] [[[b10 b11] b12] b13]]
                   [[[b20 b21] b22] b23]] [[[b30 b31] b32] b33]].
  unfold mat_mul, mat_scale, row_scale, mat_identity, row_mul, row_dot, meq, row_eq.
  intros ((H00 & H01 & H02 & H03) & (H10 & H11 & H12 & H13) &
          (H20 & H21 & H22 & H23) & (H30 & H31 & H32 & H33)) Hd.
  assert (Hinv : / d * d == 1) by (field; exact Hd).
  repeat split;
    match goal with
    | |- ?l == ?r =>
        match goal with
        | H : ?s == d * r |- _ =>
            transitivity (/ d * s); [ring | rewrite H; rewrite Qmult_assoc, Hinv; ring]
        end
    end.
Qed.

End Conversion.

(** ** Results and loops *)

Lemma bind_Ok {A B} (r : Res A) (k : A -> Res B) (b : B) :
  bind r k = Ok b -> exists a, r = Ok a /\ k a = Ok b.
Proof. destruct r; simpl; intros E; [eauto | discriminate | discriminate]. Qed.

(** Splits a hypothesis [bind r k = Ok b] into the two steps. *)
Ltac bind_inv H :=
  let a := fresh "a" in
  let E := fresh "E" in
  apply bind_Ok in H; destruct H as (a & E & H).

Tactic Notation "unbind" hyp(H) "as" ident(x) ident(Ex) :=
  apply bind_Ok in H; destruct H as (x & Ex & H).

Lemma for_each_app {A S} (body : A -> S -> Res S) (l1 l2 : list A) (s : S) :
  for_each body (l1 ++ l2) s
  = bind (for_each body l1 s) (for_each body l2).
Proof.
  revert s; induction l1 as [| x l1 IH]; intros s; simpl; [reflexivity |].
  destruct (body x s); simpl; auto.
Qed.

(** A relation that every step of a loop keeps holds over the loop. *)
Lemma for_each_preserves {A S} (body : A -> S -> Res S) (R : S -> S -> Prop)
    (l : list A) :
  (forall s, R s s) ->
  (forall s1 s2 s3, R s1 s2 -> R s2 s3 -> R s1 s3) ->
  (forall x s s', x ∈ l -> body x s = Ok s' -> R s s') ->
  forall s s', for_each body l s = Ok s' -> R s s'.
Proof.
  intros Hrefl Htrans. induction l as [| x l IH]; intros Hbody s s' E; simpl in E.
  - injection E as <-. apply Hrefl.
  - bind_inv E. eapply Htrans.
    + eapply Hbody; [left | eassumption].
    + apply IH; [| assumption]. intros y t t' Hy. apply Hbody. by right.
Qed.

(** The step of a loop on one of its elements. *)
Lemma for_each_elem {A S} (body : A -> S -> Res S) (l : list A) (x : A)
    (s s' : S) :
  for_each body l s = Ok s' -> x ∈ l ->
  exists l1 l2 s1 s2,
    l = l1 ++ x :: l2 /\ for_each body l1 s = Ok s1 /\
    body x s1 = Ok s2 /\ for_each body l2 s2 = Ok s'.
Proof.
  intros E Hx. apply list_elem_of_split in Hx as (l1 & l2 & ->).
  rewrite for_each_app in E. bind_inv E. simpl in E. bind_inv E.
  exists l1, l2, a, a0. auto.
Qed.

(** ** The first loop of find_bones *)

Lemma alter_set_bindPose_parent v b (h : heap) o :
  parent (alter (set_bindPose v) b h o) = parent (h o).
Proof.
  destruct (decide (b = o)) as [-> | Hne].
  - rewrite fn_lookup_alter. by destruct (h o).
  - by rewrite fn_lookup_alter_ne.
Qed.

Lemma alter_set_bindPose_smr v b (h : heap) o :
  skinned_mesh_renderer (alter (set_bindPose v) b h o)
  = skinned_mesh_renderer (h o).
Proof.
  destruct (decide (b = o)) as [-> | Hne].
  - rewrite fn_lookup_alter. by destruct (h o).
  - by rewrite fn_lookup_alter_ne.
Qed.

Lemma bindPose_set_bindPose v o : bindPose (set_bindPose v o) = Some v.
Proof. by destruct o. Qed.

Lemma record_bindPoses_frame mu poses names : forall i h h',
  record_bindPoses mu poses i names h = Ok h' ->
  forall o, parent (h' o) = parent (h o) /\
            skinned_mesh_renderer (h' o) = skinned_mesh_renderer (h o).
Proof.
  induction names as [| n names IH]; intros i h h' E o; simpl in E.
  - by injection E as <-.
  - bind_inv E. bind_inv E. destruct (IH _ _ _ E o) as [E2 E3].
    by rewrite E2, E3, alter_set_bindPose_parent, alter_set_bindPose_smr.
Qed.

(** The loop returns when every name is in [mu.objects] and has a bind
    pose at its index. *)
Lemma record_bindPoses_returns mu poses names : forall i h,
  (forall n, n ∈ names -> is_Some (objects mu !! n)) ->
  i + length names <= length poses ->
  exists h', record_bindPoses mu poses i names h = Ok h'.
Proof.
  induction names as [| n names IH]; intros i h Hall Hlen; simpl.
  - eauto.
  - destruct (Hall n) as [b Hb]; [left |].
    unfold getitem. rewrite Hb. simpl.
    destruct (lookup_lt_is_Some_2 poses i) as [bp Hbp]; [simpl in Hlen; lia |].
    rewrite Hbp. simpl. apply IH.
    + intros m Hm. apply Hall. by right.
    + simpl in Hlen. lia.
Qed.

Lemma record_bindPoses_names mu poses names : forall i h h',
  record_bindPoses mu poses i names h = Ok h' ->
  forall n, n ∈ names -> is_Some (objects mu !! n).
Proof.
  induction names as [| m names IH]; intros i h h' E n Hn; simpl in E.
  - by apply elem_of_nil in Hn.
  - bind_inv E. bind_inv E. apply elem_of_cons in Hn as [-> | Hn].
    + unfold getitem in E0. destruct (objects mu !! m); [eauto | discriminate].
    + eapply IH; eassumption.
Qed.

(** A name that is not in [mu.objects] makes the loop raise a
    [LookupError]: the [KeyError] of the name, or the [IndexError] of an
    earlier bone without a bind pose. *)
Lemma record_bindPoses_missing mu poses names : forall i h n,
  n ∈ names -> objects mu !! n = None ->
  exists e, record_bindPoses mu poses i names h = Raise e /\
            isinstance e "LookupError" = true.
Proof.
  induction names as [| m names IH]; intros i h n Hn Hmiss.
  - by apply elem_of_nil in Hn.
  - simpl. unfold getitem.
    destruct (objects mu !! m) as [b |] eqn:Hm; simpl.
    + destruct (poses !! i) as [bp |]; simpl.
      * apply elem_of_cons in Hn as [-> | Hn]; [congruence |].
        eapply IH; eassumption.
      * exists IndexError. by split.
    + exists (KeyError m). by split.
Qed.

(** Bones that no listed name designates keep their [bindPose]. *)
Lemma record_bindPoses_other mu poses names o : forall i h h',
  record_bindPoses mu poses i names h = Ok h' ->
  (forall n, n ∈ names -> objects mu !! n <> Some o) ->
  bindPose (h' o) = bindPose (h o).
Proof.
  induction names as [| m names IH]; intros i h h' E Hno; simpl in E.
  - by injection E as <-.
  - bind_inv E. bind_inv E. apply IH in E.
    + rewrite E. rewrite fn_lookup_alter_ne; [done |].
      intros ->. apply (Hno m); [left |].
      unfold getitem in E0. destruct (objects mu !! m); congruence.
    + intros n Hn. apply Hno. by right.
Qed.

(** The last name that designates a bone decides its [bindPose]. *)
Lemma record_bindPoses_last mu poses pre n post o bp : forall i h h',
  record_bindPoses mu poses i (pre ++ n :: post) h = Ok h' ->
  objects mu !! n = Some o ->
  (forall m, m ∈ post -> objects mu !! m <> Some o) ->
  poses !! (i + length pre) = Some bp ->
  bindPose (h' o) = Some (BindMatrix (convert (Matrix_of_rows bp))).
Proof.
  induction pre as [| m pre IH]; intros i h h' E Ho Hpost Hbp; simpl in E.
  - bind_inv E. bind_inv E. simpl in Hbp. rewrite Nat.add_0_r in Hbp.
    unfold getitem in E0. rewrite Ho in E0. injection E0 as <-.
    rewrite Hbp in E1. injection E1 as <-.
    erewrite record_bindPoses_other; [| eassumption | assumption].
    rewrite fn_lookup_alter. apply bindPose_set_bindPose.
  - bind_inv E. bind_inv E. eapply IH; [eassumption | assumption.. |].
    simpl in Hbp. by replace (S i + length pre) with (i + S (length pre)) by lia.
Qed.

(** ** The ancestor walk *)

Lemma on_walk_trans h sib b x y :
  on_walk h sib b x -> on_walk h sib x y -> on_walk h sib b y.
Proof.
  induction 1 as [| b p x Hb Hp _ IH]; [done |].
  intros Hxy. eapply on_walk_step; eauto.
Qed.

Lemma on_walk_parent h sib b x p :
  on_walk h sib b x -> x ∉ sib -> parent (h x) = Some p ->
  on_walk h sib b p.
Proof.
  intros Hbx Hx Hp. eapply on_walk_trans; [eassumption |].
  eapply on_walk_step; [eassumption.. | constructor].
Qed.

Lemma on_walk_ext h h' sib b x :
  (forall o, parent (h' o) = parent (h o)) ->
  on_walk h sib b x -> on_walk h' sib b x.
Proof.
  intros Hpar. induction 1 as [| b p x Hb Hp _ IH]; [constructor |].
  eapply on_walk_step; [done | by rewrite Hpar | done].
Qed.

(** A bone on the walk is a parent of the start that no sibling boundary
    separates from it, and conversely. *)
Lemma on_walk_nth_parent h sib b x :
  on_walk h sib b x <->
  exists k, nth_parent h k b = Some x /\
            forall j c, j < k -> nth_parent h j b = Some c -> c ∉ sib.
Proof.
  split.
  - induction 1 as [b | b p x Hb Hp _ (k & Hk & Hbelow)].
    + exists 0. split; [done |]. intros; lia.
    + exists (S k). simpl. rewrite Hp. split; [done |].
      intros [| j] c Hj Hc; simpl in Hc.
      * by injection Hc as <-.
      * rewrite Hp in Hc. eapply Hbelow; [| eassumption]. lia.
  - intros (k & Hk & Hbelow). revert b Hk Hbelow.
    induction k as [| k IH]; intros b Hk Hbelow; simpl in Hk.
    + injection Hk as <-. constructor.
    + destruct (parent (h b)) as [p |] eqn:Hp; [| discriminate].
      eapply on_walk_step; [by apply (Hbelow 0 b); [lia |] | eassumption |].
      apply IH; [done |]. intros j c Hj Hc.
      apply (Hbelow (S j) c); [lia |]. simpl. by rewrite Hp.
Qed.

Lemma walk_len_on_walk h sib b x n :
  walk_len h sib b n -> on_walk h sib b x ->
  exists m, m <= n /\ walk_len h sib x m.
Proof.
  intros Hlen Hwalk. revert n Hlen.
  induction Hwalk as [b | b p x Hb Hp _ IH]; intros n Hlen; [eauto |].
  inversion Hlen as [| b' p' n' _ Hp' Hlen']; subst; [done |].
  rewrite Hp in Hp'. injection Hp' as <-.
  destruct (IH _ Hlen') as (m & Hm & Hx). exists m. split; [lia | done].
Qed.

Lemma walk_len_root_len h sib b n m :
  walk_len h sib b n -> root_len h sib b m -> False.
Proof.
  intros Hlen. revert m.
  induction Hlen as [b Hb | b p n Hb Hp _ IH]; intros m Hroot.
  - inversion Hroot; subst; done.
  - inversion Hroot as [b' _ Hp' | b' p' m' _ Hp' Hroot']; subst.
    + congruence.
    + rewrite Hp in Hp'. injection Hp' as <-. eauto.
Qed.

(** What a walk that returns has added. *)
Lemma walk_up_Ok fuel h sib : forall b acc r,
  walk_up fuel h sib b acc = Ok r -> b ∈ acc ->
  (forall x, x ∈ r <-> x ∈ acc \/ on_walk h sib b x) /\
  reaches_sibling h sib b.
Proof.
  induction fuel as [| fuel IH]; intros b acc r E Hb; simpl in E.
  - destruct (decide (b ∈ sib)) as [Hs |]; [| discriminate].
    injection E as <-. split.
    + intros x. split; [auto |]. intros [Hx | Hw]; [done |].
      inversion Hw; subst; done.
    + exists 0. by constructor.
  - destruct (decide (b ∈ sib)) as [Hs | Hs].
    + injection E as <-. split.
      * intros x. split; [auto |]. intros [Hx | Hw]; [done |].
        inversion Hw; subst; done.
      * exists 0. by constructor.
    + destruct (parent (h b)) as [p |] eqn:Hp; [| discriminate].
      apply IH in E as [Hr (n & Hn)]; [| set_solver]. split.
      * intros x. rewrite Hr. split.
        -- intros [Hx | Hw].
           ++ apply elem_of_union in Hx as [Hx | Hx]; [| auto].
              apply elem_of_singleton in Hx as ->. right.
              eapply on_walk_step; [done.. | constructor].
           ++ right. eapply on_walk_step; eassumption.
        -- intros [Hx | Hw]; [left; set_solver |].
           inversion Hw as [| b' p' x' _ Hp' Hw']; subst; [left; set_solver |].
           rewrite Hp in Hp'. injection Hp' as <-. by right.
      * exists (S n). eapply walk_len_up; eassumption.
Qed.

(** A walk that meets a sibling boundary returns, given the fuel for its
    steps. *)
Lemma walk_up_returns h sib b n :
  walk_len h sib b n ->
  forall fuel acc, n <= fuel -> exists r, walk_up fuel h sib b acc = Ok r.
Proof.
  induction 1 as [b Hb | b p n Hb Hp _ IH]; intros fuel acc Hfuel.
  - destruct fuel; simpl; rewrite decide_True by done; eauto.
  - destruct fuel as [| fuel]; [lia |]. simpl.
    rewrite decide_False by done. rewrite Hp. apply IH. lia.
Qed.

(** A walk that passes the root raises, given the fuel for its steps. *)
Lemma walk_up_raises h sib b n :
  root_len h sib b n ->
  forall fuel acc, n < fuel ->
    walk_up fuel h sib b acc = Raise (AttributeError "parent").
Proof.
  induction 1 as [b Hb Hp | b p n Hb Hp _ IH]; intros fuel acc Hfuel;
    (destruct fuel as [| fuel]; [lia |]); simpl;
    rewrite decide_False by done; rewrite Hp; [done |].
  apply IH. lia.
Qed.

(** ** One pass of the closure *)

Lemma closure_pass_Ok fuel h sib l : forall acc r,
  closure_pass fuel h sib l acc = Ok r ->
  (forall x, x ∈ r <-> x ∈ acc \/ exists b, b ∈ l /\ on_walk h sib b x) /\
  (forall b, b ∈ l -> reaches_sibling h sib b).
Proof.
  induction l as [| b l IH]; intros acc r E; simpl in E.
  - injection E as <-. split.
    + intros x. split; [auto |]. intros [Hx | (b & Hb & _)]; [done |].
      by apply elem_of_nil in Hb.
    + intros b Hb. by apply elem_of_nil in Hb.
  - bind_inv E. apply walk_up_Ok in E0 as [Ha Hreach]; [| set_solver].
    apply IH in E as [Hr Hall]. split.
    + intros x. rewrite Hr, Ha. split.
      * intros [[Hx | Hw] | (c & Hc & Hw)].
        -- apply elem_of_union in Hx as [Hx | Hx]; [| auto].
           apply elem_of_singleton in Hx as ->. right. exists b.
           split; [left | constructor].
        -- right. exists b. split; [left | done].
        -- right. exists c. split; [by right | done].
      * intros [Hx | (c & Hc & Hw)]; [left; left; set_solver |].
        apply elem_of_cons in Hc as [-> | Hc]; [left; by right |].
        right. eauto.
    + intros c Hc. apply elem_of_cons in Hc as [-> | Hc]; auto.
Qed.

Lemma closure_pass_returns h sib bound fuel l : forall acc,
  (forall b, b ∈ l -> exists n, n <= bound /\ walk_len h sib b n) ->
  bound <= fuel ->
  exists r, closure_pass fuel h sib l acc = Ok r.
Proof.
  induction l as [| b l IH]; intros acc Hall Hfuel; simpl; [eauto |].
  destruct (Hall b) as (n & Hn & Hlen); [left |].
  destruct (walk_up_returns _ _ _ _ Hlen fuel ({[b]} ∪ acc)) as [r ->]; [lia |].
  simpl. apply IH; [| done]. intros c Hc. apply Hall. by right.
Qed.

(** With every walk bounded, a pass over bones of which one passes the
    root raises the [AttributeError] of that walk. *)
Lemma closure_pass_raises h sib bound fuel l : forall acc,
  (forall b, b ∈ l ->
     (exists n, n <= bound /\ walk_len h sib b n) \/
     (exists n, n <= bound /\ root_len h sib b n)) ->
  (exists b, b ∈ l /\ passes_root h sib b) ->
  bound < fuel ->
  closure_pass fuel h sib l acc = Raise (AttributeError "parent").
Proof.
  induction l as [| b l IH]; intros acc Hall (c & Hc & Hroot) Hfuel.
  - by apply elem_of_nil in Hc.
  - simpl. destruct (Hall b) as [(n & Hn & Hlen) | (n & Hn & Hlen)]; [left | |].
    + destruct (walk_up_returns _ _ _ _ Hlen fuel ({[b]} ∪ acc)) as [r ->];
        [lia |].
      simpl. apply IH; [| | done].
      * intros d Hd. apply Hall. by right.
      * apply elem_of_cons in Hc as [-> | Hc]; [| eauto].
        destruct Hroot as [m Hm]. destruct (walk_len_root_len _ _ _ _ _ Hlen Hm).
    + rewrite (walk_up_raises _ _ _ _ Hlen) by lia. done.
Qed.

(** A bound on the walks of finitely many bones. *)
Lemma walks_bounded (P : objid -> nat -> Prop) (l : list objid) :
  (forall b, b ∈ l -> exists n, P b n) ->
  exists bound, forall b, b ∈ l -> exists n, n <= bound /\ P b n.
Proof.
  induction l as [| b l IH]; intros Hall.
  - exists 0. intros b Hb. by apply elem_of_nil in Hb.
  - destruct IH as [bound Hbound]; [intros c Hc; apply Hall; by right |].
    destruct (Hall b) as [n Hn]; [left |].
    exists (max n bound). intros c Hc.
    apply elem_of_cons in Hc as [-> | Hc].
    + exists n. split; [lia | done].
    + destruct (Hbound c Hc) as (m & Hm & Hc'). exists m. split; [lia | done].
Qed.

(** ** The fix-point loop *)

(** The loop returns the bones on the walks from the bones it starts
    with (or these bones, when they are all in [prev_bones]). *)
Lemma closure_loop_Ok h sib fuel : forall prev start r,
  closure_loop fuel h sib prev start = Ok r ->
  (start ∖ prev = ∅ /\ r = start) \/
  ((forall x, x ∈ r <-> exists b, b ∈ start /\ on_walk h sib b x) /\
   (forall b, b ∈ start -> reaches_sibling h sib b)).
Proof.
  induction fuel as [| fuel IH]; intros prev start r E; simpl in E.
  - destruct (decide (start ∖ prev = ∅)); [| discriminate].
    injection E as <-. by left.
  - destruct (decide (start ∖ prev = ∅)) as [He | _].
    + injection E as <-. by left.
    + right. bind_inv E. apply closure_pass_Ok in E0 as [Ha Hreach].
      assert (Hstart : forall b, b ∈ start -> reaches_sibling h sib b).
      { intros b Hb. apply Hreach. by apply elem_of_elements. }
      split; [| done].
      assert (Ha' : forall x, x ∈ a <-> exists b, b ∈ start /\ on_walk h sib b x).
      { intros x. rewrite Ha. split.
        - intros [Hx | (b & Hb & Hw)]; [set_solver |].
          exists b. split; [by apply elem_of_elements | done].
        - intros (b & Hb & Hw). right. exists b.
          split; [by apply elem_of_elements | done]. }
      apply IH in E as [[_ ->] | [Hr _]]; [done |].
      intros x. rewrite Hr. split.
      * intros (b & Hb & Hw). apply Ha' in Hb as (c & Hc & Hcb).
        exists c. split; [done |]. eapply on_walk_trans; eassumption.
      * intros (b & Hb & Hw). exists x. split; [| constructor].
        apply Ha'. eauto.
Qed.

(** From the empty [prev_bones] the result is the closure in both cases. *)
Lemma closure_loop_from_empty h sib fuel start r :
  closure_loop fuel h sib ∅ start = Ok r ->
  forall x, x ∈ r <-> exists b, b ∈ start /\ on_walk h sib b x.
Proof.
  intros E. apply closure_loop_Ok in E as [[He ->] | [Hr _]]; [| done].
  intros x. split.
  - intros Hx. exists x. split; [done | constructor].
  - intros (b & Hb & _). set_solver.
Qed.

(** The loop stops after at most two passes. *)
Lemma closure_loop_returns h sib bound fuel prev start :
  (forall b, b ∈ start -> exists n, n <= bound /\ walk_len h sib b n) ->
  bound < fuel -> 2 <= fuel ->
  exists r, closure_loop fuel h sib prev start = Ok r.
Proof.
  intros Hall Hbound Htwo.
  destruct fuel as [| fuel]; [lia |]. simpl.
  destruct (decide (start ∖ prev = ∅)); [eauto |].
  destruct (closure_pass_returns h sib bound (S fuel) (elements start) ∅)
    as [r1 E1]; [| lia |].
  { intros b Hb. apply Hall. by apply elem_of_elements. }
  rewrite E1. simpl.
  apply closure_pass_Ok in E1 as [H1 _].
  destruct fuel as [| fuel]; [lia |]. simpl.
  destruct (decide (r1 ∖ start = ∅)); [eauto |].
  destruct (closure_pass_returns h sib bound (S fuel) (elements r1) ∅)
    as [r2 E2]; [| lia |].
  { intros x Hx. apply elem_of_elements, H1 in Hx as [Hx | (b & Hb & Hw)];
      [set_solver |].
    apply elem_of_elements, Hall in Hb as (m & Hm & Hlen).
    destruct (walk_len_on_walk _ _ _ _ _ Hlen Hw) as (k & Hk & Hx).
    exists k. split; [lia | done]. }
  rewrite E2. simpl.
  apply closure_pass_Ok in E2 as [H2 _].
  assert (Hsub : r2 ∖ r1 = ∅).
  { apply set_eq. intros x. split; [| set_solver].
    intros Hx. apply elem_of_difference in Hx as [Hx Hnx]. exfalso. apply Hnx.
    apply H2 in Hx as [Hx | (b & Hb & Hw)]; [set_solver |].
    apply elem_of_elements, H1 in Hb as [Hb | (c & Hc & Hcb)]; [set_solver |].
    apply H1. right. exists c. split; [done |].
    eapply on_walk_trans; eassumption. }
  destruct fuel; simpl; rewrite decide_True by done; eauto.
Qed.

Lemma closure_loop_raises h sib bound fuel start :
  (forall b, b ∈ start ->
     (exists n, n <= bound /\ walk_len h sib b n) \/
     (exists n, n <= bound /\ root_len h sib b n)) ->
  (exists b, b ∈ start /\ passes_root h sib b) ->
  bound < fuel ->
  closure_loop fuel h sib ∅ start = Raise (AttributeError "parent").
Proof.
  intros Hall (c & Hc & Hroot) Hfuel.
  destruct fuel as [| fuel]; [lia |]. simpl.
  rewrite decide_False by set_solver.
  rewrite (closure_pass_raises h sib bound); [done | | | done].
  - intros b Hb. apply Hall. by apply elem_of_elements.
  - exists c. split; [by apply elem_of_elements | done].
Qed.

(** ** The named bones *)

Lemma named_bones_Ok mu names : forall acc r,
  named_bones mu names acc = Ok r ->
  forall x, x ∈ r <->
            x ∈ acc \/ exists n, n ∈ names /\ objects mu !! n = Some x.
Proof.
  induction names as [| m names IH]; intros acc r E x; simpl in E.
  - injection E as <-. split; [auto |].
    intros [Hx | (n & Hn & _)]; [done | by apply elem_of_nil in Hn].
  - bind_inv E. unfold getitem in E0.
    destruct (objects mu !! m) as [b |] eqn:Hm; [| discriminate].
    injection E0 as <-. rewrite (IH _ _ E). split.
    + intros [Hx | (n & Hn & Hx)].
      * apply elem_of_union in Hx as [Hx | Hx]; [| auto].
        apply elem_of_singleton in Hx as ->. right. exists m.
        split; [left | done].
      * right. exists n. split; [by right | done].
    + intros [Hx | (n & Hn & Hx)]; [left; set_solver |].
      apply elem_of_cons in Hn as [-> | Hn].
      * left. rewrite Hm in Hx. injection Hx as ->. set_solver.
      * right. eauto.
Qed.

Lemma named_bones_returns mu names : forall acc,
  (forall n, n ∈ names -> is_Some (objects mu !! n)) ->
  exists r, named_bones mu names acc = Ok r.
Proof.
  induction names as [| m names IH]; intros acc Hall; simpl; [eauto |].
  destruct (Hall m) as [b Hb]; [left |].
  unfold getitem. rewrite Hb. simpl. apply IH.
  intros n Hn. apply Hall. by right.
Qed.

(** ** find_bones as a whole *)

(** What a call that returns has done: the bind poses are recorded, no
    parent link has changed, and the bone set is the set of the bones on
    the walks from the listed bones. *)
Lemma find_bones_Ok fuel mu skin sib h r h' :
  find_bones fuel mu skin sib h = Ok (r, h') ->
  exists smr,
    skinned_mesh_renderer (h skin) = Some smr /\
    record_bindPoses mu (bindPoses (mesh smr)) 0 (bones smr) h = Ok h' /\
    (forall o, parent (h' o) = parent (h o) /\
               skinned_mesh_renderer (h' o) = skinned_mesh_renderer (h o)) /\
    (forall x, x ∈ r <-> exists b, listed mu smr b /\ on_walk h sib b x).
Proof.
  unfold find_bones. intros E.
  bind_inv E. bind_inv E. bind_inv E. bind_inv E. injection E as <- <-.
  destruct (skinned_mesh_renderer (h skin)) as [smr |]; [| discriminate].
  injection E0 as <-. exists smr.
  pose proof (record_bindPoses_frame _ _ _ _ _ _ E1) as Hframe.
  split; [done |]. split; [done |]. split; [done |].
  intros x. rewrite (closure_loop_from_empty _ _ _ _ _ E3 x). split.
  - intros (b & Hb & Hw). exists b. split.
    + apply (named_bones_Ok _ _ _ _ E2) in Hb as [Hb | (n & Hn & Hb)];
        [set_solver |].
      exists n. split; [| done]. by apply elem_of_elements, elem_of_list_to_set in Hn.
    + eapply on_walk_ext; [| eassumption]. intros o. symmetry. apply Hframe.
  - intros (b & (n & Hn & Hb) & Hw). exists b. split.
    + apply (named_bones_Ok _ _ _ _ E2). right. exists n.
      split; [| done]. by apply elem_of_elements, elem_of_list_to_set.
    + eapply on_walk_ext; [| eassumption]. intros o. apply Hframe.
Qed.

Lemma find_bones_reaches fuel mu skin sib h r h' smr b :
  find_bones fuel mu skin sib h = Ok (r, h') ->
  skinned_mesh_renderer (h skin) = Some smr ->
  listed mu smr b -> reaches_sibling h sib b.
Proof.
  unfold find_bones. intros E Hsmr (n & Hn & Hb). rewrite Hsmr in E. simpl in E.
  bind_inv E. bind_inv E. bind_inv E. injection E as <- <-.
  assert (Hstart : b ∈ a0).
  { apply (named_bones_Ok _ _ _ _ E1). right. exists n.
    split; [| done]. by apply elem_of_elements, elem_of_list_to_set. }
  apply closure_loop_Ok in E2 as [[He _] | [_ Hreach]]; [set_solver |].
  destruct (Hreach b Hstart) as [k Hk]. exists k.
  clear -Hk E0. induction Hk as [b Hb | b p k Hb Hp _ IH]; [by constructor |].
  eapply walk_len_up; [done | | done].
  by rewrite <- (proj1 (record_bindPoses_frame _ _ _ _ _ _ E0 b)).
Qed.

(** A call on a skin that lists a bone whose walk passes the root does
    not return. *)
Lemma find_bones_passes_root fuel mu skin sib h smr b :
  skinned_mesh_renderer (h skin) = Some smr ->
  listed mu smr b -> passes_root h sib b ->
  forall res, find_bones fuel mu skin sib h <> Ok res.
Proof.
  intros Hsmr Hb [m Hroot] [r h'] E.
  destruct (find_bones_reaches _ _ _ _ _ _ _ _ _ E Hsmr Hb) as [n Hn].
  eapply walk_len_root_len; eassumption.
Qed.

(** ** C8: a bone name that the scene graph does not have *)

Lemma find_bones_missing fuel mu skin sib h smr bname :
  skinned_mesh_renderer (h skin) = Some smr ->
  bname ∈ bones smr -> objects mu !! bname = None ->
  exists e, find_bones fuel mu skin sib h = Raise e /\
            isinstance e "LookupError" = true.
Proof.
  intros Hsmr Hn Hmiss. unfold find_bones. rewrite Hsmr. simpl.
  destruct (record_bindPoses_missing mu (bindPoses (mesh smr)) (bones smr)
              0 h bname Hn Hmiss) as (e & -> & He).
  exists e. by split.
Qed.

Lemma collect_bones_frame fuel mu sib skins : forall acc h r h',
  collect_bones fuel mu skins sib acc h = Ok (r, h') ->
  forall o, parent (h' o) = parent (h o) /\
            skinned_mesh_renderer (h' o) = skinned_mesh_renderer (h o).
Proof.
  induction skins as [| s skins IH]; intros acc h r h' E o; simpl in E.
  - by injection E as <- <-.
  - bind_inv E. destruct a as [found h1].
    apply find_bones_Ok in E0 as (smr & _ & _ & Hframe & _).
    destruct (IH _ _ _ _ E o) as [-> ->]. apply Hframe.
Qed.

Lemma collect_bones_missing fuel mu sib skins skin smr bname :
  forall acc h,
  skin ∈ skins ->
  skinned_mesh_renderer (h skin) = Some smr ->
  bname ∈ bones smr -> objects mu !! bname = None ->
  forall res, collect_bones fuel mu skins sib acc h <> Ok res.
Proof.
  induction skins as [| s skins IH]; intros acc h Hin Hsmr Hn Hmiss res E.
  - by apply elem_of_nil in Hin.
  - simpl in E. bind_inv E. destruct a as [found h1].
    apply elem_of_cons in Hin as [<- | Hin].
    + destruct (find_bones_missing fuel mu skin sib h smr bname Hsmr Hn Hmiss)
        as (e & He & _). congruence.
    + apply find_bones_Ok in E0 as (smr' & _ & _ & Hframe & _).
      eapply IH; [done | | done.. | eassumption].
      by rewrite (proj2 (Hframe skin)).
Qed.

(** C8. When a skin lists a bone name that is not in [mu.objects],
    [find_bones] raises a [LookupError] on it; no build over skins that
    include it returns, and the build that starts with it raises that
    [LookupError] to its caller. *)
Theorem missing_bone_raises_LookupError `{Host} fuel mu skin sib h smr bname :
  skinned_mesh_renderer (h skin) = Some smr ->
  bname ∈ bones smr -> objects mu !! bname = None ->
  (exists e, find_bones fuel mu skin (list_to_set sib) h = Raise e /\
             isinstance e "LookupError" = true) /\
  (forall skins, skin ∈ skins ->
     forall res, create_armature fuel mu skins sib h <> Ok res) /\
  (forall rest,
     exists e, create_armature fuel mu (skin :: rest) sib h = Raise e /\
               isinstance e "LookupError" = true).
Proof.
  intros Hsmr Hn Hmiss.
  pose proof (find_bones_missing fuel mu skin (list_to_set sib) h smr bname
                Hsmr Hn Hmiss) as (e & He & Hcls).
  split; [eauto |]. split.
  - intros skins Hin res E. unfold create_armature in E.
    bind_inv E. destruct a as [bs h1].
    eapply collect_bones_missing; eassumption.
  - intros rest. exists e. split; [| done].
    unfold create_armature. simpl. by rewrite He.
Qed.

Lemma missing_bone_witness :
  exists e,
    find_bones 4 chain_mu 3 (list_to_set [0])
      (chain_heap (mkQuaternion 1 0 0 0) ["A"; "Z"] [identity16; identity16])
    = Raise e /\
    isinstance e "LookupError" = true.
Proof.
  apply (@missing_bone_raises_LookupError translation_host 4 chain_mu 3 [0]
           (chain_heap (mkQuaternion 1 0 0 0) ["A"; "Z"] [identity16; identity16])
           (mkMuSkinnedMeshRenderer ["A"; "Z"] (mkMuMesh [identity16; identity16]))
           "Z").
  - reflexivity.
  - apply list_elem_of_further, list_elem_of_here.
  - reflexivity.
Defined.

(** ** C9: a bone name listed more than once *)

Lemma record_bindPoses_pose mu poses pre n post : forall i h h',
  record_bindPoses mu poses i (pre ++ n :: post) h = Ok h' ->
  is_Some (poses !! (i + length pre)).
Proof.
  induction pre as [| m pre IH]; intros i h h' E; simpl in E.
  - bind_inv E. bind_inv E. simpl. rewrite Nat.add_0_r.
    destruct (poses !! i); [eauto | discriminate].
  - bind_inv E. bind_inv E. apply IH in E.
    simpl. by replace (i + S (length pre)) with (S i + length pre) by lia.
Qed.

(** C9. When a skin lists a bone name at the indices [i < j] and at no
    index after [j], the [bindPose] that [find_bones] leaves on the bone
    is the converted matrix of the bind pose at [j], and the bone is in
    the bone set once.  ([mu.objects] is taken to name every object
    once, as the loader builds it.) *)
Theorem repeated_name_keeps_last_bindPose fuel mu skin sib h r h' smr n i j :
  find_bones fuel mu skin sib h = Ok (r, h') ->
  skinned_mesh_renderer (h skin) = Some smr ->
  one_name_each mu ->
  bones smr !! i = Some n -> bones smr !! j = Some n -> i < j ->
  (forall k, j < k -> bones smr !! k <> Some n) ->
  exists o bp,
    objects mu !! n = Some o /\
    bindPoses (mesh smr) !! j = Some bp /\
    bindPose (h' o) = Some (BindMatrix (convert (Matrix_of_rows bp))) /\
    o ∈ r /\
    count_occ Nat.eq_dec (elements r) o = 1.
Proof.
  intros E Hsmr Hinj _ Hj _ Hlast.
  destruct (find_bones_Ok _ _ _ _ _ _ _ E) as (smr' & Hsmr' & Hrec & _ & Hr).
  rewrite Hsmr in Hsmr'. injection Hsmr' as <-.
  assert (Hin : n ∈ bones smr) by (eapply list_elem_of_lookup_2; eassumption).
  destruct (record_bindPoses_names _ _ _ _ _ _ Hrec n Hin) as [o Ho].
  pose proof (take_drop_middle _ _ _ Hj) as Hsplit.
  assert (Hlen : length (take j (bones smr)) = j).
  { apply length_take_le. apply lookup_lt_Some in Hj. lia. }
  assert (Hbp : is_Some (bindPoses (mesh smr) !! j)).
  { rewrite <- Hsplit in Hrec.
    apply record_bindPoses_pose in Hrec. by rewrite Hlen in Hrec. }
  destruct Hbp as [bp Hbp]. exists o, bp.
  split; [done |]. split; [done |]. split.
  - rewrite <- Hsplit in Hrec.
    eapply record_bindPoses_last; [eassumption | done | | by rewrite Hlen].
    intros m Hm Hmo. assert (m = n) as -> by (eapply Hinj; eassumption).
    apply list_elem_of_lookup in Hm as [k Hk].
    rewrite lookup_drop in Hk. apply (Hlast (S j + k)); [lia | done].
  - assert (Hor : o ∈ r).
    { apply Hr. exists o. split; [| constructor]. exists n. by split. }
    split; [done |].
    apply NoDup_count_occ'; [apply NoDup_ListNoDup, NoDup_elements |].
    by apply list_elem_of_In, elem_of_elements.
Qed.

Lemma chain_mu_one_name_each : one_name_each chain_mu.
Proof.
  intros n1 n2 o H1 H2. unfold chain_mu in *. simpl in *.
  repeat (rewrite lookup_insert in H1; case_decide);
    repeat (rewrite lookup_insert in H2; case_decide);
    rewrite ?lookup_empty in *; congruence.
Defined.

Lemma repeated_name_witness :
  exists o bp,
    objects chain_mu !! "A" = Some o /\
    bindPoses (mesh repeated_smr) !! 2 = Some bp /\
    bindPose (repeated_run.2 o)
    = Some (BindMatrix (convert (Matrix_of_rows bp))) /\
    o ∈ repeated_run.1 /\
    count_occ Nat.eq_dec (elements repeated_run.1) o = 1.
Proof.
  apply (repeated_name_keeps_last_bindPose 4 chain_mu 3 {[0]} repeated_heap
           repeated_run.1 repeated_run.2 repeated_smr "A" 0 2).
  - vm_compute. reflexivity.
  - reflexivity.
  - exact chain_mu_one_name_each.
  - reflexivity.
  - reflexivity.
  - lia.
  - intros k Hk. rewrite lookup_ge_None_2; [discriminate | simpl; lia].
Defined.

(** ** C10: termination of find_bones *)

Lemma walk_len_ext h h' sib b n :
  (forall o, parent (h' o) = parent (h o)) ->
  walk_len h sib b n -> walk_len h' sib b n.
Proof.
  intros Hpar. induction 1 as [b Hb | b p n Hb Hp _ IH]; [by constructor |].
  eapply walk_len_up; [done | by rewrite Hpar | done].
Qed.

Lemma root_len_ext h h' sib b n :
  (forall o, parent (h' o) = parent (h o)) ->
  root_len h sib b n -> root_len h' sib b n.
Proof.
  intros Hpar. induction 1 as [b Hb Hp | b p n Hb Hp _ IH].
  - constructor; [done | by rewrite Hpar].
  - eapply root_len_up; [done | by rewrite Hpar | done].
Qed.

Lemma record_bindPoses_fuel_free mu poses names : forall i h,
  record_bindPoses mu poses i names h <> OutOfFuel.
Proof.
  induction names as [| n names IH]; intros i h; simpl; [done |].
  unfold getitem. destruct (objects mu !! n); simpl; [| done].
  destruct (poses !! i); simpl; [apply IH | done].
Qed.

Lemma named_bones_listed mu smr start :
  named_bones mu (elements (list_to_set (bones smr) : gset string)) ∅
  = Ok start ->
  forall b, b ∈ start <-> listed mu smr b.
Proof.
  intros E b. rewrite (named_bones_Ok _ _ _ _ E b). unfold listed. split.
  - intros [Hb | (n & Hn & Hb)]; [set_solver |].
    exists n. split; [| done]. by apply elem_of_elements, elem_of_list_to_set in Hn.
  - intros (n & Hn & Hb). right. exists n.
    split; [| done]. by apply elem_of_elements, elem_of_list_to_set.
Qed.

(** C10. When every bone a skin lists is a sibling boundary or has one
    among its ancestors, [find_bones] terminates: from some amount of
    fuel on, it gives one and the same result, which is a bone set or an
    exception of the first loop. *)
Theorem find_bones_terminates mu skin sib h :
  (forall smr b,
     skinned_mesh_renderer (h skin) = Some smr -> listed mu smr b ->
     reaches_sibling h sib b) ->
  exists n, forall fuel, n <= fuel ->
    find_bones fuel mu skin sib h = find_bones n mu skin sib h /\
    find_bones n mu skin sib h <> OutOfFuel.
Proof.
  intros Hreach. unfold find_bones.
  destruct (skinned_mesh_renderer (h skin)) as [smr |] eqn:Hsmr; simpl;
    [| by exists 0].
  destruct (record_bindPoses mu (bindPoses (mesh smr)) 0 (bones smr) h)
    as [h1 | e |] eqn:Hrec; simpl;
    [| by exists 0 | by apply record_bindPoses_fuel_free in Hrec].
  pose proof (record_bindPoses_frame _ _ _ _ _ _ Hrec) as Hframe.
  destruct (named_bones_returns mu
              (elements (list_to_set (bones smr) : gset string)) ∅)
    as [start Hstart].
  { intros n Hn. apply elem_of_elements, elem_of_list_to_set in Hn.
    eapply record_bindPoses_names; eassumption. }
  rewrite Hstart. simpl.
  destruct (walks_bounded (walk_len h1 sib) (elements start)) as [bound Hbound].
  { intros b Hb. apply elem_of_elements in Hb.
    apply (named_bones_listed _ _ _ Hstart) in Hb.
    destruct (Hreach smr b eq_refl Hb) as [n Hn]. exists n.
    eapply walk_len_ext; [| eassumption]. intros o. apply Hframe. }
  assert (Hall : forall b, b ∈ start ->
                   exists n, n <= bound /\ walk_len h1 sib b n).
  { intros b Hb. apply Hbound. by apply elem_of_elements. }
  exists (S (S bound)). intros fuel Hfuel.
  destruct (closure_loop_returns h1 sib bound fuel ∅ start Hall) as [r Hr];
    [lia.. |].
  destruct (closure_loop_returns h1 sib bound (S (S bound)) ∅ start Hall)
    as [r' Hr']; [lia.. |].
  rewrite Hr, Hr'. simpl. split; [| done].
  assert (r = r') as ->; [| done].
  apply set_eq. intros x.
  rewrite (closure_loop_from_empty _ _ _ _ _ Hr x).
  by rewrite (closure_loop_from_empty _ _ _ _ _ Hr' x).
Qed.

Lemma find_bones_terminates_witness :
  exists n, forall fuel, n <= fuel ->
    find_bones fuel chain_mu 3 {[0]} chain_AC
    = find_bones n chain_mu 3 {[0]} chain_AC /\
    find_bones n chain_mu 3 {[0]} chain_AC <> OutOfFuel.
Proof.
  apply (find_bones_terminates chain_mu 3 {[0]} chain_AC).
  intros smr b Hsmr (n & Hn & Hb). injection Hsmr as <-. simpl in Hn.
  assert (Hzero : 0 ∈ ({[0]} : gset nat)) by (by apply elem_of_singleton).
  assert (Hone : 1 ∉ ({[0]} : gset nat))
    by (intros Hx; by apply elem_of_singleton in Hx).
  assert (Htwo : 2 ∉ ({[0]} : gset nat))
    by (intros Hx; by apply elem_of_singleton in Hx).
  apply elem_of_cons in Hn as [-> | Hn].
  - injection Hb as <-. exists 0. by constructor.
  - apply elem_of_cons in Hn as [-> | Hn]; [| by apply elem_of_nil in Hn].
    injection Hb as <-. exists 2.
    eapply walk_len_up; [done | reflexivity |].
    eapply walk_len_up; [done | reflexivity |].
    by constructor.
Defined.

(** ** C3: a walk that passes the root of the scene *)

(** With an empty sibling set the walk from A passes the root: the call
    runs out of fuel or raises the [AttributeError] of [None.parent],
    which is no [StructuralError]. *)
Lemma chain_AC_no_boundary fuel :
  find_bones fuel chain_mu 3 ∅ chain_AC = OutOfFuel \/
  find_bones fuel chain_mu 3 ∅ chain_AC = Raise (AttributeError "parent").
Proof.
  destruct fuel as [| [| [| [| fuel]]]]; vm_compute; auto.
Qed.

Lemma passes_root_no_StructuralError :
  ~ exists fuel e,
      find_bones fuel chain_mu 3 ∅ chain_AC = Raise e /\
      isinstance e "StructuralError" = true.
Proof.
  intros (fuel & e & E & He).
  destruct (chain_AC_no_boundary fuel) as [E' | E']; rewrite E' in E;
    [discriminate |].
  injection E as <-. vm_compute in He. discriminate.
Qed.

(** C3, as the code has it. When the names a skin lists are all in
    [mu.objects] and have bind poses, every listed bone has a sibling
    boundary or the root above it, and the walk of one of them passes the
    root without meeting a sibling boundary, [find_bones] raises the
    [AttributeError] of reading [parent] on [None]: from some amount of
    fuel on this is its result, and it returns a bone set for no amount
    of fuel. *)
Theorem passes_root_raises_AttributeError mu skin sib h smr b :
  skinned_mesh_renderer (h skin) = Some smr ->
  (forall n, n ∈ bones smr -> is_Some (objects mu !! n)) ->
  length (bones smr) <= length (bindPoses (mesh smr)) ->
  (forall c, listed mu smr c ->
     reaches_sibling h sib c \/ passes_root h sib c) ->
  listed mu smr b -> passes_root h sib b ->
  (exists n, forall fuel, n <= fuel ->
     find_bones fuel mu skin sib h = Raise (AttributeError "parent")) /\
  (forall fuel res, find_bones fuel mu skin sib h <> Ok res) /\
  isinstance (AttributeError "parent") "StructuralError" = false.
Proof.
  intros Hsmr Hnames Hposes Hall Hb Hroot.
  split; [| split; [| reflexivity]].
  2: { intros fuel res. eapply find_bones_passes_root; eassumption. }
  unfold find_bones. rewrite Hsmr. simpl.
  destruct (record_bindPoses_returns mu (bindPoses (mesh smr)) (bones smr) 0 h)
    as [h1 Hrec]; [done | simpl; lia |].
  rewrite Hrec. simpl.
  pose proof (record_bindPoses_frame _ _ _ _ _ _ Hrec) as Hframe.
  destruct (named_bones_returns mu
              (elements (list_to_set (bones smr) : gset string)) ∅)
    as [start Hstart].
  { intros n Hn. apply elem_of_elements, elem_of_list_to_set in Hn. auto. }
  rewrite Hstart. simpl.
  destruct (walks_bounded (fun c n => walk_len h1 sib c n \/ root_len h1 sib c n)
              (elements start)) as [bound Hbound].
  { intros c Hc. apply elem_of_elements in Hc.
    apply (named_bones_listed _ _ _ Hstart) in Hc.
    destruct (Hall c Hc) as [[n Hn] | [n Hn]]; exists n.
    - left. eapply walk_len_ext; [| eassumption]. intros o. apply Hframe.
    - right. eapply root_len_ext; [| eassumption]. intros o. apply Hframe. }
  exists (S bound). intros fuel Hfuel.
  rewrite (closure_loop_raises h1 sib bound); [done | | | lia].
  - intros c Hc. apply elem_of_elements, Hbound in Hc as (n & Hn & [Hc | Hc]);
      [left | right]; eauto.
  - exists b. split; [by apply (named_bones_listed _ _ _ Hstart) |].
    destruct Hroot as [n Hn]. exists n.
    eapply root_len_ext; [| eassumption]. intros o. apply Hframe.
Qed.

Lemma chain_AC_listed b :
  listed chain_mu (mkMuSkinnedMeshRenderer ["A"; "C"]
                     (mkMuMesh [identity16; identity16])) b ->
  b = 0 \/ b = 2.
Proof.
  intros (n & Hn & Hb). simpl in Hn.
  apply elem_of_cons in Hn as [-> | Hn]; [left; by injection Hb |].
  apply elem_of_cons in Hn as [-> | Hn]; [right; by injection Hb |].
  by apply elem_of_nil in Hn.
Defined.

Lemma chain_AC_passes_root b : b = 0 \/ b = 2 -> passes_root chain_AC ∅ b.
Proof.
  intros [-> | ->].
  - exists 0. constructor; [apply not_elem_of_empty | reflexivity].
  - exists 2.
    eapply root_len_up; [apply not_elem_of_empty | reflexivity |].
    eapply root_len_up; [apply not_elem_of_empty | reflexivity |].
    constructor; [apply not_elem_of_empty | reflexivity].
Defined.

Lemma passes_root_witness :
  (exists n, forall fuel, n <= fuel ->
     find_bones fuel chain_mu 3 ∅ chain_AC = Raise (AttributeError "parent")) /\
  (forall fuel res, find_bones fuel chain_mu 3 ∅ chain_AC <> Ok res) /\
  isinstance (AttributeError "parent") "StructuralError" = false.
Proof.
  apply (passes_root_raises_AttributeError chain_mu 3 ∅ chain_AC
           (mkMuSkinnedMeshRenderer ["A"; "C"]
              (mkMuMesh [identity16; identity16])) 0).
  - reflexivity.
  - intros n Hn. simpl in Hn.
    apply elem_of_cons in Hn as [-> | Hn]; [by exists 0 |].
    apply elem_of_cons in Hn as [-> | Hn]; [by exists 2 |].
    by apply elem_of_nil in Hn.
  - simpl. lia.
  - intros c Hc. right. by apply chain_AC_passes_root, chain_AC_listed.
  - exists "A". split; [left | reflexivity].
  - apply chain_AC_passes_root. by left.
Defined.

(** ** C2: closure of the bone set *)

(** C is in the bone set and is a sibling boundary itself, so its walk
    does not start: B, between C and the sibling boundary A above it, is
    left out. *)
Lemma sibling_bone_parent_left_out :
  find_bones 4 chain_mu 3 {[0; 2]} nested_heap = Ok nested_run /\
  ~ closed_below_boundary nested_run.2 {[0; 2]} nested_run.1.
Proof.
  split; [vm_compute; reflexivity |].
  intros Hclosed.
  assert (Hr : nested_run.1 = {[2]}) by (vm_compute; reflexivity).
  assert (H1 : 1 ∈ nested_run.1).
  { apply (Hclosed 2 1 1).
    - rewrite Hr. by apply elem_of_singleton.
    - lia.
    - reflexivity.
    - intros j c Hj Hc. assert (j = 1) as -> by lia.
      injection Hc as <-. set_solver. }
  rewrite Hr in H1. by apply elem_of_singleton in H1.
Qed.

(** C2, as the code has it. In the bone set that [find_bones] returns, a
    bone that is not a sibling boundary has its parent in the set, so
    every ancestor that no sibling boundary separates from a bone of the
    set - its first sibling-boundary ancestor included - is in the set;
    a bone that is a sibling boundary brings none of its ancestors in;
    and every bone of the set lies on the walk from a listed bone, at or
    below the first sibling boundary of that walk. *)
Theorem find_bones_closed_up_to_boundary fuel mu skin sib h r h' :
  find_bones fuel mu skin sib h = Ok (r, h') ->
  (forall b, b ∈ r -> b ∉ sib -> exists p, parent (h' b) = Some p /\ p ∈ r) /\
  closed_up_to_boundary h' sib r /\
  (forall x, x ∈ r ->
     exists smr b k,
       skinned_mesh_renderer (h skin) = Some smr /\ listed mu smr b /\
       nth_parent h' k b = Some x /\
       forall j c, j < k -> nth_parent h' j b = Some c -> c ∉ sib).
Proof.
  intros E.
  destruct (find_bones_Ok _ _ _ _ _ _ _ E) as (smr & Hsmr & _ & Hframe & Hr).
  assert (Hpar : forall o, parent (h' o) = parent (h o)) by (intros o; apply Hframe).
  assert (Hpar' : forall o, parent (h o) = parent (h' o)) by (intros o; by rewrite Hpar).
  split; [| split].
  - intros b Hb Hsib. apply Hr in Hb as (s & Hs & Hw).
    destruct (find_bones_reaches _ _ _ _ _ _ _ _ _ E Hsmr Hs) as [n Hn].
    destruct (walk_len_on_walk _ _ _ _ _ Hn Hw) as (m & _ & Hm).
    inversion Hm as [| b' p m' _ Hp _]; subst; [done |].
    exists p. split; [by rewrite Hpar |].
    apply Hr. exists s. split; [done |]. eapply on_walk_parent; eassumption.
  - intros b k a Hb Hk Hbelow. apply Hr in Hb as (s & Hs & Hw).
    apply Hr. exists s. split; [done |].
    eapply on_walk_trans; [eassumption |].
    apply (on_walk_ext h'); [done |]. apply on_walk_nth_parent. eauto.
  - intros x Hx. apply Hr in Hx as (s & Hs & Hw).
    apply (on_walk_ext _ h') in Hw; [| done].
    apply on_walk_nth_parent in Hw as (k & Hk & Hbelow).
    exists smr, s, k. auto.
Qed.

Lemma find_bones_closed_witness :
  (forall b, b ∈ chain_run.1 -> b ∉ ({[0]} : gset nat) ->
     exists p, parent (chain_run.2 b) = Some p /\ p ∈ chain_run.1) /\
  closed_up_to_boundary chain_run.2 {[0]} chain_run.1 /\
  (forall x, x ∈ chain_run.1 ->
     exists smr b k,
       skinned_mesh_renderer (chain_AC 3) = Some smr /\ listed chain_mu smr b /\
       nth_parent chain_run.2 k b = Some x /\
       forall j c, j < k -> nth_parent chain_run.2 j b = Some c ->
                   c ∉ ({[0]} : gset nat)).
Proof.
  apply (find_bones_closed_up_to_boundary 4 chain_mu 3 {[0]} chain_AC
           chain_run.1 chain_run.2).
  vm_compute. reflexivity.
Defined.

(** ** C4: the chain A, B, C with a skin on A and C - the bone set *)

(** With an empty sibling set no walk can stop: the call does not return
    the set of A, B and C, nor any other. *)
Lemma chain_empty_siblings_no_bone_set :
  ~ exists fuel h',
      find_bones fuel chain_mu 3 ∅ chain_AC
      = Ok (({[0; 1; 2]} : gset nat), h').
Proof.
  intros (fuel & h' & E).
  destruct (chain_AC_no_boundary fuel) as [E' | E']; rewrite E' in E;
    discriminate.
Qed.

(** ** Worlds *)

Lemma objs_update o f w : objs (update o f w) = alter f o (objs w).
Proof. by destruct w. Qed.

Lemma edit_bones_update a o f w : edit_bones a (update o f w) = edit_bones a w.
Proof. by destruct w, a. Qed.

Lemma get_bone_update hd o f w : get_bone hd (update o f w) = get_bone hd w.
Proof. unfold get_bone. by rewrite edit_bones_update. Qed.

Lemma pose_bones_update a o f w : pose_bones a (update o f w) = pose_bones a w.
Proof. by destruct w, a. Qed.

Lemma objs_set_edit_bones a l w : objs (set_edit_bones a l w) = objs w.
Proof. by destruct w, a. Qed.

Lemma edit_bones_set_edit_bones a l l0 w :
  edit_bones a w = Ok l0 -> edit_bones a (set_edit_bones a l w) = Ok l.
Proof. by destruct w, a. Qed.

Lemma edit_bones_set_edit_bones_ne a a' l w :
  a <> a' -> edit_bones a' (set_edit_bones a l w) = edit_bones a' w.
Proof. by destruct w, a, a'. Qed.

Lemma pose_bones_set_edit_bones a o l w :
  pose_bones o (set_edit_bones a l w) = pose_bones o w.
Proof. by destruct w, a, o. Qed.

(** What a write through a handle changes. *)
Lemma alter_bone_Ok hd f w w' :
  alter_bone hd f w = Ok w' ->
  exists eb,
    get_bone hd w = Ok eb /\ get_bone hd w' = Ok (f eb) /\
    (forall hd', hd' <> hd -> get_bone hd' w' = get_bone hd' w) /\
    objs w' = objs w /\
    (forall o, pose_bones o w' = pose_bones o w) /\
    (forall a l, edit_bones a w = Ok l ->
       exists l', edit_bones a w' = Ok l' /\ length l' = length l).
Proof.
  unfold alter_bone. intros E. bind_inv E. bind_inv E. injection E as <-.
  exists a. split; [done |].
  destruct hd as [arm i]. unfold get_bone in *. simpl in *.
  rewrite E1 in E0. simpl in E0.
  destruct (a0 !! i) as [eb |] eqn:Hi; [| discriminate]. injection E0 as <-.
  pose proof (lookup_lt_Some _ _ _ Hi) as Hlt.
  split; [| split; [| split; [| split]]].
  - rewrite (edit_bones_set_edit_bones _ _ _ _ E1). simpl.
    by rewrite list_lookup_insert_eq.
  - intros [arm' i'] Hne. simpl.
    destruct (decide (arm = arm')) as [<- | Harm].
    + rewrite (edit_bones_set_edit_bones _ _ _ _ E1), E1. simpl.
      rewrite list_lookup_insert_ne; [done | congruence].
    + by rewrite edit_bones_set_edit_bones_ne.
  - apply objs_set_edit_bones.
  - intros o. apply pose_bones_set_edit_bones.
  - intros arm' l Hl. destruct (decide (arm = arm')) as [<- | Harm].
    + rewrite (edit_bones_set_edit_bones _ _ _ _ E1).
      rewrite E1 in Hl. injection Hl as <-.
      eexists. split; [done |]. apply length_insert.
    + rewrite edit_bones_set_edit_bones_ne by done. eauto.
Qed.

Section BuilderFacts.
Context `{Host}.

Lemma create_bone_Ok o a w hd w' :
  create_bone o a w = Ok (hd, w') ->
  exists l eb,
    edit_bones a w = Ok l /\ hd = (a, length l) /\
    edit_bones a w' = Ok (l ++ [eb]) /\
    eb_name eb = unique_name (eb_name <$> l) (name (transform o)) /\
    eb_parent eb = None /\
    objs w' = objs w /\
    (forall a', a' <> a -> edit_bones a' w' = edit_bones a' w) /\
    (forall x, pose_bones x w' = pose_bones x w).
Proof.
  unfold create_bone. intros E. bind_inv E. injection E as <- <-.
  eexists a0, _. split; [done |]. split; [done |].
  split; [by erewrite edit_bones_set_edit_bones |].
  split; [reflexivity |]. split; [reflexivity |].
  split; [apply objs_set_edit_bones |]. split.
  - intros a' Hne. by apply edit_bones_set_edit_bones_ne.
  - intros x. apply pose_bones_set_edit_bones.
Qed.

Lemma annotate_bone_Ok armobj sib b w w' :
  annotate_bone armobj sib b w = Ok w' ->
  exists a l eb,
    armature (objs w armobj) = Some (ArmatureBlock a) /\ b <> armobj /\
    edit_bones a w = Ok l /\ edit_bones a w' = Ok (l ++ [eb]) /\
    eb_parent eb = None /\
    bone (objs w' b) = Some (EditBoneRef (a, length l)) /\
    (forall o, o <> b -> objs w' o = objs w o) /\
    (forall o, parent (objs w' o) = parent (objs w o) /\
               children (objs w' o) = children (objs w o)) /\
    (forall a', a' <> a -> edit_bones a' w' = edit_bones a' w).
Proof.
  unfold annotate_bone. intros E. bind_inv E.
  set (w3 := update b _ (update b _ (update b _ w))) in *.
  assert (H4 : (forall o, o <> b -> objs a o = objs w o) /\
               (forall o, parent (objs a o) = parent (objs w o) /\
                          children (objs a o) = children (objs w o) /\
                          armature (objs a o) = armature (objs w o)) /\
               (forall x, edit_bones x a = edit_bones x w)).
  { assert (H3 : (forall o, o <> b -> objs w3 o = objs w o) /\
               (forall o, parent (objs w3 o) = parent (objs w o) /\
                          children (objs w3 o) = children (objs w o) /\
                          armature (objs w3 o) = armature (objs w o)) /\
               (forall x, edit_bones x w3 = edit_bones x w)).
    { unfold w3. split; [| split].
      - intros o Ho. rewrite !objs_update. by rewrite !fn_lookup_alter_ne.
      - intros o. rewrite !objs_update.
        destruct (decide (b = o)) as [<- | Hne].
        + rewrite !fn_lookup_alter. by destruct (objs w b).
        + by rewrite !fn_lookup_alter_ne.
      - intros x. by rewrite !edit_bones_update. }
    destruct (decide (b ∈ sib)); [| by injection E0 as <-].
    bind_inv E0. bind_inv E0. bind_inv E0. bind_inv E0. injection E0 as <-.
    destruct H3 as (H3a & H3b & H3c). split; [| split].
    - intros o Ho. rewrite !objs_update. rewrite !fn_lookup_alter_ne by done. auto.
    - intros o. rewrite !objs_update.
      destruct (decide (b = o)) as [<- | Hne].
      + rewrite !fn_lookup_alter. destruct (H3b b) as (<- & <- & <-).
        by destruct (objs w3 b).
      + rewrite !fn_lookup_alter_ne by done. apply H3b.
    - intros x. by rewrite !edit_bones_update. }
  destruct H4 as (H4a & H4b & H4c).
  bind_inv E. bind_inv E. bind_inv E. destruct a2 as [hd w6].
  injection E as <-.
  rewrite objs_update in E1.
  assert (Hne : b <> armobj).
  { intros ->. rewrite fn_lookup_alter in E1.
    destruct (objs a armobj); simpl in E1. injection E1 as <-. discriminate. }
  rewrite fn_lookup_alter_ne in E1 by done.
  destruct (armature (objs a armobj)) as [arm |] eqn:Harm; [| discriminate].
  injection E1 as <-. destruct arm as [| arm]; [discriminate |].
  injection E2 as <-.
  apply create_bone_Ok in E3 as (l & eb & Hl & -> & Hl' & _ & Hpar & Hobjs & Hother & _).
  rewrite edit_bones_update, H4c in Hl.
  exists arm, l, eb. split; [by rewrite <- (proj2 (proj2 (H4b armobj))) |].
  split; [done |]. split; [done |].
  split; [by rewrite edit_bones_update |]. split; [done |]. split.
  { rewrite objs_update, fn_lookup_alter. by destruct (objs w6 b). }
  split; [| split].
  - intros o Ho. rewrite objs_update, fn_lookup_alter_ne by done.
    rewrite Hobjs, objs_update, fn_lookup_alter_ne by done. auto.
  - intros o. rewrite objs_update, Hobjs, objs_update.
    destruct (decide (b = o)) as [<- | Hbo].
    + rewrite !fn_lookup_alter. destruct (H4b b) as (<- & <- & _).
      by destruct (objs a b).
    + rewrite !fn_lookup_alter_ne by done.
      destruct (H4b o) as (-> & -> & _). done.
  - intros a' Ha'. rewrite edit_bones_update, Hother by done.
    by rewrite edit_bones_update.
Qed.


Lemma annotate_all armobj sib l : forall w w' a l0,
  for_each (annotate_bone armobj sib) l w = Ok w' ->
  NoDup l ->
  armature (objs w armobj) = Some (ArmatureBlock a) ->
  edit_bones a w = Ok l0 ->
  (forall o, parent (objs w' o) = parent (objs w o) /\
             children (objs w' o) = children (objs w o)) /\
  (forall o, o ∉ l -> objs w' o = objs w o) /\
  exists news,
    edit_bones a w' = Ok (l0 ++ news) /\ length news = length l /\
    forall i b, l !! i = Some b ->
      bone (objs w' b) = Some (EditBoneRef (a, length l0 + i)) /\
      exists eb, news !! i = Some eb /\ eb_parent eb = None.
Proof.
  induction l as [| b l IH]; intros w w' a l0 E Hnd Harm Hl0; simpl in E.
  - injection E as <-. split; [done |]. split; [done |].
    exists []. rewrite app_nil_r. split; [done |]. split; [done |].
    intros i b Hi. by rewrite lookup_nil in Hi.
  - bind_inv E. rename a0 into w1.
    apply annotate_bone_Ok in E0
      as (a' & l0' & eb & Harm' & Hne & Hl0' & Hl1 & Hpar & Hbone & Hother & Hlinks & _).
    rewrite Harm in Harm'. injection Harm' as <-.
    rewrite Hl0 in Hl0'. injection Hl0' as <-.
    apply NoDup_cons in Hnd as [Hb Hnd].
    destruct (IH w1 w' a (l0 ++ [eb]) E Hnd) as (Hlinks' & Hother' & news & Hl' & Hlen & Hbones);
      [by rewrite Hother | done |].
    split; [| split].
    + intros o. destruct (Hlinks' o) as [-> ->]. apply Hlinks.
    + intros o Ho. apply not_elem_of_cons in Ho as [Hob Ho].
      rewrite Hother' by done. by apply Hother.
    + exists (eb :: news). rewrite <- app_assoc in Hl'. split; [done |].
      split; [simpl; lia |].
      intros [| i] c Hi; simpl in Hi.
      * injection Hi as <-. rewrite Hother' by done. rewrite Nat.add_0_r.
        split; [done |]. exists eb. by split.
      * destruct (Hbones i c Hi) as [Hc Heb]. rewrite Hc. split; [| done].
        rewrite length_app. simpl. do 3 f_equal. lia.
Qed.


(** The [force_import] flag is all that the end of [link_bone] writes. *)
Lemma force_import_frame (bones : gset objid) b cs : forall w,
  let w' := foldl (fun w c => if decide (c ∈ bones) then w
                              else update b (set_force_import true) w) w cs in
  (forall hd, get_bone hd w' = get_bone hd w) /\
  (forall o, bone (objs w' o) = bone (objs w o) /\
             parent (objs w' o) = parent (objs w o) /\
             children (objs w' o) = children (objs w o)).
Proof.
  induction cs as [| c cs IH]; intros w; simpl; [done |].
  destruct (decide (c ∈ bones)); [apply IH |].
  destruct (IH (update b (set_force_import true) w)) as [Hg Hf]. split.
  - intros hd. by rewrite Hg, get_bone_update.
  - intros o. destruct (Hf o) as (-> & -> & ->). rewrite objs_update.
    destruct (decide (b = o)) as [<- | Hne].
    + rewrite fn_lookup_alter. by destruct (objs w b).
    + by rewrite fn_lookup_alter_ne.
Qed.

Lemma link_bone_Ok (bones : gset objid) b w R w' R' :
  link_bone bones b (w, R) = Ok (w', R') ->
  (forall o, bone (objs w' o) = bone (objs w o) /\
             parent (objs w' o) = parent (objs w o) /\
             children (objs w' o) = children (objs w o)) /\
  match parent_in bones (objs w b) with
  | Some p =>
      exists hd hp eb,
        bone (objs w b) = Some (EditBoneRef hd) /\
        bone (objs w p) = Some (EditBoneRef hp) /\
        get_bone hd w = Ok eb /\ get_bone hd w' = Ok (set_parent hp eb) /\
        (forall hd', hd' <> hd -> get_bone hd' w' = get_bone hd' w) /\
        R' = R
  | None =>
      (forall hd, get_bone hd w' = get_bone hd w) /\ R' = {[b]} ∪ R
  end.
Proof.
  unfold link_bone, parent_in. intros E. bind_inv E. destruct a as [w1 R1].
  injection E as <- <-.
  match goal with
  | |- context [foldl ?f ?w0 ?cs] =>
      destruct (force_import_frame bones b cs w0) as [Hg Hf]
  end.
  assert (Hupd : forall o,
            bone (objs (update b (set_force_import false) w1) o) = bone (objs w1 o) /\
            parent (objs (update b (set_force_import false) w1) o) = parent (objs w1 o) /\
            children (objs (update b (set_force_import false) w1) o)
            = children (objs w1 o)).
  { intros o. rewrite objs_update. destruct (decide (b = o)) as [<- | Hne].
    - rewrite fn_lookup_alter. by destruct (objs w1 b).
    - by rewrite fn_lookup_alter_ne. }
  destruct (parent (objs w b)) as [p |] eqn:Hp.
  - destruct (decide (p ∈ bones)) as [Hin | Hout].
    + bind_inv E0. bind_inv E0. bind_inv E0.
      destruct a as [hp | nm]; [| discriminate].
      bind_inv E0. injection E0 as <- <-.
      apply alter_bone_Ok in E3 as (eb & Heb & Heb' & Hothers & Hobjs & _).
      split.
      * intros o. destruct (Hf o) as (-> & -> & ->).
        destruct (Hupd o) as (-> & -> & ->). by rewrite Hobjs.
      * destruct (bone (objs w p)) as [bp |]; [| discriminate].
        injection E as ->.
        destruct (bone (objs w b)) as [bb |]; [| discriminate].
        injection E1 as ->. destruct a0 as [hd | nm]; [| discriminate].
        injection E2 as ->.
        exists a1, hp, eb. repeat split; try done.
        -- by rewrite Hg, get_bone_update.
        -- intros hd' Hne. rewrite Hg, get_bone_update. by apply Hothers.
    + injection E0 as <- <-. split.
      * intros o. destruct (Hf o) as (-> & -> & ->). apply Hupd.
      * split; [| done]. intros hd. by rewrite Hg, get_bone_update.
  - injection E0 as <- <-. split.
    + intros o. destruct (Hf o) as (-> & -> & ->). apply Hupd.
    + split; [| done]. intros hd. by rewrite Hg, get_bone_update.
Qed.


Lemma parent_in_ext (bones : gset objid) o o' :
  parent o' = parent o -> parent_in bones o' = parent_in bones o.
Proof. unfold parent_in. by intros ->. Qed.

Lemma parent_in_Some (bones : gset objid) o p :
  parent_in bones o = Some p <-> parent o = Some p /\ p ∈ bones.
Proof.
  unfold parent_in. destruct (parent o) as [q |]; [| naive_solver].
  destruct (decide (q ∈ bones)); naive_solver.
Qed.

Lemma link_all (bones : gset objid) (hof : objid -> bpy_id * nat) l :
  forall w R w' R',
  for_each (link_bone bones) l (w, R) = Ok (w', R') ->
  NoDup l -> (forall b, b ∈ l -> b ∈ bones) ->
  (forall b, b ∈ bones -> bone (objs w b) = Some (EditBoneRef (hof b))) ->
  (forall b c, b ∈ bones -> c ∈ bones -> hof b = hof c -> b = c) ->
  (forall o, bone (objs w' o) = bone (objs w o) /\
             parent (objs w' o) = parent (objs w o) /\
             children (objs w' o) = children (objs w o)) /\
  (forall hd, (forall b, b ∈ l -> hof b <> hd) ->
     get_bone hd w' = get_bone hd w) /\
  (forall b eb, b ∈ l -> get_bone (hof b) w = Ok eb ->
     get_bone (hof b) w'
     = Ok (match parent_in bones (objs w b) with
           | Some p => set_parent (hof p) eb
           | None => eb
           end)) /\
  (forall x, x ∈ R' <->
             x ∈ R \/ (x ∈ l /\ parent_in bones (objs w x) = None)).
Proof.
  induction l as [| b l IH]; intros w R w' R' E Hnd Hsub Hbone Hinj; simpl in E.
  - injection E as <- <-. split; [done |]. split; [done |]. split.
    + intros b eb Hb. by apply elem_of_nil in Hb.
    + intros x. split; [auto |]. intros [Hx | [Hx _]]; [done |].
      by apply elem_of_nil in Hx.
  - bind_inv E. destruct a as [w1 R1].
    apply NoDup_cons in Hnd as [Hb Hnd].
    apply link_bone_Ok in E0 as [Hf Hstep].
    assert (Hbone1 : forall c, c ∈ bones ->
                       bone (objs w1 c) = Some (EditBoneRef (hof c))).
    { intros c Hc. rewrite (proj1 (Hf c)). by apply Hbone. }
    destruct (IH w1 R1 w' R' E Hnd) as (Hf' & Hkeep & Hset & Hroots);
      [intros c Hc; apply Hsub; by right | done | done |].
    assert (Hpin : forall o, parent_in bones (objs w1 o) = parent_in bones (objs w o)).
    { intros o. apply parent_in_ext, Hf. }
    assert (Hbb : b ∈ bones) by (apply Hsub; left).
    split; [| split; [| split]].
    + intros o. destruct (Hf' o) as (-> & -> & ->). apply Hf.
    + intros hd Hhd. rewrite Hkeep by (intros c Hc; apply Hhd; by right).
      assert (Hne : hd <> hof b) by (intros ->; by apply (Hhd b); [left |]).
      destruct (parent_in bones (objs w b)) as [p |].
      * destruct Hstep as (hd0 & hp & eb & Hb0 & _ & _ & _ & Hothers & _).
        rewrite Hbone in Hb0 by done. injection Hb0 as <-. by apply Hothers.
      * apply Hstep.
    + intros c eb Hc Heb. apply elem_of_cons in Hc as [-> | Hc].
      * rewrite Hkeep.
        2: { intros c Hc Heq. apply Hinj in Heq; [| apply Hsub; by right | done].
             by subst. }
        destruct (parent_in bones (objs w b)) as [p |] eqn:Hp.
        -- destruct Hstep as (hd0 & hp & eb0 & Hb0 & Hp0 & Heb0 & Heb1 & _).
           rewrite Hbone in Hb0 by done. injection Hb0 as <-.
           apply parent_in_Some in Hp as [_ Hp].
           rewrite Hbone in Hp0 by done. injection Hp0 as <-.
           rewrite Heb in Heb0. by injection Heb0 as <-.
        -- destruct Hstep as [-> _]. done.
      * rewrite <- Hpin. apply Hset; [done |].
        assert (Hne : hof c <> hof b).
        { intros Heq. apply Hinj in Heq; [| apply Hsub; by right | done].
          by subst. }
        destruct (parent_in bones (objs w b)) as [p |].
        -- destruct Hstep as (hd0 & hp & eb0 & Hb0 & _ & _ & _ & Hothers & _).
           rewrite Hbone in Hb0 by done. injection Hb0 as <-.
           by rewrite Hothers.
        -- destruct Hstep as [-> _]. done.
    + intros x. rewrite Hroots.
      assert (HR1 : x ∈ R1 <-> x ∈ R \/ (x = b /\ parent_in bones (objs w b) = None)).
      { destruct (parent_in bones (objs w b)) as [p |].
        - destruct Hstep as (hd0 & hp & eb0 & _ & _ & _ & _ & _ & ->).
          naive_solver.
        - destruct Hstep as [_ ->]. set_solver. }
      rewrite HR1, Hpin. split.
      * intros [[Hx | [-> Hx]] | [Hx Hp]]; [by left | right | right].
        -- split; [left | done].
        -- split; [by right | done].
      * intros [Hx | [Hx Hp]]; [by left; left |].
        apply elem_of_cons in Hx as [-> | Hx]; [left; right | right]; done.
Qed.


(** C7. After the two loops of the first edit session, every bone of the
    bone set has an edit bone; when its source parent is in the bone set
    the parent of its edit bone is the edit bone of that parent, and
    otherwise its edit bone has no parent and the bone is among the root
    bones. So the parent of a generated bone is always the edit bone of a
    member of the bone set, and the source tree is left as it was. *)
Theorem skeleton_links_mirror_source armobj sib (bones : gset objid) w w' roots :
  build_skeleton armobj sib bones w = Ok (w', roots) ->
  (forall b, b ∈ bones ->
     exists hd eb,
       bone (objs w' b) = Some (EditBoneRef hd) /\ get_bone hd w' = Ok eb /\
       match parent_in bones (objs w' b) with
       | Some p =>
           exists hp, bone (objs w' p) = Some (EditBoneRef hp) /\
                      eb_parent eb = Some hp /\ b ∉ roots
       | None => eb_parent eb = None /\ b ∈ roots
       end) /\
  (forall b hd eb hp,
     b ∈ bones -> bone (objs w' b) = Some (EditBoneRef hd) ->
     get_bone hd w' = Ok eb -> eb_parent eb = Some hp ->
     exists p, p ∈ bones /\ parent (objs w' b) = Some p /\
               bone (objs w' p) = Some (EditBoneRef hp)) /\
  roots ⊆ bones /\
  (forall o, parent (objs w' o) = parent (objs w o)).
Proof.
  unfold build_skeleton. intros E. bind_inv E. rename a into w1.
  destruct (elements bones) as [| b0 l] eqn:Hel.
  { apply elements_empty_inv, leibniz_equiv in Hel. subst bones.
    simpl in E0, E. injection E0 as <-. injection E as <- <-.
    repeat split; try done; intros b; set_solver. }
  rewrite <- Hel in *.
  assert (Hfirst : exists a l0, armature (objs w armobj) = Some (ArmatureBlock a) /\
                                edit_bones a w = Ok l0).
  { rewrite Hel in E0. simpl in E0. bind_inv E0.
    apply annotate_bone_Ok in E1 as (a' & l0 & _ & Ha & _ & Hl0 & _). eauto. }
  destruct Hfirst as (a & l0 & Harm & Hl0).
  destruct (annotate_all _ _ _ _ _ _ _ E0 (NoDup_elements bones) Harm Hl0)
    as (Hlinks & _ & news & Hl1 & Hlen & Hnew).
  set (hof := fun b => match bone (objs w1 b) with
                       | Some (EditBoneRef hd) => hd
                       | _ => (a, 0)
                       end).
  assert (Hidx : forall b, b ∈ bones ->
            exists i eb, elements bones !! i = Some b /\
                         hof b = (a, length l0 + i) /\
                         bone (objs w1 b) = Some (EditBoneRef (hof b)) /\
                         get_bone (hof b) w1 = Ok eb /\ eb_parent eb = None).
  { intros b Hb. apply elem_of_elements, list_elem_of_lookup in Hb as [i Hi].
    destruct (Hnew i b Hi) as (Hbone & eb & Heb & Hpar).
    exists i, eb. unfold hof. rewrite Hbone. repeat split; try done.
    unfold get_bone. simpl. rewrite Hl1. simpl.
    rewrite lookup_app_r by lia.
    replace (length l0 + i - length l0) with i by lia. by rewrite Heb. }
  destruct (link_all bones hof (elements bones) w1 ∅ w' roots E
              (NoDup_elements bones))
    as (Hf & _ & Hset & Hroots).
  { intros b Hb. by apply elem_of_elements. }
  { intros b Hb. by destruct (Hidx b Hb) as (i & eb & _ & _ & ? & _). }
  { intros b c Hb Hc Heq.
    destruct (Hidx b Hb) as (i & _ & Hi & Hbi & _).
    destruct (Hidx c Hc) as (j & _ & Hj & Hcj & _).
    rewrite Hbi, Hcj in Heq. assert (i = j) as -> by (injection Heq; lia).
    congruence. }
  assert (Hpin : forall o, parent_in bones (objs w' o) = parent_in bones (objs w1 o)).
  { intros o. apply parent_in_ext, Hf. }
  assert (Hmain : forall b, b ∈ bones ->
     exists hd eb,
       bone (objs w' b) = Some (EditBoneRef hd) /\ get_bone hd w' = Ok eb /\
       match parent_in bones (objs w' b) with
       | Some p =>
           exists hp, bone (objs w' p) = Some (EditBoneRef hp) /\
                      eb_parent eb = Some hp /\ b ∉ roots
       | None => eb_parent eb = None /\ b ∈ roots
       end).
  { intros b Hb. destruct (Hidx b Hb) as (i & eb & Hi & _ & Hbone & Heb & Hpar).
    pose proof (Hset b eb (proj2 (elem_of_elements _ _) Hb) Heb) as Heb'.
    rewrite (Hpin b).
    eexists (hof b), _. split; [by rewrite (proj1 (Hf b)) |].
    split; [exact Heb' |].
    destruct (parent_in bones (objs w1 b)) as [p |] eqn:Hp.
    - exists (hof p). destruct (proj1 (parent_in_Some _ _ _) Hp) as [_ Hpb].
      destruct (Hidx p Hpb) as (_ & _ & _ & _ & Hpbone & _).
      split; [by rewrite (proj1 (Hf p)) |]. split; [by destruct eb |].
      intros Hr. apply Hroots in Hr as [Hr | [_ Hr]]; [set_solver |].
      congruence.
    - split; [done |]. apply Hroots. right.
      split; [by apply elem_of_elements | done]. }
  split; [exact Hmain |]. split; [| split].
  - intros b hd eb hp Hb Hbone Heb Hpar.
    destruct (Hmain b Hb) as (hd' & eb' & Hbone' & Heb' & Hcase).
    rewrite Hbone in Hbone'. injection Hbone' as <-.
    rewrite Heb in Heb'. injection Heb' as <-.
    destruct (parent_in bones (objs w' b)) as [p |] eqn:Hp.
    + destruct Hcase as (hp' & Hpb & Hpar' & _).
      rewrite Hpar in Hpar'. injection Hpar' as <-.
      apply parent_in_Some in Hp as [Hp Hin]. eauto.
    + destruct Hcase as [Hnone _]. congruence.
  - intros x Hx. apply Hroots in Hx as [Hx | [Hx _]]; [set_solver |].
    by apply elem_of_elements in Hx.
  - intros o. rewrite (proj1 (proj2 (Hf o))). apply Hlinks.
Qed.

End BuilderFacts.

Lemma skeleton_links_witness :
  (forall b, b ∈ chain_run.1 ->
     exists hd eb,
       bone (objs chain_skeleton.1 b) = Some (EditBoneRef hd) /\
       get_bone hd chain_skeleton.1 = Ok eb /\
       match parent_in chain_run.1 (objs chain_skeleton.1 b) with
       | Some p =>
           exists hp, bone (objs chain_skeleton.1 p) = Some (EditBoneRef hp) /\
                      eb_parent eb = Some hp /\ b ∉ chain_skeleton.2
       | None => eb_parent eb = None /\ b ∈ chain_skeleton.2
       end) /\
  (forall b hd eb hp,
     b ∈ chain_run.1 ->
     bone (objs chain_skeleton.1 b) = Some (EditBoneRef hd) ->
     get_bone hd chain_skeleton.1 = Ok eb -> eb_parent eb = Some hp ->
     exists p, p ∈ chain_run.1 /\
               parent (objs chain_skeleton.1 b) = Some p /\
               bone (objs chain_skeleton.1 p) = Some (EditBoneRef hp)) /\
  chain_skeleton.2 ⊆ chain_run.1 /\
  (forall o, parent (objs chain_skeleton.1 o)
             = parent (objs (start_world 3 chain_run.2) o)).
Proof.
  apply (@skeleton_links_mirror_source translation_host 3 {[0]} chain_run.1
           (start_world 3 chain_run.2) chain_skeleton.1 chain_skeleton.2).
  vm_compute. reflexivity.
Defined.

(** ** C4: the chain A, B, C with a skin on A and C - the skeleton *)

(** C4, as the code has it. With A for sibling boundary, [find_bones]
    returns the set of A, B and C (B comes in as the parent of C), and
    the skeleton built from it has A for its only root, B parented to A
    and C parented to B.  With an empty sibling set the call does not
    return. *)
Theorem chain_scenario_with_boundary `{Host} :
  (forall fuel res, find_bones fuel chain_mu 3 ∅ chain_AC <> Ok res) /\
  exists h',
    find_bones 4 chain_mu 3 {[0]} chain_AC = Ok ({[0; 1; 2]}, h') /\
    exists w roots hA hB hC ebA ebB ebC,
      build_skeleton 3 {[0]} {[0; 1; 2]} (start_world 3 h') = Ok (w, roots) /\
      roots = {[0]} /\
      bone (objs w 0) = Some (EditBoneRef hA) /\ get_bone hA w = Ok ebA /\
      bone (objs w 1) = Some (EditBoneRef hB) /\ get_bone hB w = Ok ebB /\
      bone (objs w 2) = Some (EditBoneRef hC) /\ get_bone hC w = Ok ebC /\
      eb_parent ebA = None /\
      eb_parent ebB = Some hA /\
      eb_parent ebC = Some hB.
Proof.
  split.
  - intros fuel res E.
    destruct (chain_AC_no_boundary fuel) as [E' | E']; rewrite E' in E;
      discriminate.
  - exists chain_run.2. split; [vm_compute; reflexivity |].
    do 8 eexists.
    split; [vm_compute; reflexivity |].
    split; [vm_compute; reflexivity |].
    repeat (split; [vm_compute; reflexivity |]).
    vm_compute; reflexivity.
Qed.

(** ** The pose propagator *)

Lemma evolves_refl w : evolves w w.
Proof. repeat split; auto. Qed.

Lemma evolves_trans w1 w2 w3 : evolves w1 w2 -> evolves w2 w3 -> evolves w1 w3.
Proof.
  intros (Hf & Hb & He) (Hf' & Hb' & He'). split; [| split].
  - intros o. destruct (Hf' o) as (-> & -> & -> & ->). apply Hf.
  - intros o. destruct (Hb' o) as [-> | (hd & nm & H2 & H3)]; [apply Hb |].
    destruct (Hb o) as [<- | (hd' & nm' & _ & H2')]; [right; eauto |].
    congruence.
  - intros hd Hlive.
    assert (H12 : forall o, bone (objs w1 o) = Some (EditBoneRef hd) ->
                            bone (objs w2 o) = Some (EditBoneRef hd)).
    { intros o Ho. destruct (Hb o) as [-> | (hd' & nm & _ & H2)]; [done |].
      specialize (Hlive o Ho).
      destruct (Hb' o) as [E | (hd'' & nm' & H2' & _)]; congruence. }
    rewrite He', He; [done | done |].
    intros o Ho. apply Hlive.
    destruct (Hb o) as [<- | (hd' & nm & _ & H2)]; [done | congruence].
Qed.

Lemma evolves_distinct w w' :
  evolves w w' -> handles_distinct w -> handles_distinct w'.
Proof.
  intros (_ & Hb & _) Hd o1 o2 hd H1 H2. apply (Hd o1 o2 hd).
  - destruct (Hb o1) as [<- | (? & ? & _ & ?)]; [done | congruence].
  - destruct (Hb o2) as [<- | (? & ? & _ & ?)]; [done | congruence].
Qed.

(** A handle that no object holds stays so, and its bone stays as it is. *)
Lemma evolves_released w w' hd :
  evolves w w' ->
  (forall o, bone (objs w o) <> Some (EditBoneRef hd)) ->
  (forall o, bone (objs w' o) <> Some (EditBoneRef hd)) /\
  get_bone hd w' = get_bone hd w.
Proof.
  intros (_ & Hb & He) Hdead. split.
  - intros o Ho. apply (Hdead o).
    destruct (Hb o) as [<- | (? & ? & _ & ?)]; [done | congruence].
  - apply He. intros o Ho. by destruct (Hdead o).
Qed.

(** A handle that is still held reads the same bone. *)
Lemma evolves_held w w' o hd :
  evolves w w' -> handles_distinct w ->
  bone (objs w o) = Some (EditBoneRef hd) ->
  bone (objs w' o) = Some (EditBoneRef hd) ->
  get_bone hd w' = get_bone hd w.
Proof.
  intros (_ & _ & He) Hd Ho Ho'. apply He. intros x Hx.
  by rewrite (Hd x o hd Hx Ho).
Qed.

Lemma evolves_handle w w' o hd :
  evolves w w' -> bone (objs w' o) = Some (EditBoneRef hd) ->
  bone (objs w o) = Some (EditBoneRef hd).
Proof.
  intros (_ & Hb & _) Ho.
  destruct (Hb o) as [<- | (? & ? & _ & ?)]; [done | congruence].
Qed.

Lemma visited_ext w w' armobj start pos0 rot0 o pos rot :
  (forall x, position (objs w' x) = position (objs w x) /\
             rotation (objs w' x) = rotation (objs w x) /\
             children (objs w' x) = children (objs w x) /\
             armature (objs w' x) = armature (objs w x)) ->
  visited w armobj start pos0 rot0 o pos rot ->
  visited w' armobj start pos0 rot0 o pos rot.
Proof.
  intros Hf. induction 1 as [| obj pos rot p q child _ IH Hp Hq Hc Ha];
    [constructor |].
  destruct (Hf obj) as (Hp' & Hq' & Hc' & _).
  eapply visited_child; [exact IH | congruence | congruence | congruence |].
  unfold in_armature in *. by rewrite (proj2 (proj2 (proj2 (Hf child)))).
Qed.

(** The calls that follow from a call are the call itself and those that
    follow from its calls on the children. *)
Lemma visited_inv w armobj start pos0 rot0 o pos rot :
  visited w armobj start pos0 rot0 o pos rot ->
  (o = start /\ pos = pos0 /\ rot = rot0) \/
  exists c p q,
    position (objs w start) = Some p /\ rotation (objs w start) = Some q /\
    c ∈ children (objs w start) /\ in_armature armobj (objs w c) = true /\
    visited w armobj c (vadd (quat_rotate rot0 p) pos0) (quat_mul rot0 q)
      o pos rot.
Proof.
  induction 1 as [| obj pos rot p q child _ IH Hp Hq Hc Ha]; [by left |].
  right. destruct IH as [(-> & -> & ->) | (c & p' & q' & Hp' & Hq' & Hc' & Ha' & Hv)].
  - exists child, p, q. repeat split; try done. constructor.
  - exists c, p', q'. repeat split; try done.
    eapply visited_child; eassumption.
Qed.


Lemma getattr_Ok {V} attr (field : option V) v :
  getattr attr field = Ok v -> field = Some v.
Proof. destruct field; simpl; congruence. Qed.

Lemma as_edit_bone_Ok attr b hd :
  as_edit_bone attr b = Ok hd -> b = EditBoneRef hd.
Proof. destruct b; simpl; congruence. Qed.

Lemma objs_set_bone o v w x :
  position (objs (update o (set_bone v) w) x) = position (objs w x) /\
  rotation (objs (update o (set_bone v) w) x) = rotation (objs w x) /\
  children (objs (update o (set_bone v) w) x) = children (objs w x) /\
  armature (objs (update o (set_bone v) w) x) = armature (objs w x) /\
  bone (objs (update o (set_bone v) w) x)
  = if decide (o = x) then Some v else bone (objs w x).
Proof.
  rewrite objs_update. destruct (decide (o = x)) as [<- | Hne].
  - rewrite fn_lookup_alter. by destruct (objs w o).
  - by rewrite fn_lookup_alter_ne.
Qed.

(** The three writes of [process_bone] on its own bone. *)
Lemma own_bone_written hd fh ft fr w w1 w2 w3 eb1 :
  alter_bone hd fh w = Ok w1 ->
  get_bone hd w1 = Ok eb1 ->
  alter_bone hd ft w1 = Ok w2 ->
  alter_bone hd fr w2 = Ok w3 ->
  objs w1 = objs w /\ objs w3 = objs w /\
  (exists eb0, get_bone hd w = Ok eb0 /\ eb1 = fh eb0) /\
  get_bone hd w3 = Ok (fr (ft eb1)) /\
  (forall hd', hd' <> hd -> get_bone hd' w3 = get_bone hd' w).
Proof.
  intros H1 Heb1 H2 H3.
  apply alter_bone_Ok in H1 as (eb0 & Heb0 & Heb0' & Ho1 & Hobjs1 & _).
  apply alter_bone_Ok in H2 as (eb1' & Heb1' & Heb2 & Ho2 & Hobjs2 & _).
  apply alter_bone_Ok in H3 as (eb2 & Heb2' & Heb3 & Ho3 & Hobjs3 & _).
  rewrite Heb1 in Heb0', Heb1'. injection Heb0' as ->. injection Heb1' as <-.
  rewrite Heb2 in Heb2'. injection Heb2' as <-.
  split; [done |]. split; [congruence |]. split; [eauto |]. split; [done |].
  intros hd' Hne. rewrite Ho3, Ho2, Ho1; done.
Qed.

Lemma process_bone_spec fuel : forall armobj obj pos rot w w',
  process_bone fuel armobj obj pos rot w = Ok w' ->
  handles_distinct w ->
  evolves w w' /\
  forall o p r, visited w armobj obj pos rot o p r -> settled w w' o p r.
Proof.
  induction fuel as [| fuel IH]; intros armobj obj pos rot w w' E Hd;
    [discriminate |].
  simpl in E.
  unbind E as p Hp. apply getattr_Ok in Hp.
  unbind E as b Hb. apply getattr_Ok in Hb.
  unbind E as hd Hhd. apply as_edit_bone_Ok in Hhd. subst b.
  unbind E as w1 Hw1.
  unbind E as q Hq. apply getattr_Ok in Hq.
  unbind E as eb1 Heb1.
  unbind E as w2 Hw2.
  unbind E as w3 Hw3.
  unbind E as w4 Hloop.
  unbind E as b' Hb'. apply getattr_Ok in Hb'.
  unbind E as hd' Hhd'. apply as_edit_bone_Ok in Hhd'. subst b'.
  unbind E as eb' Heb'. injection E as <-.
  destruct (own_bone_written _ _ _ _ _ _ _ _ _ Hw1 Heb1 Hw2 Hw3)
    as (Hobjs1 & Hobjs3 & (eb0 & Heb0 & ->) & Heb3 & Hothers).
  rewrite Hobjs1 in Hq. rewrite Hobjs3 in Hloop.
  assert (Hd3 : handles_distinct w3).
  { unfold handles_distinct. rewrite Hobjs3. exact Hd. }
  set (head := vadd (quat_rotate rot p) pos) in *.
  set (lrot := quat_mul rot q) in *.
  (* the loop over the children *)
  set (body := fun child w0 =>
         if in_armature armobj (objs w0 child)
         then bind (getattr "bone" (bone (objs w0 obj))) (fun b =>
              bind (as_edit_bone "head" b) (fun hd =>
              bind (get_bone hd w0) (fun eb =>
              process_bone fuel armobj child (eb_head eb) lrot w0)))
         else Ok w0) in *.
  assert (Hbody : forall x s s', body x s = Ok s' ->
                    handles_distinct s -> evolves s s').
  { intros x s s' Ex Hs. unfold body in Ex.
    destruct (in_armature armobj (objs s x)); [| injection Ex as <-; apply evolves_refl].
    unbind Ex as bx Hbx. unbind Ex as hx Hhx. unbind Ex as ex Hex.
    by apply IH in Ex as [? _]. }
  assert (Hloops : forall l s s', for_each body l s = Ok s' ->
                     handles_distinct s -> evolves s s').
  { intros l. apply (for_each_preserves body
                       (fun s s' => handles_distinct s -> evolves s s')).
    - intros s _. apply evolves_refl.
    - intros s1 s2 s3 H12 H23 H1. eapply evolves_trans; [by apply H12 |].
      apply H23. eapply evolves_distinct; [by apply H12 | done].
    - intros x s s' _. apply Hbody. }
  pose proof (Hloops _ _ _ Hloop Hd3) as Hev34.
  (* the bone of [obj] is still held at the end, and as it was written *)
  assert (Hhd' : hd' = hd).
  { apply (evolves_handle _ _ _ _ Hev34) in Hb'. rewrite Hobjs3 in Hb'.
    congruence. }
  subst hd'.
  assert (Hheld3 : bone (objs w3 obj) = Some (EditBoneRef hd)) by (by rewrite Hobjs3).
  assert (Heb4 : get_bone hd w4 = Ok (align_roll (quat_rotate lrot (mkVector 0 0 1))
                   (set_tail (vadd (eb_head (set_head head eb0))
                                (quat_rotate lrot (mkVector 0 BONE_LENGTH 0)))
                      (set_head head eb0)))).
  { rewrite (evolves_held _ _ _ _ Hev34 Hd3 Hheld3 Hb'). exact Heb3. }
  set (w' := update obj (set_bone (BoneName (eb_name eb'))) w4).
  assert (Hw'bone : forall x, bone (objs w' x)
                    = if decide (obj = x) then Some (BoneName (eb_name eb'))
                      else bone (objs w4 x)).
  { intros x. apply objs_set_bone. }
  assert (Hev : evolves w w').
  { destruct Hev34 as (Hf & Hbn & He). split; [| split].
    - intros x. unfold w'.
      destruct (objs_set_bone obj (BoneName (eb_name eb')) w4 x)
        as (-> & -> & -> & -> & _).
      rewrite <- Hobjs3. apply Hf.
    - intros x. rewrite Hw'bone. destruct (decide (obj = x)) as [<- | Hne].
      + right. eauto.
      + rewrite <- Hobjs3. apply Hbn.
    - intros hd0 Hlive. unfold w'. rewrite get_bone_update.
      destruct (decide (hd0 = hd)) as [-> | Hne].
      + specialize (Hlive obj Hb). rewrite Hw'bone in Hlive.
        rewrite decide_True in Hlive by done. discriminate.
      + rewrite <- Hothers by done. apply He. intros x Hx.
        rewrite Hobjs3 in Hx. specialize (Hlive x Hx).
        rewrite Hw'bone in Hlive.
        destruct (decide (obj = x)) as [<- | _]; [congruence | done]. }
  split; [exact Hev |].
  intros o po ro Hv. apply visited_inv in Hv
    as [(-> & -> & ->) | (c & p' & q' & Hp' & Hq' & Hc & Hin & Hv)].
  - (* the bone of the call itself *)
    exists hd, (align_roll (quat_rotate lrot (mkVector 0 0 1))
                  (set_tail (vadd (eb_head (set_head head eb0))
                               (quat_rotate lrot (mkVector 0 BONE_LENGTH 0)))
                     (set_head head eb0))), p, q.
    split; [done |]. split; [done |]. split; [done |]. split; [| split].
    + intros x Hx. rewrite Hw'bone in Hx.
      destruct (decide (obj = x)) as [<- | Hne]; [discriminate |].
      apply (evolves_handle _ _ _ _ Hev34) in Hx. rewrite Hobjs3 in Hx.
      by apply Hne, (Hd obj x hd).
    + unfold w'. by rewrite get_bone_update.
    + unfold propagated. by destruct eb0.
  - (* a bone below one of the children *)
    rewrite Hp in Hp'. injection Hp' as <-.
    rewrite Hq in Hq'. injection Hq' as <-.
    fold head lrot in Hv.
    destruct (for_each_elem body _ c _ _ Hloop Hc)
      as (l1 & l2 & s1 & s2 & _ & Hl1 & Hc1 & Hl2).
    pose proof (Hloops _ _ _ Hl1 Hd3) as Hev31.
    pose proof (evolves_distinct _ _ Hev31 Hd3) as Hd1.
    pose proof (Hbody _ _ _ Hc1 Hd1) as Hev12.
    pose proof (evolves_distinct _ _ Hev12 Hd1) as Hd2.
    pose proof (Hloops _ _ _ Hl2 Hd2) as Hev24.
    assert (Hf1 : forall x,
              position (objs s1 x) = position (objs w x) /\
              rotation (objs s1 x) = rotation (objs w x) /\
              children (objs s1 x) = children (objs w x) /\
              armature (objs s1 x) = armature (objs w x)).
    { intros x. rewrite <- Hobjs3. apply Hev31. }
    unfold body in Hc1.
    assert (Hin1 : in_armature armobj (objs s1 c) = true).
    { unfold in_armature in *. by rewrite (proj2 (proj2 (proj2 (Hf1 c)))). }
    rewrite Hin1 in Hc1.
    unbind Hc1 as bc Hbc. apply getattr_Ok in Hbc.
    unbind Hc1 as hc Hhc. apply as_edit_bone_Ok in Hhc. subst bc.
    unbind Hc1 as ec Hec.
    assert (hc = hd) as ->.
    { apply (evolves_handle _ _ _ _ Hev31) in Hbc. congruence. }
    rewrite (evolves_held _ _ _ _ Hev31 Hd3 Hheld3 Hbc), Heb3 in Hec.
    injection Hec as <-.
    replace (eb_head _) with head in Hc1 by (by destruct eb0).
    destruct (IH _ _ _ _ _ _ Hc1 Hd1) as [_ Hsettled].
    destruct (Hsettled o po ro) as (ho & eo & p0 & q0 & Hbo & Hpo & Hqo & Hdead & Heo & Hgeo).
    { eapply visited_ext; [| exact Hv]. exact Hf1. }
    destruct (evolves_released _ _ ho Hev24 Hdead) as [Hdead4 Heo4].
    exists ho, eo, p0, q0.
    split; [| split; [| split; [| split; [| split]]]].
    + apply (evolves_handle _ _ _ _ Hev31) in Hbo. by rewrite Hobjs3 in Hbo.
    + by rewrite <- (proj1 (Hf1 o)).
    + by rewrite <- (proj1 (proj2 (Hf1 o))).
    + intros x Hx. rewrite Hw'bone in Hx.
      destruct (decide (obj = x)); [discriminate | by apply (Hdead4 x)].
    + unfold w'. rewrite get_bone_update. congruence.
    + exact Hgeo.
Qed.

Lemma process_armature_settles fuel armobj (roots : gset objid) w w' :
  process_armature fuel armobj roots w = Ok w' ->
  handles_distinct w ->
  forall root o pos rot,
    root ∈ roots ->
    visited w armobj root (mkVector 0 0 0) (mkQuaternion 1 0 0 0) o pos rot ->
    settled w w' o pos rot.
Proof.
  unfold process_armature. intros E Hd root o pos rot Hroot Hv.
  set (body := fun rootBone w0 =>
         process_bone fuel armobj rootBone (mkVector 0 0 0)
           (mkQuaternion 1 0 0 0) w0) in *.
  assert (Hloops : forall l s s', for_each body l s = Ok s' ->
                     handles_distinct s -> evolves s s').
  { intros l. apply (for_each_preserves body
                       (fun s s' => handles_distinct s -> evolves s s')).
    - intros s _. apply evolves_refl.
    - intros s1 s2 s3 H12 H23 H1. eapply evolves_trans; [by apply H12 |].
      apply H23. eapply evolves_distinct; [by apply H12 | done].
    - intros x s s' _ Ex Hs. by apply process_bone_spec in Ex as [? _]. }
  apply elem_of_elements in Hroot.
  destruct (for_each_elem body _ root _ _ E Hroot)
    as (l1 & l2 & s1 & s2 & _ & Hl1 & Hc & Hl2).
  pose proof (Hloops _ _ _ Hl1 Hd) as Hev1.
  pose proof (evolves_distinct _ _ Hev1 Hd) as Hd1.
  destruct (process_bone_spec _ _ _ _ _ _ _ Hc Hd1) as [Hev12 Hsettled].
  pose proof (evolves_distinct _ _ Hev12 Hd1) as Hd2.
  pose proof (Hloops _ _ _ Hl2 Hd2) as Hev2.
  destruct (Hsettled o pos rot)
    as (ho & eo & p0 & q0 & Hbo & Hpo & Hqo & Hdead & Heo & Hgeo).
  { eapply visited_ext; [| exact Hv]. apply Hev1. }
  destruct (evolves_released _ _ ho Hev2 Hdead) as [Hdead' Heo'].
  pose proof Hev1 as (Hf1 & _ & _).
  exists ho, eo, p0, q0. split; [| split; [| split; [| split; [| split]]]].
  - eapply evolves_handle; [exact Hev1 | exact Hbo].
  - by rewrite <- (proj1 (Hf1 o)).
  - by rewrite <- (proj1 (proj2 (Hf1 o))).
  - exact Hdead'.
  - congruence.
  - exact Hgeo.
Qed.

(** C6, as the code has it. Every bone that the pose propagator visits
    gets: for head, the rotation handed down applied to the bone's
    position, plus the position handed down; for tail, the head plus the
    accumulated rotation applied to [(0, BONE_LENGTH, 0)]; for roll, the
    alignment to the accumulated rotation applied to [(0, 0, 1)].  The
    segment from head to tail is [BONE_LENGTH] times the accumulated
    rotation applied to the bone axis; its length is [BONE_LENGTH] times
    the squared norm of the accumulated rotation, which is [BONE_LENGTH]
    when that rotation is a unit quaternion.  In the scenario of A at
    [(1, 0, 0)] and its child B at [(0, 1, 0)], both with the identity
    rotation, the head of B is [(1, 1, 0)]. *)
Theorem propagated_bone_geometry :
  (forall fuel armobj (roots : gset objid) w w' root o pos rot,
     process_armature fuel armobj roots w = Ok w' ->
     handles_distinct w ->
     root ∈ roots ->
     visited w armobj root (mkVector 0 0 0) (mkQuaternion 1 0 0 0) o pos rot ->
     exists hd eb p q,
       bone (objs w o) = Some (EditBoneRef hd) /\
       position (objs w o) = Some p /\
       rotation (objs w o) = Some q /\
       get_bone hd w' = Ok eb /\
       let lrot := quat_mul rot q in
       let segment := vsub (eb_tail eb) (eb_head eb) in
       eb_head eb = vadd (quat_rotate rot p) pos /\
       eb_tail eb
       = vadd (eb_head eb) (quat_rotate lrot (mkVector 0 BONE_LENGTH 0)) /\
       eb_roll eb = Some (quat_rotate lrot (mkVector 0 0 1)) /\
       veq segment (vscale BONE_LENGTH (quat_rotate lrot (mkVector 0 1 0))) /\
       (vdot segment segment
        == (qdot lrot lrot * BONE_LENGTH) * (qdot lrot lrot * BONE_LENGTH))%Q /\
       ((qdot lrot lrot == 1)%Q -> has_length segment BONE_LENGTH)) /\
  (process_armature 4 3 chain_skeleton.2 chain_skeleton.1 = Ok chain_posed /\
   localPosition (transform (chain_AC 0)) = mkVector 1 0 0 /\
   localPosition (transform (chain_AC 1)) = mkVector 0 1 0 /\
   parent (chain_AC 1) = Some 0 /\
   exists hd eb,
     bone (objs chain_skeleton.1 1) = Some (EditBoneRef hd) /\
     get_bone hd chain_posed = Ok eb /\
     eb_head eb = mkVector 1 1 0).
Proof.
  split.
  - intros fuel armobj roots w w' root o pos rot E Hd Hroot Hv.
    destruct (process_armature_settles _ _ _ _ _ E Hd _ _ _ _ Hroot Hv)
      as (hd & eb & p & q & Hb & Hp & Hq & _ & Heb & Hhead & Htail & Hroll).
    exists hd, eb, p, q. do 4 (split; [done |]). simpl.
    rewrite Htail.
    destruct (bone_segment (eb_head eb) (quat_mul rot q)) as [Hseg Hlen].
    do 5 (split; [done |]).
    intros Hunit. split; [by vm_compute |].
    rewrite Hlen, Hunit. ring.
  - split; [vm_compute; reflexivity |]. repeat (split; [reflexivity |]).
    do 2 eexists. split; [vm_compute; reflexivity |].
    split; vm_compute; reflexivity.
Qed.

Lemma chain_skeleton_handles_distinct : handles_distinct chain_skeleton.1.
Proof.
  intros o1 o2 hd H1 H2.
  destruct o1 as [| [| [| [| o1]]]]; destruct o2 as [| [| [| [| o2]]]];
    vm_compute in H1, H2; congruence.
Defined.

Lemma chain_B_visited :
  visited chain_skeleton.1 3 0 (mkVector 0 0 0) (mkQuaternion 1 0 0 0) 1
    (vadd (quat_rotate (mkQuaternion 1 0 0 0) chain_A_position) (mkVector 0 0 0))
    (quat_mul (mkQuaternion 1 0 0 0) chain_A_rotation).
Proof.
  apply (visited_child chain_skeleton.1 3 0 (mkVector 0 0 0)
           (mkQuaternion 1 0 0 0) 0 (mkVector 0 0 0) (mkQuaternion 1 0 0 0)
           chain_A_position chain_A_rotation 1).
  - constructor.
  - vm_compute. reflexivity.
  - vm_compute. reflexivity.
  - apply list_elem_of_here.
  - vm_compute. reflexivity.
Defined.

Lemma propagated_bone_witness :
  exists hd eb p q,
    bone (objs chain_skeleton.1 1) = Some (EditBoneRef hd) /\
    position (objs chain_skeleton.1 1) = Some p /\
    rotation (objs chain_skeleton.1 1) = Some q /\
    get_bone hd chain_posed = Ok eb /\
    let lrot := quat_mul (quat_mul (mkQuaternion 1 0 0 0) chain_A_rotation) q in
    let segment := vsub (eb_tail eb) (eb_head eb) in
    eb_head eb
    = vadd (quat_rotate (quat_mul (mkQuaternion 1 0 0 0) chain_A_rotation) p)
        (vadd (quat_rotate (mkQuaternion 1 0 0 0) chain_A_position)
           (mkVector 0 0 0)) /\
    eb_tail eb
    = vadd (eb_head eb) (quat_rotate lrot (mkVector 0 BONE_LENGTH 0)) /\
    eb_roll eb = Some (quat_rotate lrot (mkVector 0 0 1)) /\
    veq segment (vscale BONE_LENGTH (quat_rotate lrot (mkVector 0 1 0))) /\
    (vdot segment segment
     == (qdot lrot lrot * BONE_LENGTH) * (qdot lrot lrot * BONE_LENGTH))%Q /\
    ((qdot lrot lrot == 1)%Q -> has_length segment BONE_LENGTH).
Proof.
  apply (proj1 propagated_bone_geometry 4 3 chain_skeleton.2 chain_skeleton.1
           chain_posed 0 1).
  - vm_compute. reflexivity.
  - exact chain_skeleton_handles_distinct.
  - assert (E : chain_skeleton.2 = {[0]}) by (vm_compute; reflexivity).
    rewrite E. by apply elem_of_singleton.
  - exact chain_B_visited.
Defined.

(** With the zero quaternion for the rotation of B, the propagator
    visits B and leaves its tail on its head: the segment is not of
    length [BONE_LENGTH]. *)
Lemma zero_rotation_zero_length :
  process_armature 4 3 degenerate_skeleton.2 degenerate_skeleton.1
  = Ok degenerate_posed /\
  rotation (objs degenerate_skeleton.1 1) = Some (mkQuaternion 0 0 0 0) /\
  0 ∈ degenerate_skeleton.2 /\
  (exists pos rot,
     visited degenerate_skeleton.1 3 0 (mkVector 0 0 0) (mkQuaternion 1 0 0 0)
       1 pos rot) /\
  exists hd eb,
    bone (objs degenerate_skeleton.1 1) = Some (EditBoneRef hd) /\
    get_bone hd degenerate_posed = Ok eb /\
    eb_head eb = mkVector 1 1 0 /\
    ~ has_length (vsub (eb_tail eb) (eb_head eb)) BONE_LENGTH.
Proof.
  split; [vm_compute; reflexivity |]. split; [vm_compute; reflexivity |].
  split.
  { assert (E : degenerate_skeleton.2 = {[0]}) by (vm_compute; reflexivity).
    rewrite E. by apply elem_of_singleton. }
  split.
  { do 2 eexists.
    eapply (visited_child _ _ _ _ _ 0);
      [constructor | vm_compute; reflexivity | vm_compute; reflexivity
      | apply list_elem_of_here | vm_compute; reflexivity]. }
  do 2 eexists. split; [vm_compute; reflexivity |].
  split; [vm_compute; reflexivity |]. split; [vm_compute; reflexivity |].
  intros [_ Hlen]. vm_compute in Hlen. discriminate.
Qed.

(** ** The copy of the pose matrices *)

Lemma getitem_Ok {V} (d : gmap string V) key v :
  getitem d key = Ok v -> d !! key = Some v.
Proof. unfold getitem. destruct (d !! key); congruence. Qed.

Lemma copy_pose_matrix_Ok armobj b w w' :
  copy_pose_matrix armobj b w = Ok w' ->
  bindPose_obj (objs w armobj) = Some BindPoseObject ->
  armature_obj (objs w armobj) = Some ArmatureObject ->
  objs w' = objs w /\
  armature_bones w' = armature_bones w /\
  bindPose_bones w' = bindPose_bones w /\
  armature_pose w' = armature_pose w /\
  match bindPose (objs w b) with
  | None => bindPose_pose w' = bindPose_pose w
  | Some _ =>
      exists nm m,
        poseBone (objs w b) = Some nm /\
        armature_pose w !! nm = Some m /\
        bindPose_pose w' = <[nm := m]> (bindPose_pose w)
  end.
Proof.
  unfold copy_pose_matrix. intros E Hbo Hao.
  destruct (bindPose (objs w b)) as [bp |]; [| by injection E as <-].
  rewrite Hbo, Hao in E. simpl in E.
  unbind E as nm Hnm. apply getattr_Ok in Hnm.
  unbind E as pb Hpb. unbind E as rb Hrb. apply getitem_Ok in Hrb.
  injection E as <-. destruct w as [h ab bb ap bpz]. simpl in *.
  repeat (split; [done |]). eauto.
Qed.

Lemma copy_pose_matrices armobj l : forall w w',
  for_each (copy_pose_matrix armobj) l w = Ok w' ->
  bindPose_obj (objs w armobj) = Some BindPoseObject ->
  armature_obj (objs w armobj) = Some ArmatureObject ->
  (objs w' = objs w /\
   armature_bones w' = armature_bones w /\
   bindPose_bones w' = bindPose_bones w /\
   armature_pose w' = armature_pose w) /\
  forall nm,
    (bindPose_pose w' !! nm = bindPose_pose w !! nm \/
     bindPose_pose w' !! nm = armature_pose w !! nm) /\
    (forall b, b ∈ l -> is_Some (bindPose (objs w b)) ->
       poseBone (objs w b) = Some nm ->
       is_Some (armature_pose w !! nm) /\
       bindPose_pose w' !! nm = armature_pose w !! nm).
Proof.
  induction l as [| b l IH]; intros w w' E Hbo Hao; simpl in E.
  - injection E as <-. split; [done |]. intros nm. split; [by left |].
    intros b Hb. by apply elem_of_nil in Hb.
  - unbind E as w1 Hstep.
    apply copy_pose_matrix_Ok in Hstep as (Hobjs & Hab & Hbb & Hap & Hcase);
      [| done | done].
    destruct (IH w1 w' E) as ((Hobjs' & Hab' & Hbb' & Hap') & Hposes);
      [by rewrite Hobjs | by rewrite Hobjs |].
    split; [repeat split; congruence |].
    intros nm. destruct (Hposes nm) as [Hkeep Hcopied].
    rewrite Hap in Hkeep.
    assert (Hone : bindPose_pose w1 !! nm = bindPose_pose w !! nm \/
                   bindPose_pose w1 !! nm = armature_pose w !! nm).
    { destruct (bindPose (objs w b)); [| left; by rewrite Hcase].
      destruct Hcase as (nm' & m & _ & Hm & ->).
      destruct (decide (nm' = nm)) as [-> | Hne].
      - right. by rewrite lookup_insert_eq.
      - left. by rewrite lookup_insert_ne. }
    split.
    + destruct Hkeep as [-> | ->]; [exact Hone | by right].
    + intros c Hc Hbp Hnm. apply elem_of_cons in Hc as [-> | Hc].
      2: { rewrite <- Hap. apply (Hcopied c); by rewrite ?Hobjs. }
      destruct Hbp as [bp Hbp]. rewrite Hbp in Hcase.
      destruct Hcase as (nm' & m & Hnm' & Hm & Hins).
      rewrite Hnm in Hnm'. injection Hnm' as <-.
      split; [eauto |].
      destruct Hkeep as [-> | ->]; [| done].
      by rewrite Hins, lookup_insert_eq.
Qed.

(** ** What the edit sessions leave alone *)

Lemma kept_update b f w o :
  (forall x, kept (f x) = kept x) ->
  kept (objs (update b f w) o) = kept (objs w o).
Proof.
  intros Hf. rewrite objs_update. destruct (decide (b = o)) as [<- | Hne].
  - by rewrite fn_lookup_alter.
  - by rewrite fn_lookup_alter_ne.
Qed.

Lemma kept_fields o o' :
  kept o = kept o' ->
  bindPose o = bindPose o' /\ bindPose_obj o = bindPose_obj o' /\
  armature_obj o = armature_obj o'.
Proof. unfold kept. intros E. by injection E. Qed.

Ltac kept_updates :=
  repeat (rewrite kept_update by (intros []; reflexivity)).

Lemma alter_bone_objs hd f w w' : alter_bone hd f w = Ok w' -> objs w' = objs w.
Proof. intros E. by apply alter_bone_Ok in E as (_ & _ & _ & _ & ? & _). Qed.

Section Kept.
Context `{Host}.

Lemma annotate_bone_kept armobj sib b w w' :
  annotate_bone armobj sib b w = Ok w' ->
  forall o, kept (objs w' o) = kept (objs w o).
Proof.
  unfold annotate_bone. intros E o. unbind E as w4 Hw4.
  unbind E as arm Harm. unbind E as a Ha. unbind E as r Hr.
  destruct r as [hd w6]. injection E as <-.
  apply create_bone_Ok in Hr as (_ & _ & _ & _ & _ & _ & _ & Hobjs & _).
  rewrite kept_update by (intros []; reflexivity). rewrite Hobjs.
  kept_updates.
  destruct (decide (b ∈ sib)).
  - unbind Hw4 as x1 H1. unbind Hw4 as x2 H2. unbind Hw4 as x3 H3.
    unbind Hw4 as x4 H4. injection Hw4 as <-. by kept_updates.
  - injection Hw4 as <-. by kept_updates.
Qed.

Lemma link_bone_kept (bones : gset objid) b w R w' R' :
  link_bone bones b (w, R) = Ok (w', R') ->
  forall o, kept (objs w' o) = kept (objs w o).
Proof.
  unfold link_bone. intros E o. unbind E as r Hr. destruct r as [w1 R1].
  injection E as <- <-.
  assert (Hfold : forall cs w0,
            kept (objs (foldl (fun w c => if decide (c ∈ bones) then w
                                else update b (set_force_import true) w) w0 cs) o)
            = kept (objs w0 o)).
  { induction cs as [| c cs IH]; intros w0; simpl; [done |].
    destruct (decide (c ∈ bones)); [apply IH |]. rewrite IH. by kept_updates. }
  rewrite Hfold. kept_updates.
  destruct (parent (objs w b)) as [p |]; [| by injection Hr as <- <-].
  destruct (decide (p ∈ bones)); [| by injection Hr as <- <-].
  unbind Hr as pb Hpb. unbind Hr as bb Hbb. unbind Hr as hd Hhd.
  destruct pb as [hp | nm]; [| discriminate].
  unbind Hr as w2 Hw2. injection Hr as <- <-.
  by rewrite (alter_bone_objs _ _ _ _ Hw2).
Qed.

Lemma build_skeleton_kept armobj sib (bones : gset objid) w w' roots :
  build_skeleton armobj sib bones w = Ok (w', roots) ->
  forall o, kept (objs w' o) = kept (objs w o).
Proof.
  unfold build_skeleton. intros E. unbind E as w1 Hw1.
  assert (H1 : forall o, kept (objs w1 o) = kept (objs w o)).
  { revert Hw1. apply (for_each_preserves _
      (fun s s' => forall o, kept (objs s' o) = kept (objs s o))); [done | |].
    - intros s1 s2 s3 H12 H23 o. by rewrite H23.
    - intros x s s' _. apply annotate_bone_kept. }
  assert (H2 : forall o, kept (objs (w', roots).1 o) = kept (objs (w1, ∅ : gset nat).1 o)).
  { revert E. apply (for_each_preserves (link_bone bones)
      (fun s s' => forall o, kept (objs s'.1 o) = kept (objs s.1 o))); [done | |].
    - intros s1 s2 s3 H12 H23 o. by rewrite H23.
    - intros x [s R] [s' R'] _. apply link_bone_kept. }
  intros o. specialize (H2 o). simpl in H2. by rewrite H2, (H1 o).
Qed.

End Kept.

Lemma process_bone_kept fuel : forall armobj obj pos rot w w',
  process_bone fuel armobj obj pos rot w = Ok w' ->
  forall o, kept (objs w' o) = kept (objs w o).
Proof.
  induction fuel as [| fuel IH]; intros armobj obj pos rot w w' E o;
    [discriminate |].
  simpl in E.
  unbind E as p Hp. unbind E as b Hb. unbind E as hd Hhd. unbind E as w1 Hw1.
  unbind E as q Hq. unbind E as eb1 Heb1. unbind E as w2 Hw2.
  unbind E as w3 Hw3. unbind E as w4 Hloop.
  unbind E as b' Hb'. unbind E as hd' Hhd'. unbind E as eb' Heb'.
  injection E as <-. kept_updates.
  assert (H34 : forall o, kept (objs w4 o) = kept (objs w3 o)).
  { revert Hloop. apply (for_each_preserves _
      (fun s s' => forall o, kept (objs s' o) = kept (objs s o))); [done | |].
    - intros s1 s2 s3 H12 H23 x. by rewrite H23.
    - intros x s s' _ Ex.
      destruct (in_armature armobj (objs s x)); [| by injection Ex as <-].
      unbind Ex as bx Hbx. unbind Ex as hx Hhx. unbind Ex as ex Hex.
      intros y. eapply IH. eassumption. }
  rewrite H34, (alter_bone_objs _ _ _ _ Hw3), (alter_bone_objs _ _ _ _ Hw2).
  by rewrite (alter_bone_objs _ _ _ _ Hw1).
Qed.

Lemma process_armature_kept fuel armobj (roots : gset objid) w w' :
  process_armature fuel armobj roots w = Ok w' ->
  forall o, kept (objs w' o) = kept (objs w o).
Proof.
  unfold process_armature.
  apply (for_each_preserves _
    (fun s s' => forall o, kept (objs s' o) = kept (objs s o))); [done | |].
  - intros s1 s2 s3 H12 H23 x. by rewrite H23.
  - intros x s s' _. apply process_bone_kept.
Qed.

Lemma alter_bone_other_armature a i f w w' a' :
  alter_bone (a, i) f w = Ok w' -> a' <> a ->
  edit_bones a' w' = edit_bones a' w.
Proof.
  unfold alter_bone. intros E Hne. unbind E as eb Heb. unbind E as l Hl.
  injection E as <-. simpl. by apply edit_bones_set_edit_bones_ne.
Qed.

Lemma alter_bone_poses hd f w w' :
  alter_bone hd f w = Ok w' ->
  armature_pose w' = armature_pose w /\ bindPose_pose w' = bindPose_pose w.
Proof.
  unfold alter_bone. intros E. unbind E as eb Heb. unbind E as l Hl.
  injection E as <-. by destruct w, hd as [[] i].
Qed.

Lemma armature_bones_edit_bones w w' :
  edit_bones ArmatureData w' = edit_bones ArmatureData w ->
  armature_bones w' = armature_bones w.
Proof. simpl. congruence. Qed.

Section Reconciler.
Context `{Host}.

(** The second edit session writes on the bind-pose skeleton alone. *)
Lemma place_bind_bone_frame armobj b w w' :
  place_bind_bone armobj b w = Ok w' ->
  bindPose (objs w armobj) = Some (BindArmature BindPoseData) ->
  (forall o, kept (objs w' o) = kept (objs w o)) /\
  armature_bones w' = armature_bones w /\
  armature_pose w' = armature_pose w.
Proof.
  unfold place_bind_bone. intros E Harm.
  destruct (bindPose (objs w b)) as [bp |]; [| by injection E as <-].
  unbind E as m Hm.
  unbind E as abp Habp. apply getattr_Ok in Habp.
  rewrite Harm in Habp. injection Habp as <-.
  unbind E as a Ha. injection Ha as <-.
  unbind E as r Hr. destruct r as [pb w1].
  unbind E as w2 Hw2. unbind E as w3 Hw3. unbind E as w4 Hw4.
  unbind E as eb Heb. injection E as <-.
  apply create_bone_Ok in Hr as (l & eb0 & _ & -> & _ & _ & _ & Hobjs & Hother & Hposes).
  split; [| split].
  - intros o. kept_updates.
    rewrite (alter_bone_objs _ _ _ _ Hw4), (alter_bone_objs _ _ _ _ Hw3).
    by rewrite (alter_bone_objs _ _ _ _ Hw2), Hobjs.
  - apply armature_bones_edit_bones. rewrite edit_bones_update.
    rewrite (alter_bone_other_armature _ _ _ _ _ ArmatureData Hw4) by done.
    rewrite (alter_bone_other_armature _ _ _ _ _ ArmatureData Hw3) by done.
    rewrite (alter_bone_other_armature _ _ _ _ _ ArmatureData Hw2) by done.
    by apply Hother.
  - destruct (alter_bone_poses _ _ _ _ Hw4) as [E4 _].
    destruct (alter_bone_poses _ _ _ _ Hw3) as [E3 _].
    destruct (alter_bone_poses _ _ _ _ Hw2) as [E2 _].
    specialize (Hposes ArmatureObject). simpl in Hposes.
    transitivity (armature_pose w4); [by destruct w4 | congruence].
Qed.

Lemma place_bind_bones_frame armobj l : forall w w',
  for_each (place_bind_bone armobj) l w = Ok w' ->
  bindPose (objs w armobj) = Some (BindArmature BindPoseData) ->
  (forall o, kept (objs w' o) = kept (objs w o)) /\
  armature_bones w' = armature_bones w /\
  armature_pose w' = armature_pose w.
Proof.
  induction l as [| b l IH]; intros w w' E Harm; simpl in E.
  - by injection E as <-.
  - unbind E as w1 Hw1.
    apply place_bind_bone_frame in Hw1 as (Hk & Hb & Hp); [| done].
    destruct (IH _ _ E) as (Hk' & Hb' & Hp').
    { by destruct (kept_fields _ _ (Hk armobj)) as (-> & _ & _). }
    split; [| split]; [| congruence..].
    intros o. by rewrite Hk', Hk.
Qed.

End Reconciler.

Lemma attach_skin_frame armobj skin w w' :
  attach_skin armobj skin w = Ok w' ->
  (forall o, poseBone (objs w' o) = poseBone (objs w o)) /\
  armature_bones w' = armature_bones w /\
  armature_pose w' = armature_pose w /\
  bindPose_pose w' = bindPose_pose w.
Proof.
  unfold attach_skin. intros E.
  unbind E as a Ha. unbind E as ao Hao. unbind E as bp Hbp.
  unbind E as bo Hbo. injection E as <-. split.
  - intros o. rewrite !objs_update.
    destruct (decide (skin = o)) as [<- | Hne].
    + rewrite !fn_lookup_alter. by destruct (objs w skin).
    + by rewrite !fn_lookup_alter_ne.
  - by destruct w.
Qed.

Lemma attach_skins_frame armobj l : forall w w',
  for_each (attach_skin armobj) l w = Ok w' ->
  (forall o, poseBone (objs w' o) = poseBone (objs w o)) /\
  armature_bones w' = armature_bones w /\
  armature_pose w' = armature_pose w /\
  bindPose_pose w' = bindPose_pose w.
Proof.
  induction l as [| b l IH]; intros w w' E; simpl in E.
  - by injection E as <-.
  - unbind E as w1 Hw1. apply attach_skin_frame in Hw1 as (Hp & Hb & Ha & Hbp).
    destruct (IH _ _ E) as (Hp' & Hb' & Ha' & Hbp').
    split; [| split; [| split]]; [| congruence..].
    intros o. by rewrite Hp', Hp.
Qed.

Lemma setup_armobj_kept armobj w :
  kept (objs (setup_armobj armobj w) armobj)
  = (Some (BindArmature BindPoseData), Some BindPoseObject, Some ArmatureObject) /\
  forall o, is_Some (bindPose (objs w o)) ->
            is_Some (bindPose (objs (setup_armobj armobj w) o)).
Proof.
  unfold setup_armobj. split.
  - rewrite !objs_update, !fn_lookup_alter. by destruct (objs w armobj).
  - intros o Ho. rewrite !objs_update.
    destruct (decide (armobj = o)) as [<- | Hne].
    + rewrite !fn_lookup_alter. destruct (objs w armobj). simpl. eauto.
    + by rewrite !fn_lookup_alter_ne.
Qed.

Lemma copy_pose_matrices_bone armobj l w w' b :
  for_each (copy_pose_matrix armobj) l w = Ok w' ->
  bindPose_obj (objs w armobj) = Some BindPoseObject ->
  armature_obj (objs w armobj) = Some ArmatureObject ->
  b ∈ l -> is_Some (bindPose (objs w b)) ->
  exists nm m,
    poseBone (objs w b) = Some nm /\
    armature_pose w !! nm = Some m /\
    bindPose_pose w' !! nm = Some m.
Proof.
  intros E Hbo Hao Hb Hbp.
  destruct (for_each_elem _ _ b _ _ E Hb) as (l1 & l2 & s1 & s2 & _ & Hl1 & Hstep & _).
  destruct (copy_pose_matrices _ _ _ _ Hl1 Hbo Hao) as ((Hobjs & _) & _).
  apply copy_pose_matrix_Ok in Hstep as (_ & _ & _ & _ & Hcase);
    [| by rewrite Hobjs..].
  rewrite Hobjs in Hcase. destruct Hbp as [bp Hbp]. rewrite Hbp in Hcase.
  destruct Hcase as (nm & _ & Hnm & _).
  destruct (copy_pose_matrices _ _ _ _ E Hbo Hao) as (_ & Hposes).
  destruct (Hposes nm) as [_ Hcopied].
  destruct (Hcopied b Hb (ex_intro _ bp Hbp) Hnm) as [[m Hm] Hb'].
  exists nm, m. split; [done |]. split; [done | congruence].
Qed.

Section CopyOfThePose.
Context `{Host}.

Lemma leave_edit_mode_frame o w :
  objs (leave_edit_mode o w) = objs w /\
  armature_bones (leave_edit_mode o w) = armature_bones w /\
  bindPose_bones (leave_edit_mode o w) = bindPose_bones w.
Proof. by destruct w, o. Qed.

(** C1, as the code has it. When the build returns, the pose matrix of
    every bone with a bind matrix has been copied from the pose bone of
    the deform skeleton onto the pose bone of the same name in the
    bind-pose skeleton: the two are equal, and the deform skeleton still
    has, for every bone, the pose matrix of its own rest geometry. *)
Theorem deform_pose_copied_to_bind_pose fuel mu skins sibs h ao w bones h1 :
  create_armature fuel mu skins sibs h = Ok (ao, w) ->
  collect_bones fuel mu skins (list_to_set sibs) ∅ h = Ok (bones, h1) ->
  armature_pose w = rest_pose (armature_bones w) /\
  forall b, b ∈ bones -> is_Some (bindPose (h1 b)) ->
    exists nm m,
      poseBone (objs w b) = Some nm /\
      armature_pose w !! nm = Some m /\
      bindPose_pose w !! nm = Some m.
Proof.
  unfold create_armature. intros E Hcollect.
  unbind E as r Hr. rewrite Hcollect in Hr. injection Hr as <-.
  unbind E as armobj Harmobj. cbv zeta in E.
  set (w0 := setup_armobj armobj (mkWorld h1 [] [] ∅ ∅)) in *.
  unbind E as r1 Hbuild. destruct r1 as [w1 roots].
  unbind E as w2 Hproc.
  unbind E as w4 Hplace. unbind E as w6 Hcopy. unbind E as w7 Hattach.
  unbind E as ao' Hao. injection E as <- <-.
  destruct (setup_armobj_kept armobj (mkWorld h1 [] [] ∅ ∅)) as [K0 Hbp0].
  fold w0 in K0, Hbp0. unfold kept in K0. injection K0 as Ka Kb Kc.
  pose proof (build_skeleton_kept _ _ _ _ _ _ Hbuild) as K1.
  pose proof (process_armature_kept _ _ _ _ _ Hproc) as K2.
  destruct (leave_edit_mode_frame ArmatureObject w2) as (O3 & B3 & _).
  assert (K3 : forall o, kept (objs (leave_edit_mode ArmatureObject w2) o)
                         = kept (objs w0 o)).
  { intros o. by rewrite O3, K2, K1. }
  destruct (place_bind_bones_frame _ _ _ _ Hplace) as (K4 & B4 & P4).
  { destruct (kept_fields _ _ (K3 armobj)) as (-> & _ & _).
    exact Ka. }
  destruct (leave_edit_mode_frame BindPoseObject w4) as (O5 & B5 & _).
  assert (K5 : forall o, kept (objs (leave_edit_mode BindPoseObject w4) o)
                         = kept (objs w0 o)).
  { intros o. by rewrite O5, K4, K3. }
  assert (Hbo : bindPose_obj (objs (leave_edit_mode BindPoseObject w4) armobj)
                = Some BindPoseObject).
  { destruct (kept_fields _ _ (K5 armobj)) as (_ & -> & _).
    exact Kb. }
  assert (Harm : armature_obj (objs (leave_edit_mode BindPoseObject w4) armobj)
                 = Some ArmatureObject).
  { destruct (kept_fields _ _ (K5 armobj)) as (_ & _ & ->).
    exact Kc. }
  destruct (copy_pose_matrices _ _ _ _ Hcopy Hbo Harm)
    as ((O6 & B6 & _ & P6) & _).
  destruct (attach_skins_frame _ _ _ _ Hattach) as (N7 & B7 & P7 & Q7).
  assert (P5 : armature_pose (leave_edit_mode BindPoseObject w4)
               = armature_pose w4) by (by destruct w4).
  assert (P3 : armature_pose (leave_edit_mode ArmatureObject w2)
               = rest_pose (armature_bones w2)) by (by destruct w2).
  split.
  - rewrite P7, P6, P5, P4, P3, B7, B6, B5, B4, B3. done.
  - intros b Hb Hbp.
    destruct (copy_pose_matrices_bone _ _ _ _ b Hcopy Hbo Harm)
      as (nm & m & Hnm & Hm & Hm').
    { by apply elem_of_elements. }
    { apply Hbp0 in Hbp. by rewrite (proj1 (kept_fields _ _ (K5 b))). }
    exists nm, m. rewrite N7, O6, P7, P6, Q7. done.
Qed.

End CopyOfThePose.

Lemma deform_pose_copied_witness :
  armature_pose chain_built.2
  = @rest_pose translation_host (armature_bones chain_built.2) /\
  forall b, b ∈ chain_collected.1 -> is_Some (bindPose (chain_collected.2 b)) ->
    exists nm m,
      poseBone (objs chain_built.2 b) = Some nm /\
      armature_pose chain_built.2 !! nm = Some m /\
      bindPose_pose chain_built.2 !! nm = Some m.
Proof.
  apply (@deform_pose_copied_to_bind_pose translation_host 4 chain_mu [3] [0]
           chain_AC chain_built.1 chain_built.2 chain_collected.1
           chain_collected.2).
  - vm_compute. reflexivity.
  - vm_compute. reflexivity.
Defined.

(** In the build on the scenario the bone A has a bind matrix; the pose
    matrix that the bind-pose skeleton computes for it from its own edit
    bone is not the one the deform skeleton ends with, and it is the
    bind-pose skeleton that ends with the matrix of the deform
    skeleton. *)
Lemma bind_pose_not_copied_to_deform :
  @create_armature translation_host 4 chain_mu [3] [0] chain_AC
  = Ok chain_built /\
  0 ∈ chain_collected.1 /\
  is_Some (bindPose (chain_collected.2 0)) /\
  poseBone (objs chain_built.2 0) = Some "A" /\
  armature_pose chain_built.2 !! "A"
  <> @rest_pose translation_host (bindPose_bones chain_built.2) !! "A" /\
  bindPose_pose chain_built.2 !! "A" = armature_pose chain_built.2 !! "A".
Proof.
  split; [vm_compute; reflexivity |]. split.
  { assert (E : chain_collected.1 = {[0; 1; 2]}) by (vm_compute; reflexivity).
    rewrite E. set_solver. }
  split; [vm_compute; eauto |]. split; [vm_compute; reflexivity |].
  split; [vm_compute; discriminate | vm_compute; reflexivity].
Qed.

(** * Further properties of find_bones *)

(** ** Further properties of find_bones *)

Lemma closure_loop_nothing_to_do fuel h sib prev :
  closure_loop fuel h sib prev ∅ = Ok ∅.
Proof. destruct fuel; simpl; rewrite decide_True by set_solver; done. Qed.

(** X1. On an object for which [is_armature] is false, [find_bones]
    either raises the [AttributeError] of the missing
    [skinned_mesh_renderer] or returns the empty bone set and leaves the
    scene as it was, whatever the fuel. *)
Theorem find_bones_not_armature fuel mu skin sib h :
  is_armature (h skin) = false ->
  find_bones fuel mu skin sib h = Raise (AttributeError "skinned_mesh_renderer") \/
  find_bones fuel mu skin sib h = Ok (∅, h).
Proof.
  unfold is_armature, find_bones. intros Hno.
  destruct (skinned_mesh_renderer (h skin)) as [smr |]; simpl; [| by left].
  destruct (bones smr) as [| n l]; [| discriminate]. right. simpl.
  replace (elements (∅ : gset string)) with (@nil string) by (symmetry; apply elements_empty).
  simpl. by rewrite closure_loop_nothing_to_do.
Qed.

Lemma find_bones_not_armature_witness :
  find_bones 0 chain_mu 3 {[0]} boneless_heap
    = Raise (AttributeError "skinned_mesh_renderer") \/
  find_bones 0 chain_mu 3 {[0]} boneless_heap = Ok (∅, boneless_heap).
Proof.
  apply (find_bones_not_armature 0 chain_mu 3 {[0]} boneless_heap).
  reflexivity.
Defined.

Lemma walk_len_boundary h sib b n :
  walk_len h sib b n -> exists s, s ∈ sib /\ on_walk h sib b s.
Proof.
  induction 1 as [b Hb | b p n Hb Hp _ (s & Hs & Hw)].
  - exists b. split; [done | constructor].
  - exists s. split; [done |]. eapply on_walk_step; eassumption.
Qed.

(** X2. The bone set that [find_bones] returns holds every bone that the
    skin lists and, for each of them, the sibling boundary at which its
    walk stops; so the bone set of a skin for which [is_armature] is true
    holds a sibling boundary. *)
Theorem listed_bones_and_boundaries fuel mu skin sib h r h' smr :
  find_bones fuel mu skin sib h = Ok (r, h') ->
  skinned_mesh_renderer (h skin) = Some smr ->
  (forall b, listed mu smr b ->
     b ∈ r /\ exists s, s ∈ sib /\ s ∈ r /\ on_walk h sib b s) /\
  (is_armature (h skin) = true -> exists s, s ∈ sib /\ s ∈ r).
Proof.
  intros E Hsmr.
  destruct (find_bones_Ok _ _ _ _ _ _ _ E) as (smr' & Hsmr' & Hrec & _ & Hr).
  rewrite Hsmr in Hsmr'. injection Hsmr' as <-.
  assert (Hlisted : forall b, listed mu smr b ->
            b ∈ r /\ exists s, s ∈ sib /\ s ∈ r /\ on_walk h sib b s).
  { intros b Hb. split.
    - apply Hr. exists b. split; [done | constructor].
    - destruct (find_bones_reaches _ _ _ _ _ _ _ _ _ E Hsmr Hb) as [n Hn].
      destruct (walk_len_boundary _ _ _ _ Hn) as (s & Hs & Hw).
      exists s. split; [done |]. split; [| done]. apply Hr. eauto. }
  split; [done |].
  unfold is_armature. rewrite Hsmr. intros Harm.
  destruct (bones smr) as [| n l] eqn:Hbones; [discriminate |].
  destruct (record_bindPoses_names _ _ _ _ _ _ Hrec n) as [b Hb];
    [rewrite ?Hbones; left |].
  destruct (Hlisted b) as [_ (s & Hs & Hsr & _)].
  { exists n. split; [rewrite ?Hbones; left | done]. }
  eauto.
Qed.

Lemma listed_bones_witness :
  (forall b, listed chain_mu (mkMuSkinnedMeshRenderer ["A"; "C"]
                                (mkMuMesh [identity16; identity16])) b ->
     b ∈ chain_run.1 /\
     exists s, s ∈ ({[0]} : gset nat) /\ s ∈ chain_run.1 /\
               on_walk chain_AC {[0]} b s) /\
  (is_armature (chain_AC 3) = true ->
   exists s, s ∈ ({[0]} : gset nat) /\ s ∈ chain_run.1).
Proof.
  apply (listed_bones_and_boundaries 4 chain_mu 3 {[0]} chain_AC
           chain_run.1 chain_run.2).
  - vm_compute. reflexivity.
  - reflexivity.
Defined.

(** ** Fewer bind poses than bones *)
Lemma record_bindPoses_short mu poses names : forall i h,
  (forall n, n ∈ names -> is_Some (objects mu !! n)) ->
  i <= length poses -> length poses < i + length names ->
  record_bindPoses mu poses i names h = Raise IndexError.
Proof.
  induction names as [| n names IH]; intros i h Hall Hi Hlen; simpl in *.
  - lia.
  - destruct (Hall n) as [b Hb]; [left |].
    unfold getitem. rewrite Hb. simpl.
    destruct (poses !! i) as [bp |] eqn:Hbp; simpl; [| done].
    apply lookup_lt_Some in Hbp. apply IH.
    + intros m Hm. apply Hall. by right.
    + lia.
    + lia.
Qed.

(** X3. When the names of a skin are all in [mu.objects] and the mesh
    has fewer bind poses than the skin has bones, [find_bones] raises an
    [IndexError], which is a [LookupError]. *)
Theorem missing_bindPose_raises_IndexError fuel mu skin sib h smr :
  skinned_mesh_renderer (h skin) = Some smr ->
  (forall n, n ∈ bones smr -> is_Some (objects mu !! n)) ->
  length (bindPoses (mesh smr)) < length (bones smr) ->
  find_bones fuel mu skin sib h = Raise IndexError /\
  isinstance IndexError "LookupError" = true.
Proof.
  intros Hsmr Hall Hlen. split; [| reflexivity].
  unfold find_bones. rewrite Hsmr. simpl.
  rewrite record_bindPoses_short; [done | done | lia | simpl; lia].
Qed.

Lemma missing_bindPose_witness :
  find_bones 4 chain_mu 3 {[0]} short_heap = Raise IndexError /\
  isinstance IndexError "LookupError" = true.
Proof.
  apply (missing_bindPose_raises_IndexError 4 chain_mu 3 {[0]} short_heap
           short_smr).
  - reflexivity.
  - intros n Hn. simpl in Hn.
    apply elem_of_cons in Hn as [-> | Hn]; [by exists 0 |].
    apply elem_of_cons in Hn as [-> | Hn]; [by exists 2 |].
    by apply elem_of_nil in Hn.
  - simpl. lia.
Defined.

(** ** What find_bones writes *)
Lemma set_bindPose_twice u v o :
  set_bindPose v (set_bindPose u o) = set_bindPose v o.
Proof. by destruct o. Qed.

Lemma record_bindPoses_writes mu poses names : forall i h h',
  record_bindPoses mu poses i names h = Ok h' ->
  forall o,
    (h' o = h o /\ forall n, n ∈ names -> objects mu !! n <> Some o) \/
    (exists n bp, n ∈ names /\ objects mu !! n = Some o /\ bp ∈ poses /\
       h' o = set_bindPose (BindMatrix (convert (Matrix_of_rows bp))) (h o)).
Proof.
  induction names as [| m names IH]; intros i h h' E o; simpl in E.
  - injection E as <-. left. split; [done |].
    intros n Hn. by apply elem_of_nil in Hn.
  - unbind E as b Eb. unbind E as bp Ebp.
    unfold getitem in Eb. destruct (objects mu !! m) as [b' |] eqn:Hm; [| discriminate].
    injection Eb as ->.
    destruct (poses !! i) as [bp' |] eqn:Hbp; [| discriminate].
    injection Ebp as ->.
    destruct (IH _ _ _ E o) as [[Ho Hno] | (n & bp2 & Hn & Hno & Hbp2 & Ho)].
    + destruct (decide (b = o)) as [-> | Hne].
      * right. exists m, bp. split; [left |]. split; [done |].
        split; [by eapply list_elem_of_lookup_2 |].
        by rewrite Ho, fn_lookup_alter.
      * left. rewrite Ho, fn_lookup_alter_ne by done. split; [done |].
        intros n Hn. apply elem_of_cons in Hn as [-> | Hn]; [congruence | auto].
    + right. exists n, bp2. split; [by right |]. split; [done |]. split; [done |].
      rewrite Ho. destruct (decide (b = o)) as [-> | Hne].
      * by rewrite fn_lookup_alter, set_bindPose_twice.
      * by rewrite fn_lookup_alter_ne.
Qed.

(** X4. A call of [find_bones] that returns has written nothing but
    [bindPose] attributes: an object that the skin does not list is as it
    was, and a listed object differs from what it was by a [bindPose]
    that is the converted matrix of one of the bind poses of the mesh. *)
Theorem find_bones_writes_bindPose_only fuel mu skin sib h r h' smr :
  find_bones fuel mu skin sib h = Ok (r, h') ->
  skinned_mesh_renderer (h skin) = Some smr ->
  forall o,
    (~ listed mu smr o -> h' o = h o) /\
    (listed mu smr o ->
     exists bp, bp ∈ bindPoses (mesh smr) /\
       h' o = set_bindPose (BindMatrix (convert (Matrix_of_rows bp))) (h o)).
Proof.
  intros E Hsmr o.
  destruct (find_bones_Ok _ _ _ _ _ _ _ E) as (smr' & Hsmr' & Hrec & _ & _).
  rewrite Hsmr in Hsmr'. injection Hsmr' as <-.
  destruct (record_bindPoses_writes _ _ _ _ _ _ Hrec o)
    as [[Ho Hno] | (n & bp & Hn & Hno & Hbp & Ho)]; split.
  - done.
  - intros (n & Hn & Hb). destruct (Hno n Hn Hb).
  - intros Hnot. destruct Hnot. by exists n.
  - intros _. by exists bp.
Qed.

Lemma find_bones_writes_witness :
  (~ listed chain_mu (mkMuSkinnedMeshRenderer ["A"; "C"]
                        (mkMuMesh [identity16; identity16])) 1 ->
   chain_run.2 1 = chain_AC 1) /\
  (listed chain_mu (mkMuSkinnedMeshRenderer ["A"; "C"]
                      (mkMuMesh [identity16; identity16])) 1 ->
   exists bp, bp ∈ [identity16; identity16] /\
     chain_run.2 1
     = set_bindPose (BindMatrix (convert (Matrix_of_rows bp))) (chain_AC 1)).
Proof.
  apply (find_bones_writes_bindPose_only 4 chain_mu 3 {[0]} chain_AC
           chain_run.1 chain_run.2).
  - vm_compute. reflexivity.
  - reflexivity.
Defined.

(** X5. The bone set depends on the set of the listed names only: two
    skins that list the same names, in any order and any number of times,
    on scenes with the same parent links, get the same bone set. *)
Theorem bone_set_ignores_name_order fuel1 fuel2 mu skin1 skin2 sib h1 h2
    r1 r2 h1' h2' smr1 smr2 :
  find_bones fuel1 mu skin1 sib h1 = Ok (r1, h1') ->
  find_bones fuel2 mu skin2 sib h2 = Ok (r2, h2') ->
  skinned_mesh_renderer (h1 skin1) = Some smr1 ->
  skinned_mesh_renderer (h2 skin2) = Some smr2 ->
  (forall n, n ∈ bones smr1 <-> n ∈ bones smr2) ->
  (forall o, parent (h1 o) = parent (h2 o)) ->
  r1 = r2.
Proof.
  intros E1 E2 Hs1 Hs2 Hnames Hpar.
  destruct (find_bones_Ok _ _ _ _ _ _ _ E1) as (s1 & Hs1' & _ & _ & Hr1).
  destruct (find_bones_Ok _ _ _ _ _ _ _ E2) as (s2 & Hs2' & _ & _ & Hr2).
  rewrite Hs1 in Hs1'. injection Hs1' as <-.
  rewrite Hs2 in Hs2'. injection Hs2' as <-.
  apply set_eq. intros x. rewrite Hr1, Hr2.
  split; intros (b & (n & Hn & Hb) & Hw); exists b; split.
  - exists n. split; [by apply Hnames | done].
  - eapply on_walk_ext; [| eassumption]. done.
  - exists n. split; [by apply Hnames | done].
  - eapply on_walk_ext; [| eassumption]. done.
Qed.

Lemma bone_set_ignores_name_order_witness :
  chain_run.1 = repeated_run.1.
Proof.
  apply (bone_set_ignores_name_order 4 4 chain_mu 3 3 {[0]} chain_AC
           repeated_heap chain_run.1 repeated_run.1 chain_run.2 repeated_run.2
           (mkMuSkinnedMeshRenderer ["A"; "C"] (mkMuMesh [identity16; identity16]))
           repeated_smr).
  - vm_compute. reflexivity.
  - vm_compute. reflexivity.
  - reflexivity.
  - reflexivity.
  - intros n. simpl. rewrite !elem_of_cons. tauto.
  - intros [| [| [| o]]]; reflexivity.
Defined.

(** ** A parent chain without end *)
Lemma endless_parent h sib b :
  endless h sib b ->
  (b ∉ sib) /\ exists p, parent (h b) = Some p /\ endless h sib p.
Proof.
  intros Hend. split.
  - destruct (Hend 0) as (a & Ha & Hs). simpl in Ha. by injection Ha as <-.
  - destruct (Hend 1) as (a & Ha & _). simpl in Ha.
    destruct (parent (h b)) as [p |] eqn:Hp; [| discriminate].
    exists p. split; [done |]. intros k.
    specialize (Hend (S k)). simpl in Hend. by rewrite Hp in Hend.
Qed.

Lemma walk_up_endless h sib fuel : forall b acc,
  endless h sib b -> walk_up fuel h sib b acc = OutOfFuel.
Proof.
  induction fuel as [| fuel IH]; intros b acc Hend;
    destruct (endless_parent _ _ _ Hend) as (Hb & p & Hp & Hendp); simpl;
    rewrite decide_False by done; [done |].
  rewrite Hp. by apply IH.
Qed.

Lemma closure_pass_endless fuel h sib b l acc :
  endless h sib b -> closure_pass fuel h sib (b :: l) acc = OutOfFuel.
Proof. intros Hend. cbn [closure_pass]. by rewrite walk_up_endless. Qed.

Lemma endless_ext h h' sib b :
  (forall o, parent (h' o) = parent (h o)) ->
  endless h sib b -> endless h' sib b.
Proof.
  intros Hpar Hend k. destruct (Hend k) as (a & Ha & Hs). exists a. split; [| done].
  clear Hend Hs. revert b Ha. induction k as [| k IH]; intros b Ha; simpl in *; [done |].
  rewrite Hpar. destruct (parent (h b)); [auto | done].
Qed.

(** X6. When the parent links above every listed bone go on for ever
    without meeting a sibling boundary (a cycle of parents), [find_bones]
    runs out of any amount of fuel: the call does not terminate. *)
Theorem endless_walk_never_returns mu skin sib h smr :
  skinned_mesh_renderer (h skin) = Some smr ->
  (forall n, n ∈ bones smr -> is_Some (objects mu !! n)) ->
  length (bones smr) <= length (bindPoses (mesh smr)) ->
  is_armature (h skin) = true ->
  (forall b, listed mu smr b -> endless h sib b) ->
  forall fuel, find_bones fuel mu skin sib h = OutOfFuel.
Proof.
  intros Hsmr Hnames Hposes Harm Hend fuel.
  unfold find_bones. rewrite Hsmr. simpl.
  destruct (record_bindPoses_returns mu (bindPoses (mesh smr)) (bones smr) 0 h)
    as [h1 Hrec]; [done | simpl; lia |].
  rewrite Hrec. simpl.
  pose proof (record_bindPoses_frame _ _ _ _ _ _ Hrec) as Hframe.
  destruct (named_bones_returns mu
              (elements (list_to_set (bones smr) : gset string)) ∅)
    as [start Hstart].
  { intros n Hn. apply elem_of_elements, elem_of_list_to_set in Hn. auto. }
  rewrite Hstart. simpl.
  assert (Hall : forall b, b ∈ start -> endless h1 sib b).
  { intros b Hb. apply (named_bones_listed _ _ _ Hstart) in Hb.
    eapply endless_ext; [| by apply Hend]. intros o. apply Hframe. }
  assert (Hne : exists b, b ∈ start).
  { assert (Hn : exists n, n ∈ bones smr).
    { clear -Harm Hsmr. unfold is_armature in Harm. rewrite Hsmr in Harm.
      destruct (bones smr) as [| n l]; [discriminate |]. exists n. left. }
    destruct Hn as [n Hn]. destruct (Hnames n Hn) as [b Hb].
    exists b. apply (named_bones_listed _ _ _ Hstart). by exists n. }
  destruct Hne as [b Hb].
  assert (Hdiff : start ∖ ∅ <> (∅ : gset nat)) by set_solver.
  destruct fuel as [| fuel]; simpl; rewrite decide_False by done; [done |].
  destruct (elements start) as [| c l] eqn:Hel.
  { apply elements_empty_inv in Hel. set_solver. }
  rewrite closure_pass_endless; [done |].
  apply Hall. apply elem_of_elements. rewrite Hel. left.
Qed.

Lemma cyclic_heap_endless : endless cyclic_heap ∅ 0.
Proof.
  intros k. exists 0. split; [| apply not_elem_of_empty].
  induction k as [| k IH]; [reflexivity | exact IH].
Defined.

Lemma endless_walk_witness :
  find_bones 1000 chain_mu 3 ∅ cyclic_heap = OutOfFuel.
Proof.
  apply (endless_walk_never_returns chain_mu 3 ∅ cyclic_heap
           (mkMuSkinnedMeshRenderer ["A"] (mkMuMesh [identity16]))).
  - reflexivity.
  - intros n Hn. simpl in Hn.
    apply elem_of_cons in Hn as [-> | Hn]; [by exists 0 |].
    by apply elem_of_nil in Hn.
  - simpl. lia.
  - reflexivity.
  - intros b (n & Hn & Hb). simpl in Hn.
    apply elem_of_cons in Hn as [-> | Hn]; [| by apply elem_of_nil in Hn].
    injection Hb as <-. apply cyclic_heap_endless.
Defined.

(** ** The bones of several skins *)
Lemma collect_bones_Ok fuel mu sib skins : forall acc h r h',
  collect_bones fuel mu skins sib acc h = Ok (r, h') ->
  forall x, x ∈ r <->
    x ∈ acc \/
    exists skin smr b,
      skin ∈ skins /\ skinned_mesh_renderer (h skin) = Some smr /\
      listed mu smr b /\ on_walk h sib b x.
Proof.
  induction skins as [| s skins IH]; intros acc h r h' E x; simpl in E.
  - injection E as <- <-. split; [auto |].
    intros [Hx | (skin & smr & b & Hin & Hrest)]; [done |].
    by apply elem_of_nil in Hin.
  - bind_inv E. destruct a as [found h1].
    destruct (find_bones_Ok _ _ _ _ _ _ _ E0) as (smr & Hsmr & _ & Hframe & Hfound).
    rewrite (IH _ _ _ _ E x). rewrite elem_of_union, Hfound. split.
    + intros [[Hx | (b & Hb & Hw)] | (skin & smr' & b & Hin & Hsmr' & Hb & Hw)].
      * by left.
      * right. exists s, smr, b. split; [left | done].
      * right. exists skin, smr', b. split; [by right |].
        split; [by rewrite <- (proj2 (Hframe skin)) |]. split; [done |].
        eapply on_walk_ext; [| eassumption]. intros o. symmetry. apply Hframe.
    + intros [Hx | (skin & smr' & b & Hin & Hsmr' & Hb & Hw)]; [by left; left |].
      apply elem_of_cons in Hin as [-> | Hin].
      * left. right. rewrite Hsmr in Hsmr'. injection Hsmr' as <-. eauto.
      * right. exists skin, smr', b. split; [done |].
        split; [by rewrite (proj2 (Hframe skin)) |]. split; [done |].
        eapply on_walk_ext; [| eassumption]. intros o. apply Hframe.
Qed.

(** X7. The bones that a build collects over its skins are the bones on
    the walks from the bones that some skin lists; the bone set that
    [find_bones] returns for any one of the skins is a part of them. *)
Theorem collected_bones_are_union fuel mu skins sib h r h' :
  collect_bones fuel mu skins sib ∅ h = Ok (r, h') ->
  (forall x, x ∈ r <->
     exists skin smr b,
       skin ∈ skins /\ skinned_mesh_renderer (h skin) = Some smr /\
       listed mu smr b /\ on_walk h sib b x) /\
  (forall skin f h1 found h1',
     skin ∈ skins -> (forall o, parent (h1 o) = parent (h o)) ->
     skinned_mesh_renderer (h1 skin) = skinned_mesh_renderer (h skin) ->
     find_bones f mu skin sib h1 = Ok (found, h1') -> found ⊆ r).
Proof.
  intros E. pose proof (collect_bones_Ok _ _ _ _ _ _ _ _ E) as Hr. split.
  - intros x. rewrite Hr. split; [| auto].
    intros [Hx | Hx]; [set_solver | done].
  - intros skin f h1 found h1' Hin Hpar Hsame E1 x Hx.
    destruct (find_bones_Ok _ _ _ _ _ _ _ E1) as (smr & Hsmr & _ & _ & Hfound).
    destruct (proj1 (Hfound x) Hx) as (b & Hb & Hw). apply Hr. right.
    exists skin, smr, b. split; [done |]. split; [by rewrite <- Hsame |].
    split; [done |]. eapply on_walk_ext; [| eassumption]. done.
Qed.

Lemma collected_bones_witness :
  (forall x, x ∈ chain_collected.1 <->
     exists skin smr b,
       skin ∈ [3] /\ skinned_mesh_renderer (chain_AC skin) = Some smr /\
       listed chain_mu smr b /\ on_walk chain_AC (list_to_set [0]) b x) /\
  (forall skin f h1 found h1',
     skin ∈ [3] -> (forall o, parent (h1 o) = parent (chain_AC o)) ->
     skinned_mesh_renderer (h1 skin) = skinned_mesh_renderer (chain_AC skin) ->
     find_bones f chain_mu skin (list_to_set [0]) h1 = Ok (found, h1') ->
     found ⊆ chain_collected.1).
Proof.
  apply (collected_bones_are_union 4 chain_mu [3] (list_to_set [0]) chain_AC
           chain_collected.1 chain_collected.2).
  vm_compute. reflexivity.
Defined.

(** ** The first edit session as a whole *)

Lemma setup_armobj_attrs armobj w :
  armature (objs (setup_armobj armobj w) armobj)
  = Some (ArmatureBlock ArmatureData) /\
  bindPose (objs (setup_armobj armobj w) armobj)
  = Some (BindArmature BindPoseData) /\
  position (objs (setup_armobj armobj w) armobj)
  = Some (localPosition (transform (objs w armobj))) /\
  rotation (objs (setup_armobj armobj w) armobj)
  = Some (localRotation (transform (objs w armobj))) /\
  armature_obj (objs (setup_armobj armobj w) armobj) = Some ArmatureObject /\
  bindPose_obj (objs (setup_armobj armobj w) armobj) = Some BindPoseObject /\
  (forall a, edit_bones a (setup_armobj armobj w) = edit_bones a w) /\
  (forall o, o <> armobj -> objs (setup_armobj armobj w) o = objs w o) /\
  (forall o, transform (objs (setup_armobj armobj w) o) = transform (objs w o) /\
             parent (objs (setup_armobj armobj w) o) = parent (objs w o) /\
             children (objs (setup_armobj armobj w) o) = children (objs w o)).
Proof.
  unfold setup_armobj.
  repeat split; try (intros o); rewrite ?edit_bones_update, ?objs_update; try done.
  all: try (rewrite !fn_lookup_alter; by destruct (objs w armobj)).
  - intros Ho. by rewrite !fn_lookup_alter_ne.
  - destruct (decide (armobj = o)) as [<- | Hne];
      [rewrite !fn_lookup_alter; by destruct (objs w armobj)
      | by rewrite !fn_lookup_alter_ne].
  - destruct (decide (armobj = o)) as [<- | Hne];
      [rewrite !fn_lookup_alter; by destruct (objs w armobj)
      | by rewrite !fn_lookup_alter_ne].
  - destruct (decide (armobj = o)) as [<- | Hne];
      [rewrite !fn_lookup_alter; by destruct (objs w armobj)
      | by rewrite !fn_lookup_alter_ne].
Qed.

Section FirstSession.
Context `{Host}.

(** The armature object cannot be one of its own bones: the loop makes
    it its own [armature], which has no [edit_bones]. *)
Lemma annotate_bone_armobj armobj sib w :
  annotate_bone armobj sib armobj w = Raise (AttributeError "edit_bones").
Proof.
  unfold annotate_bone.
  destruct (objs w armobj) eqn:Ho.
  destruct (decide (armobj ∈ sib));
    repeat (progress (simpl; rewrite ?objs_update, ?fn_lookup_alter, ?Ho));
    reflexivity.
Qed.

Lemma annotate_bone_returns armobj sib b w a l arot apos :
  b <> armobj ->
  armature (objs w armobj) = Some (ArmatureBlock a) ->
  edit_bones a w = Ok l ->
  rotation (objs w armobj) = Some arot ->
  position (objs w armobj) = Some apos ->
  exists w', annotate_bone armobj sib b w = Ok w'.
Proof.
  intros Hne Harm Hl Hrot Hpos. unfold annotate_bone, create_bone.
  destruct (objs w b) eqn:Ho.
  destruct (decide (b ∈ sib));
    repeat (progress (simpl; rewrite ?objs_update, ?edit_bones_update;
                      rewrite ?fn_lookup_alter, ?fn_lookup_alter_ne by done;
                      rewrite ?Ho, ?Hrot, ?Hpos, ?Harm, ?Hl));
    eauto.
Qed.

Lemma annotate_loop_returns armobj sib l : forall w a l0 arot apos,
  armobj ∉ l ->
  armature (objs w armobj) = Some (ArmatureBlock a) ->
  edit_bones a w = Ok l0 ->
  rotation (objs w armobj) = Some arot ->
  position (objs w armobj) = Some apos ->
  exists w', for_each (annotate_bone armobj sib) l w = Ok w'.
Proof.
  induction l as [| b l IH]; intros w a l0 arot apos Hno Harm Hl Hrot Hpos;
    simpl; [eauto |].
  apply not_elem_of_cons in Hno as [Hne Hno].
  destruct (annotate_bone_returns armobj sib b w a l0 arot apos) as [w1 E];
    [done.. |].
  rewrite E. simpl.
  apply annotate_bone_Ok in E
    as (a' & l0' & eb & Harm' & _ & Hl0' & Hl1 & _ & _ & Hother & _).
  rewrite Harm in Harm'. injection Harm' as <-.
  eapply IH; [done | | eassumption | |]; by rewrite Hother.
Qed.

Lemma annotate_loop_armobj armobj sib l : forall w a l0 arot apos,
  armobj ∈ l ->
  armature (objs w armobj) = Some (ArmatureBlock a) ->
  edit_bones a w = Ok l0 ->
  rotation (objs w armobj) = Some arot ->
  position (objs w armobj) = Some apos ->
  for_each (annotate_bone armobj sib) l w = Raise (AttributeError "edit_bones").
Proof.
  induction l as [| b l IH]; intros w a l0 arot apos Hin Harm Hl Hrot Hpos.
  - by apply elem_of_nil in Hin.
  - simpl. destruct (decide (b = armobj)) as [-> | Hne].
    + by rewrite annotate_bone_armobj.
    + apply elem_of_cons in Hin as [-> | Hin]; [done |].
      destruct (annotate_bone_returns armobj sib b w a l0 arot apos) as [w1 E];
        [done.. |].
      rewrite E. simpl.
      apply annotate_bone_Ok in E
        as (a' & l0' & eb & Harm' & _ & Hl0' & Hl1 & _ & _ & Hother & _).
      rewrite Harm in Harm'. injection Harm' as <-.
      eapply IH; [done | | eassumption | |]; by rewrite Hother.
Qed.

Lemma link_bone_returns (bones : gset objid) b w R :
  (forall c, c ∈ bones ->
     exists hd eb, bone (objs w c) = Some (EditBoneRef hd) /\
                   get_bone hd w = Ok eb) ->
  b ∈ bones ->
  exists res, link_bone bones b (w, R) = Ok res.
Proof.
  intros Hall Hb. unfold link_bone.
  destruct (parent (objs w b)) as [p |]; [| simpl; eauto].
  destruct (decide (p ∈ bones)) as [Hp |]; [| simpl; eauto].
  destruct (Hall p Hp) as (hp & ebp & -> & _).
  destruct (Hall b Hb) as (hd & eb & -> & Heb). simpl.
  unfold alter_bone. rewrite Heb. simpl.
  unfold get_bone in Heb. destruct (edit_bones hd.1 w); [| discriminate..].
  simpl. eauto.
Qed.

Lemma link_loop_returns (bones : gset objid) l : forall w R,
  (forall c, c ∈ bones ->
     exists hd eb, bone (objs w c) = Some (EditBoneRef hd) /\
                   get_bone hd w = Ok eb) ->
  (forall b, b ∈ l -> b ∈ bones) ->
  exists res, for_each (link_bone bones) l (w, R) = Ok res.
Proof.
  induction l as [| b l IH]; intros w R Hall Hsub; cbn [for_each]; [eauto |].
  destruct (link_bone_returns bones b w R Hall) as [[w1 R1] E];
    [apply Hsub; left |].
  rewrite E. cbn [bind]. apply IH; [| intros c Hc; apply Hsub; by right].
  apply link_bone_Ok in E as [Hf Hstep].
  intros c Hc. destruct (Hall c Hc) as (hd & eb & Hbone & Heb).
  rewrite (proj1 (Hf c)).
  destruct (parent_in bones (objs w b)) as [p |].
  - destruct Hstep as (hd0 & hp & eb0 & _ & _ & _ & Heb1 & Hothers & _).
    destruct (decide (hd = hd0)) as [-> | Hne]; [eauto |].
    exists hd, eb. by rewrite Hothers.
  - destruct Hstep as [Hg _]. exists hd, eb. by rewrite Hg.
Qed.

Lemma build_skeleton_stops armobj sib (bones : gset objid) w0 :
  armobj ∈ bones ->
  build_skeleton armobj sib bones (setup_armobj armobj w0)
  = Raise (AttributeError "edit_bones").
Proof.
  intros Hin.
  destruct (setup_armobj_attrs armobj w0)
    as (Harm & _ & Hpos & Hrot & _ & _ & Hedit & _).
  assert (Hl0 : edit_bones ArmatureData (setup_armobj armobj w0)
                = Ok (armature_bones w0)) by (by rewrite Hedit).
  unfold build_skeleton.
  rewrite (annotate_loop_armobj armobj sib (elements bones) _ _ _ _ _
             ltac:(by rewrite elem_of_elements) Harm Hl0 Hrot Hpos).
  done.
Qed.

(** X8. The first edit session of a build returns exactly when the
    armature object is not one of the bones: it returns when the object
    is outside the bone set, and otherwise raises the [AttributeError] of
    reading [edit_bones] on the armature object, which the loop has made
    its own [armature]. *)
Theorem build_skeleton_returns armobj sib (bones : gset objid) w0 :
  (armobj ∉ bones ->
   exists res, build_skeleton armobj sib bones (setup_armobj armobj w0) = Ok res) /\
  (armobj ∈ bones ->
   build_skeleton armobj sib bones (setup_armobj armobj w0)
   = Raise (AttributeError "edit_bones")).
Proof.
  destruct (setup_armobj_attrs armobj w0)
    as (Harm & _ & Hpos & Hrot & _ & _ & Hedit & _).
  assert (Hl0 : edit_bones ArmatureData (setup_armobj armobj w0)
                = Ok (armature_bones w0)) by (by rewrite Hedit).
  unfold build_skeleton. split.
  - intros Hno.
    destruct (annotate_loop_returns armobj sib (elements bones) _ _ _ _ _
                ltac:(by rewrite elem_of_elements) Harm Hl0 Hrot Hpos) as [w1 E].
    rewrite E. simpl.
    destruct (annotate_all _ _ _ _ _ _ _ E (NoDup_elements bones) Harm Hl0)
      as (_ & _ & news & Hl1 & Hlen & Hnew).
    apply link_loop_returns; [| intros b Hb; by apply elem_of_elements].
    intros c Hc. apply elem_of_elements, list_elem_of_lookup in Hc as [i Hi].
    destruct (Hnew i c Hi) as (Hbone & eb & Heb & _).
    eexists _, eb. split; [exact Hbone |].
    unfold get_bone. cbn [fst snd]. rewrite Hl1. cbn [bind].
    rewrite lookup_app_r by lia.
    replace (length (armature_bones w0) + i - length (armature_bones w0))
      with i by lia.
    by rewrite Heb.
  - apply build_skeleton_stops.
Qed.

(** X9. When the first skin is one of the bones that the build has
    collected (a bone that is a child of the skin, with the skin for
    sibling boundary), [create_armature] raises the [AttributeError] of
    [edit_bones]. *)
Theorem armature_object_among_bones fuel mu skins sib h armobj bones h1 :
  collect_bones fuel mu skins (list_to_set sib) ∅ h = Ok (bones, h1) ->
  skins !! 0%nat = Some armobj ->
  armobj ∈ bones ->
  create_armature fuel mu skins sib h = Raise (AttributeError "edit_bones").
Proof.
  intros Hcol Hfirst Hin. unfold create_armature.
  rewrite Hcol. simpl. rewrite Hfirst. simpl.
  by rewrite build_skeleton_stops.
Qed.

End FirstSession.

(** ** Attributes that the later stages leave alone *)

Lemma proj_update {A} (pi : MuObject -> A) b f w o :
  (forall x, pi (f x) = pi x) ->
  pi (objs (update b f w) o) = pi (objs w o).
Proof.
  intros Hf. rewrite objs_update. destruct (decide (b = o)) as [<- | Hne].
  - by rewrite fn_lookup_alter.
  - by rewrite fn_lookup_alter_ne.
Qed.

Lemma copy_pose_matrix_objs armobj b w w' :
  copy_pose_matrix armobj b w = Ok w' ->
  objs w' = objs w /\ armature_bones w' = armature_bones w /\
  bindPose_bones w' = bindPose_bones w.
Proof.
  unfold copy_pose_matrix. intros E.
  destruct (bindPose (objs w b)) as [bp |]; [| by injection E as <-].
  unbind E as bo Hbo. unbind E as bposes Hbposes. unbind E as nm Hnm.
  unbind E as pb Hpb. unbind E as ao Hao. unbind E as aposes Haposes.
  unbind E as rb Hrb. unbind E as bposes' Hbposes'. injection E as <-.
  by destruct w, bo.
Qed.

Lemma copy_loop_objs armobj l : forall w w',
  for_each (copy_pose_matrix armobj) l w = Ok w' ->
  objs w' = objs w /\ armature_bones w' = armature_bones w /\
  bindPose_bones w' = bindPose_bones w.
Proof.
  induction l as [| b l IH]; intros w w' E; simpl in E.
  - by injection E as <-.
  - unbind E as w1 Hw1. apply copy_pose_matrix_objs in Hw1 as (<- & <- & <-).
    by apply IH.
Qed.

Section Projections.
Context {A : Type} (pi : MuObject -> A).
Hypothesis pi_bone : forall v x, pi (set_bone v x) = pi x.
Hypothesis pi_force_import : forall v x, pi (set_force_import v x) = pi x.
Hypothesis pi_poseBone : forall v x, pi (set_poseBone v x) = pi x.

Lemma force_import_fold_proj (bones : gset objid) b cs o : forall w,
  pi (objs (foldl (fun w c => if decide (c ∈ bones) then w
                              else update b (set_force_import true) w) w cs) o)
  = pi (objs w o).
Proof.
  induction cs as [| c cs IH]; intros w; simpl; [done |].
  destruct (decide (c ∈ bones)); [apply IH |].
  rewrite IH. by apply proj_update.
Qed.

Lemma link_bone_proj (bones : gset objid) b w R w' R' :
  link_bone bones b (w, R) = Ok (w', R') ->
  forall o, pi (objs w' o) = pi (objs w o).
Proof.
  unfold link_bone. intros E o. unbind E as r Hr. destruct r as [w1 R1].
  injection E as <- <-.
  rewrite force_import_fold_proj, proj_update by done.
  destruct (parent (objs w b)) as [p |]; [| by injection Hr as <- <-].
  destruct (decide (p ∈ bones)); [| by injection Hr as <- <-].
  unbind Hr as pb Hpb. unbind Hr as bb Hbb. unbind Hr as hd Hhd.
  destruct pb as [hp | nm]; [| discriminate].
  unbind Hr as w2 Hw2. injection Hr as <- <-.
  by rewrite (alter_bone_objs _ _ _ _ Hw2).
Qed.

Lemma link_loop_proj (bones : gset objid) l s s' :
  for_each (link_bone bones) l s = Ok s' ->
  forall o, pi (objs s'.1 o) = pi (objs s.1 o).
Proof.
  apply (for_each_preserves (link_bone bones)
           (fun s s' => forall o, pi (objs s'.1 o) = pi (objs s.1 o))); [done | |].
  - intros s1 s2 s3 H12 H23 o. by rewrite H23.
  - intros x [w R] [w' R'] _. apply link_bone_proj.
Qed.

Lemma process_bone_proj fuel : forall armobj obj pos rot w w',
  process_bone fuel armobj obj pos rot w = Ok w' ->
  forall o, pi (objs w' o) = pi (objs w o).
Proof.
  induction fuel as [| fuel IH]; intros armobj obj pos rot w w' E o;
    [discriminate |].
  simpl in E.
  unbind E as p Hp. unbind E as b Hb. unbind E as hd Hhd. unbind E as w1 Hw1.
  unbind E as q Hq. unbind E as eb1 Heb1. unbind E as w2 Hw2.
  unbind E as w3 Hw3. unbind E as w4 Hloop.
  unbind E as b' Hb'. unbind E as hd' Hhd'. unbind E as eb' Heb'.
  injection E as <-. rewrite proj_update by done.
  assert (H34 : forall o, pi (objs w4 o) = pi (objs w3 o)).
  { revert Hloop. apply (for_each_preserves _
      (fun s s' => forall o, pi (objs s' o) = pi (objs s o))); [done | |].
    - intros s1 s2 s3 H12 H23 x. by rewrite H23.
    - intros x s s' _ Ex.
      destruct (in_armature armobj (objs s x)); [| by injection Ex as <-].
      unbind Ex as bx Hbx. unbind Ex as hx Hhx. unbind Ex as ex Hex.
      intros y. eapply IH. eassumption. }
  rewrite H34, (alter_bone_objs _ _ _ _ Hw3), (alter_bone_objs _ _ _ _ Hw2).
  by rewrite (alter_bone_objs _ _ _ _ Hw1).
Qed.

Lemma process_armature_proj fuel armobj (roots : gset objid) w w' :
  process_armature fuel armobj roots w = Ok w' ->
  forall o, pi (objs w' o) = pi (objs w o).
Proof.
  unfold process_armature.
  apply (for_each_preserves _
    (fun s s' => forall o, pi (objs s' o) = pi (objs s o))); [done | |].
  - intros s1 s2 s3 H12 H23 x. by rewrite H23.
  - intros x s s' _. apply process_bone_proj.
Qed.

Context `{Host}.

Lemma place_bind_bone_proj armobj b w w' :
  place_bind_bone armobj b w = Ok w' ->
  forall o, pi (objs w' o) = pi (objs w o).
Proof.
  unfold place_bind_bone. intros E o.
  destruct (bindPose (objs w b)) as [bp |]; [| by injection E as <-].
  unbind E as m Hm. unbind E as abp Habp. unbind E as a Ha.
  unbind E as r Hr. destruct r as [pb w1].
  unbind E as w2 Hw2. unbind E as w3 Hw3. unbind E as w4 Hw4.
  unbind E as eb Heb. injection E as <-.
  apply create_bone_Ok in Hr as (l & eb0 & _ & _ & _ & _ & _ & Hobjs & _).
  rewrite proj_update by done.
  rewrite (alter_bone_objs _ _ _ _ Hw4), (alter_bone_objs _ _ _ _ Hw3).
  by rewrite (alter_bone_objs _ _ _ _ Hw2), Hobjs.
Qed.

Lemma place_loop_proj armobj l w w' :
  for_each (place_bind_bone armobj) l w = Ok w' ->
  forall o, pi (objs w' o) = pi (objs w o).
Proof.
  apply (for_each_preserves _
    (fun s s' => forall o, pi (objs s' o) = pi (objs s o))); [done | |].
  - intros s1 s2 s3 H12 H23 x. by rewrite H23.
  - intros x s s' _. apply place_bind_bone_proj.
Qed.

Lemma after_annotation (bones : gset objid) l1 l2 l3 fuel armobj wa R w1 roots
    w2 w4 w6 :
  for_each (link_bone bones) l1 (wa, R) = Ok (w1, roots) ->
  process_armature fuel armobj roots w1 = Ok w2 ->
  for_each (place_bind_bone armobj) l2 (leave_edit_mode ArmatureObject w2)
  = Ok w4 ->
  for_each (copy_pose_matrix armobj) l3 (leave_edit_mode BindPoseObject w4)
  = Ok w6 ->
  forall o, pi (objs w6 o) = pi (objs wa o).
Proof.
  intros Hlink Hproc Hplace Hcopy o.
  rewrite (proj1 (copy_loop_objs _ _ _ _ Hcopy)).
  rewrite (proj1 (leave_edit_mode_frame BindPoseObject w4)).
  rewrite (place_loop_proj _ _ _ _ Hplace).
  rewrite (proj1 (leave_edit_mode_frame ArmatureObject w2)).
  rewrite (process_armature_proj _ _ _ _ _ Hproc).
  by rewrite (link_loop_proj _ _ _ _ Hlink).
Qed.

End Projections.

Lemma annotate_loop_others `{Host} armobj sib l : forall w w',
  for_each (annotate_bone armobj sib) l w = Ok w' ->
  forall o, o ∉ l -> objs w' o = objs w o.
Proof.
  induction l as [| b l IH]; intros w w' E o Ho; simpl in E.
  - by injection E as <-.
  - unbind E as w1 Hw1. apply not_elem_of_cons in Ho as [Hne Ho].
    rewrite (IH _ _ E) by done.
    apply annotate_bone_Ok in Hw1 as (_ & _ & _ & _ & _ & _ & _ & _ & _ & Hother & _).
    by apply Hother.
Qed.

Lemma annotate_loop_kept `{Host} armobj sib l w w' :
  for_each (annotate_bone armobj sib) l w = Ok w' ->
  forall o, kept (objs w' o) = kept (objs w o).
Proof.
  apply (for_each_preserves _
    (fun s s' => forall o, kept (objs s' o) = kept (objs s o))); [done | |].
  - intros s1 s2 s3 H12 H23 o. by rewrite H23.
  - intros x s s' _. apply annotate_bone_kept.
Qed.

Lemma annotate_loop_links `{Host} armobj sib l w w' :
  for_each (annotate_bone armobj sib) l w = Ok w' ->
  forall o, parent (objs w' o) = parent (objs w o) /\
            children (objs w' o) = children (objs w o).
Proof.
  apply (for_each_preserves _
    (fun s s' => forall o, parent (objs s' o) = parent (objs s o) /\
                           children (objs s' o) = children (objs s o)));
    [done | |].
  - intros s1 s2 s3 H12 H23 o. destruct (H23 o) as [-> ->]. apply H12.
  - intros x s s' _ Ex.
    by apply annotate_bone_Ok in Ex as (_ & _ & _ & _ & _ & _ & _ & _ & _ & _ & ? & _).
Qed.

(** The stages of a build that returns. *)
Lemma create_armature_stages `{Host} fuel mu skins sibs h ao w :
  create_armature fuel mu skins sibs h = Ok (ao, w) ->
  exists bones h1 armobj wa w1 roots w2 w4 w6,
    collect_bones fuel mu skins (list_to_set sibs) ∅ h = Ok (bones, h1) /\
    skins !! 0%nat = Some armobj /\ (armobj ∉ bones) /\
    for_each (annotate_bone armobj (list_to_set sibs)) (elements bones)
      (start_world armobj h1) = Ok wa /\
    for_each (link_bone bones) (elements bones) (wa, ∅) = Ok (w1, roots) /\
    process_armature fuel armobj roots w1 = Ok w2 /\
    for_each (place_bind_bone armobj) (elements bones)
      (leave_edit_mode ArmatureObject w2) = Ok w4 /\
    for_each (copy_pose_matrix armobj) (elements bones)
      (leave_edit_mode BindPoseObject w4) = Ok w6 /\
    for_each (attach_skin armobj) skins w6 = Ok w /\
    armature_obj (objs w armobj) = Some ao.
Proof.
  unfold create_armature. intros E.
  unbind E as r Hr. destruct r as [bones h1].
  unbind E as armobj Harmobj. cbv zeta in E.
  unbind E as r1 Hbuild. destruct r1 as [w1 roots].
  unbind E as w2 Hproc.
  unbind E as w4 Hplace. unbind E as w6 Hcopy. unbind E as w7 Hattach.
  unbind E as ao' Hao. injection E as <- <-.
  destruct (skins !! 0%nat) as [s |] eqn:Hs; [| discriminate].
  injection Harmobj as ->.
  assert (Hno : armobj ∉ bones).
  { intros Hin.
    pose proof (build_skeleton_stops armobj (list_to_set sibs) bones
                  (mkWorld h1 [] [] ∅ ∅) Hin) as E.
    fold (start_world armobj h1) in E. unfold start_world in *. congruence. }
  unfold build_skeleton in Hbuild. unbind Hbuild as wa Hwa.
  apply getattr_Ok in Hao.
  exists bones, h1, armobj, wa, w1, roots, w2, w4, w6. done.
Qed.

(** ** The number of bones in the two skeletons *)

Lemma alter_bone_sizes hd f w w' :
  alter_bone hd f w = Ok w' -> skeleton_sizes w' = skeleton_sizes w.
Proof.
  unfold alter_bone, skeleton_sizes. intros E. unbind E as eb Heb. unbind E as l Hl.
  injection E as <-. destruct w as [o ab bb ap bp], hd as [[] i]; simpl in *;
    try discriminate; injection Hl as <-; by rewrite length_insert.
Qed.

Lemma update_sizes o f w : skeleton_sizes (update o f w) = skeleton_sizes w.
Proof. by destruct w. Qed.

Lemma link_bone_sizes (bones : gset objid) b w R w' R' :
  link_bone bones b (w, R) = Ok (w', R') -> skeleton_sizes w' = skeleton_sizes w.
Proof.
  unfold link_bone. intros E. unbind E as r Hr. destruct r as [w1 R1].
  injection E as <- <-.
  assert (Hfold : forall cs w0,
            skeleton_sizes (foldl (fun w c => if decide (c ∈ bones) then w
                                     else update b (set_force_import true) w) w0 cs)
            = skeleton_sizes w0).
  { induction cs as [| c cs IH]; intros w0; simpl; [done |].
    destruct (decide (c ∈ bones)); [apply IH |]. by rewrite IH, update_sizes. }
  rewrite Hfold, update_sizes.
  destruct (parent (objs w b)) as [p |]; [| by injection Hr as <- <-].
  destruct (decide (p ∈ bones)); [| by injection Hr as <- <-].
  unbind Hr as pb Hpb. unbind Hr as bb Hbb. unbind Hr as hd Hhd.
  destruct pb as [hp | nm]; [| discriminate].
  unbind Hr as w2 Hw2. injection Hr as <- <-.
  by apply alter_bone_sizes in Hw2.
Qed.

Lemma process_bone_sizes fuel : forall armobj obj pos rot w w',
  process_bone fuel armobj obj pos rot w = Ok w' ->
  skeleton_sizes w' = skeleton_sizes w.
Proof.
  induction fuel as [| fuel IH]; intros armobj obj pos rot w w' E;
    [discriminate |].
  simpl in E.
  unbind E as p Hp. unbind E as b Hb. unbind E as hd Hhd. unbind E as w1 Hw1.
  unbind E as q Hq. unbind E as eb1 Heb1. unbind E as w2 Hw2.
  unbind E as w3 Hw3. unbind E as w4 Hloop.
  unbind E as b' Hb'. unbind E as hd' Hhd'. unbind E as eb' Heb'.
  injection E as <-. rewrite update_sizes.
  assert (H34 : skeleton_sizes w4 = skeleton_sizes w3).
  { revert Hloop. apply (for_each_preserves _
      (fun s s' => skeleton_sizes s' = skeleton_sizes s)); [done | |].
    - intros s1 s2 s3 H12 H23. by rewrite H23.
    - intros x s s' _ Ex.
      destruct (in_armature armobj (objs s x)); [| by injection Ex as <-].
      unbind Ex as bx Hbx. unbind Ex as hx Hhx. unbind Ex as ex Hex.
      eapply IH. eassumption. }
  rewrite H34, (alter_bone_sizes _ _ _ _ Hw3), (alter_bone_sizes _ _ _ _ Hw2).
  by rewrite (alter_bone_sizes _ _ _ _ Hw1).
Qed.

Lemma process_armature_sizes fuel armobj (roots : gset objid) w w' :
  process_armature fuel armobj roots w = Ok w' ->
  skeleton_sizes w' = skeleton_sizes w.
Proof.
  unfold process_armature.
  apply (for_each_preserves _
    (fun s s' => skeleton_sizes s' = skeleton_sizes s)); [done | |].
  - intros s1 s2 s3 H12 H23. by rewrite H23.
  - intros x s s' _. apply process_bone_sizes.
Qed.

Lemma leave_edit_mode_sizes `{Host} o w :
  skeleton_sizes (leave_edit_mode o w) = skeleton_sizes w.
Proof. by destruct w, o. Qed.

Lemma filter_ext_elem {A} (P1 P2 : A -> Prop) `{!forall x, Decision (P1 x)}
    `{!forall x, Decision (P2 x)} (l : list A) :
  (forall x, x ∈ l -> P1 x <-> P2 x) -> filter P1 l = filter P2 l.
Proof.
  induction l as [| x l IH]; intros Hall; [done |].
  rewrite !filter_cons. rewrite IH by (intros y Hy; apply Hall; by right).
  destruct (decide (P1 x)) as [H1 | H1], (decide (P2 x)) as [H2 | H2];
    try done; exfalso.
  - apply H2, (Hall x); [left | done].
  - apply H1, (Hall x); [left | done].
Qed.

Section Sizes.
Context `{Host}.

Lemma annotate_loop_sizes armobj sib l : forall w w',
  for_each (annotate_bone armobj sib) l w = Ok w' ->
  armobj ∉ l ->
  armature (objs w armobj) = Some (ArmatureBlock ArmatureData) ->
  skeleton_sizes w'
  = (length (armature_bones w) + length l, length (bindPose_bones w)).
Proof.
  induction l as [| b l IH]; intros w w' E Hno Harm; simpl in E.
  - injection E as <-. unfold skeleton_sizes. by rewrite Nat.add_0_r.
  - unbind E as w1 Hw1. apply not_elem_of_cons in Hno as [Hne Hno].
    apply annotate_bone_Ok in Hw1
      as (a & l0 & eb & Harm' & _ & Hl0 & Hl1 & _ & _ & Hother & _ & Hedit).
    rewrite Harm in Harm'. injection Harm' as <-.
    rewrite (IH _ _ E Hno) by (by rewrite Hother).
    simpl in Hl0, Hl1. injection Hl0 as <-. injection Hl1 as ->.
    specialize (Hedit BindPoseData ltac:(done)). simpl in Hedit.
    injection Hedit as ->. rewrite length_app. simpl. f_equal. lia.
Qed.

Lemma place_bind_bone_sizes armobj b w w' :
  place_bind_bone armobj b w = Ok w' ->
  bindPose (objs w armobj) = Some (BindArmature BindPoseData) ->
  skeleton_sizes w'
  = (length (armature_bones w),
     length (bindPose_bones w)
     + (if bindPose (objs w b) is Some _ then 1 else 0)).
Proof.
  unfold place_bind_bone. intros E Harm.
  destruct (bindPose (objs w b)) as [bp |].
  2: { injection E as <-. unfold skeleton_sizes. by rewrite Nat.add_0_r. }
  unbind E as m Hm.
  unbind E as abp Habp. apply getattr_Ok in Habp.
  rewrite Harm in Habp. injection Habp as <-.
  unbind E as a Ha. injection Ha as <-.
  unbind E as r Hr. destruct r as [pb w1].
  unbind E as w2 Hw2. unbind E as w3 Hw3. unbind E as w4 Hw4.
  unbind E as eb Heb. injection E as <-.
  rewrite update_sizes, (alter_bone_sizes _ _ _ _ Hw4).
  rewrite (alter_bone_sizes _ _ _ _ Hw3), (alter_bone_sizes _ _ _ _ Hw2).
  apply create_bone_Ok in Hr as (l & eb0 & Hl & _ & Hl' & _ & _ & _ & Hother & _).
  specialize (Hother ArmatureData ltac:(done)). simpl in Hl, Hl', Hother.
  injection Hl as <-. injection Hl' as Hl'. injection Hother as Hother.
  unfold skeleton_sizes. rewrite Hl', Hother, length_app. done.
Qed.

Lemma place_loop_sizes armobj l : forall w w',
  for_each (place_bind_bone armobj) l w = Ok w' ->
  bindPose (objs w armobj) = Some (BindArmature BindPoseData) ->
  skeleton_sizes w'
  = (length (armature_bones w),
     length (bindPose_bones w)
     + length (filter (fun b => is_Some (bindPose (objs w b))) l)).
Proof.
  induction l as [| b l IH]; intros w w' E Harm; simpl in E.
  - injection E as <-. unfold skeleton_sizes. simpl. by rewrite Nat.add_0_r.
  - unbind E as w1 Hw1.
    pose proof (place_bind_bone_sizes _ _ _ _ Hw1 Harm) as Hs.
    pose proof (place_bind_bone_proj bindPose ltac:(by intros ? [])
                  _ _ _ _ Hw1) as Hbp.
    rewrite (IH _ _ E) by (by rewrite Hbp).
    unfold skeleton_sizes in Hs. injection Hs as -> ->.
    rewrite filter_cons.
    rewrite (list_filter_iff (fun b0 => is_Some (bindPose (objs w1 b0)))
               (fun b0 => is_Some (bindPose (objs w b0))))
      by (intros x; by rewrite Hbp).
    destruct (bindPose (objs w b)) as [bp |] eqn:Hb.
    + rewrite decide_True by eauto. simpl. f_equal. lia.
    + rewrite decide_False by (by intros [? ?]). f_equal. lia.
Qed.

(** X10. A build that returns has given the deform armature one edit
    bone for every bone of the bone set, and the bind-pose armature one
    edit bone for every bone of the set that has a bind pose. *)
Theorem one_edit_bone_per_bone fuel mu skins sibs h ao w bones h1 :
  create_armature fuel mu skins sibs h = Ok (ao, w) ->
  collect_bones fuel mu skins (list_to_set sibs) ∅ h = Ok (bones, h1) ->
  length (armature_bones w) = size bones /\
  length (bindPose_bones w)
  = length (filter (fun b => is_Some (bindPose (h1 b))) (elements bones)).
Proof.
  intros E Hcol.
  destruct (create_armature_stages _ _ _ _ _ _ _ E)
    as (bones' & h1' & armobj & wa & w1 & roots & w2 & w4 & w6 & Hcol' & Hfirst
        & Hno & Hann & Hlink & Hproc & Hplace & Hcopy & Hattach & _).
  rewrite Hcol in Hcol'. injection Hcol' as <- <-.
  destruct (setup_armobj_attrs armobj (mkWorld h1 [] [] ∅ ∅))
    as (Harm & Hbp & _ & _ & _ & _ & _ & Hother & _).
  fold (start_world armobj h1) in Harm, Hbp, Hother.
  pose proof (annotate_loop_sizes _ _ _ _ _ Hann
                ltac:(by rewrite elem_of_elements) Harm) as Sa.
  assert (S1 : skeleton_sizes w1 = skeleton_sizes wa).
  { revert Hlink. apply (for_each_preserves (link_bone bones)
      (fun s s' => skeleton_sizes s'.1 = skeleton_sizes s.1)); [done | |].
    - intros s1 s2 s3 H12 H23. by rewrite H23.
    - intros x [s R] [s' R'] _. apply link_bone_sizes. }
  pose proof (process_armature_sizes _ _ _ _ _ Hproc) as S2.
  assert (Hbp2 : forall o, bindPose (objs (leave_edit_mode ArmatureObject w2) o)
                           = bindPose (objs (start_world armobj h1) o)).
  { intros o. rewrite (proj1 (leave_edit_mode_frame ArmatureObject w2)).
    rewrite (process_armature_proj bindPose ltac:(by intros ? [])
               _ _ _ _ _ Hproc).
    rewrite (link_loop_proj bindPose ltac:(by intros ? []) _ _ _ _ Hlink).
    cbn [fst].
    by destruct (kept_fields _ _ (annotate_loop_kept _ _ _ _ _ Hann o)) as (-> & _). }
  pose proof (place_loop_sizes _ _ _ _ Hplace
                ltac:(by rewrite Hbp2)) as S4.
  destruct (copy_loop_objs _ _ _ _ Hcopy) as (_ & A6 & B6).
  destruct (attach_skins_frame _ _ _ _ Hattach) as (_ & A7 & _).
  assert (B7 : bindPose_bones w = bindPose_bones w6).
  { clear -Hattach. revert Hattach. generalize w6. 
    induction skins as [| s l IH]; intros w0 E; simpl in E.
    - by injection E as <-.
    - unbind E as w1 Hw1. rewrite (IH _ E).
      unfold attach_skin in Hw1.
      unbind Hw1 as a Ha. unbind Hw1 as ao Hao. unbind Hw1 as bp Hbp.
      unbind Hw1 as bo Hbo. injection Hw1 as <-. by destruct w0. }
  rewrite A7, A6, B7, B6.
  destruct (leave_edit_mode_frame BindPoseObject w4) as (_ & -> & ->).
  destruct (leave_edit_mode_frame ArmatureObject w2) as (_ & LA & LB).
  rewrite LA, LB in S4. rewrite S1, Sa in S2.
  unfold skeleton_sizes in S2, S4.
  injection S2 as S2a S2b. injection S4 as S4a S4b.
  rewrite S4a, S4b, S2a, S2b. split; [done |]. simpl. f_equal.
  apply filter_ext_elem. intros b Hb. rewrite Hbp2, Hother; [done |].
  intros ->. by apply elem_of_elements in Hb.
Qed.

End Sizes.

(** ** The references on the skins *)

Lemma attach_skin_refs armobj skin w w' :
  attach_skin armobj skin w = Ok w' ->
  refs (objs w' skin) = refs (objs w armobj) /\
  (forall o, o <> skin -> objs w' o = objs w o) /\
  (forall o, placement (objs w' o) = placement (objs w o) /\
             force_import (objs w' o) = force_import (objs w o) /\
             bone (objs w' o) = bone (objs w o)).
Proof.
  unfold attach_skin. intros E.
  unbind E as a Ha. apply getattr_Ok in Ha.
  unbind E as ao Hao. apply getattr_Ok in Hao.
  rewrite (proj_update armature_obj) in Hao by (by intros []).
  unbind E as bp Hbp. apply getattr_Ok in Hbp.
  rewrite !(proj_update bindPose) in Hbp by (by intros []).
  unbind E as bo Hbo. apply getattr_Ok in Hbo.
  rewrite !(proj_update bindPose_obj) in Hbo by (by intros []).
  injection E as <-. split; [| split].
  - rewrite !objs_update, !fn_lookup_alter. unfold refs.
    rewrite Ha, Hao, Hbp, Hbo. by destruct (objs w skin).
  - intros o Ho. rewrite !objs_update. by rewrite !fn_lookup_alter_ne.
  - intros o. rewrite !(proj_update placement) by (by intros []).
    rewrite !(proj_update force_import) by (by intros []).
    by rewrite !(proj_update bone) by (by intros []).
Qed.

Lemma attach_loop_refs armobj l : forall w w',
  for_each (attach_skin armobj) l w = Ok w' ->
  (forall o, refs (objs w o) = refs (objs w armobj) ->
             refs (objs w' o) = refs (objs w armobj)) /\
  (forall skin, skin ∈ l -> refs (objs w' skin) = refs (objs w armobj)) /\
  (forall o, o ∉ l -> objs w' o = objs w o) /\
  (forall o, placement (objs w' o) = placement (objs w o) /\
             force_import (objs w' o) = force_import (objs w o) /\
             bone (objs w' o) = bone (objs w o)).
Proof.
  induction l as [| s l IH]; intros w w' E; simpl in E.
  - injection E as <-. repeat split; try done.
    intros skin Hs. by apply elem_of_nil in Hs.
  - unbind E as w1 Hw1.
    apply attach_skin_refs in Hw1 as (Hs & Hother & Hrest).
    destruct (IH _ _ E) as (Hkeep & Hskins & Hout & Hrest').
    assert (Hstep : forall o, refs (objs w o) = refs (objs w armobj) ->
                              refs (objs w1 o) = refs (objs w armobj)).
    { intros o Ho. destruct (decide (o = s)) as [-> | Hne]; [done |].
      by rewrite Hother. }
    assert (Harm : refs (objs w1 armobj) = refs (objs w armobj)) by auto.
    rewrite Harm in Hkeep, Hskins. split; [| split; [| split]].
    + intros o Ho. auto.
    + intros skin Hin. apply elem_of_cons in Hin as [-> | Hin]; auto.
    + intros o Ho. apply not_elem_of_cons in Ho as [Hne Ho].
      rewrite Hout by done. by apply Hother.
    + intros o. destruct (Hrest' o) as (-> & -> & ->). apply Hrest.
Qed.

Section Skins.
Context `{Host}.

Lemma armobj_refs_kept fuel mu skins sibs h ao w bones h1 armobj :
  create_armature fuel mu skins sibs h = Ok (ao, w) ->
  collect_bones fuel mu skins (list_to_set sibs) ∅ h = Ok (bones, h1) ->
  skins !! 0%nat = Some armobj ->
  refs (objs w armobj)
  = (Some (ArmatureBlock ArmatureData), Some ArmatureObject,
     Some (BindArmature BindPoseData), Some BindPoseObject) /\
  forall skin, skin ∈ skins -> refs (objs w skin) = refs (objs w armobj).
Proof.
  intros E Hcol Hfirst.
  destruct (create_armature_stages _ _ _ _ _ _ _ E)
    as (bones' & h1' & armobj' & wa & w1 & roots & w2 & w4 & w6 & Hcol' & Hfirst'
        & Hno & Hann & Hlink & Hproc & Hplace & Hcopy & Hattach & _).
  rewrite Hcol in Hcol'. injection Hcol' as <- <-.
  rewrite Hfirst in Hfirst'. injection Hfirst' as <-.
  destruct (setup_armobj_attrs armobj (mkWorld h1 [] [] ∅ ∅))
    as (Harm & Hbp & _ & _ & Hao & Hbo & _).
  fold (start_world armobj h1) in Harm, Hbp, Hao, Hbo.
  assert (R6 : refs (objs w6 armobj)
               = (Some (ArmatureBlock ArmatureData), Some ArmatureObject,
                  Some (BindArmature BindPoseData), Some BindPoseObject)).
  { rewrite (after_annotation refs ltac:(by intros ? []) ltac:(by intros ? [])
               ltac:(by intros ? []) _ _ _ _ _ _ _ _ _ _ _ _ _
               Hlink Hproc Hplace Hcopy).
    rewrite (annotate_loop_others _ _ _ _ _ Hann)
      by (by rewrite elem_of_elements).
    unfold refs. by rewrite Harm, Hbp, Hao, Hbo. }
  destruct (attach_loop_refs _ _ _ _ Hattach) as (Hkeep & Hskins & _).
  assert (R7 : refs (objs w armobj) = refs (objs w6 armobj)) by auto.
  split; [by rewrite R7 |].
  intros skin Hin. rewrite R7. auto.
Qed.

Lemma skins_refs_after_build fuel mu skins sibs h ao w :
  create_armature fuel mu skins sibs h = Ok (ao, w) ->
  ao = ArmatureObject /\
  forall skin, skin ∈ skins ->
    armature (objs w skin) = Some (ArmatureBlock ArmatureData) /\
    armature_obj (objs w skin) = Some ao /\
    bindPose (objs w skin) = Some (BindArmature BindPoseData) /\
    bindPose_obj (objs w skin) = Some BindPoseObject.
Proof.
  intros E.
  destruct (create_armature_stages _ _ _ _ _ _ _ E)
    as (bones & h1 & armobj & wa & w1 & roots & w2 & w4 & w6 & Hcol & Hfirst
        & _ & _ & _ & _ & _ & _ & _ & Hao).
  destruct (armobj_refs_kept _ _ _ _ _ _ _ _ _ _ E Hcol Hfirst) as [Ra Rs].
  assert (ao = ArmatureObject) as ->.
  { unfold refs in Ra. injection Ra as _ Ra _ _. congruence. }
  split; [done |]. intros skin Hin.
  specialize (Rs skin Hin). rewrite Ra in Rs. unfold refs in Rs.
  by injection Rs as -> -> -> ->.
Qed.

(** X11. A build that returns returns the deform armature object, and
    has left on every skin the deform armature, its object, the bind-pose
    armature and its object. *)
Theorem skins_refer_to_the_armatures fuel mu skins sibs h ao w :
  create_armature fuel mu skins sibs h = Ok (ao, w) ->
  ao = ArmatureObject /\
  forall skin, skin ∈ skins ->
    armature (objs w skin) = Some (ArmatureBlock ArmatureData) /\
    armature_obj (objs w skin) = Some ao /\
    bindPose (objs w skin) = Some (BindArmature BindPoseData) /\
    bindPose_obj (objs w skin) = Some BindPoseObject.
Proof. apply skins_refs_after_build. Qed.

End Skins.

(** ** The placement of the bones *)

Section Rebase.
Local Open Scope Q_scope.

Lemma quat_inverted_nonzero (a : Quaternion) :
  ~ qdot a a == 0 ->
  quat_inverted a
  = mkQuaternion (qw a / qdot a a) (- qx a / qdot a a) (- qy a / qdot a a)
      (- qz a / qdot a a).
Proof.
  intros Hne. unfold quat_inverted.
  destruct (Qeq_bool (qdot a a) 0) eqn:Hz; [| done].
  by apply Qeq_bool_iff in Hz.
Qed.

(** Rotating back by the rotation of the armature object undoes the
    rebasing of a sibling bone. *)
Lemma rebase_rotation_back (a q : Quaternion) :
  ~ qdot a a == 0 ->
  quat_eq (quat_mul a (quat_mul (quat_inverted a) q)) q.
Proof.
  intros Hne. rewrite quat_inverted_nonzero by done.
  destruct a as [w x y z], q as [qw0 qx0 qy0 qz0].
  unfold quat_eq, quat_mul, qdot in *. simpl in *.
  repeat split; field; exact Hne.
Qed.

Lemma rebase_position_back (a : Quaternion) (p apos : Vector) :
  ~ qdot a a == 0 ->
  veq (vadd (quat_rotate a (quat_rotate (quat_inverted a) (vsub p apos))) apos) p.
Proof.
  intros Hne. rewrite quat_inverted_nonzero by done.
  destruct a as [w x y z], p as [px py pz], apos as [ax ay az].
  unfold veq, vadd, vsub, quat_rotate, qdot in *. simpl in *.
  repeat split; field; exact Hne.
Qed.

End Rebase.

Section Placement.
Context `{Host}.

Lemma annotate_bone_placement armobj sib b w w' arot apos :
  annotate_bone armobj sib b w = Ok w' ->
  rotation (objs w armobj) = Some arot ->
  position (objs w armobj) = Some apos ->
  let lp := localPosition (transform (objs w b)) in
  let lr := localRotation (transform (objs w b)) in
  let r := quat_inverted arot in
  placement (objs w' b)
  = (if decide (b ∈ sib)
     then (Some (quat_rotate r (vsub lp apos)), Some (quat_mul r lr), Some r)
     else (Some lp, Some lr, Some (mkQuaternion 1 0 0 0))).
Proof.
  intros E Hrot Hpos.
  destruct (annotate_bone_Ok _ _ _ _ _ E)
    as (a & l & eb & Harm & Hne & Hl & _).
  unfold annotate_bone, create_bone in E.
  destruct (objs w b) eqn:Ho.
  destruct (decide (b ∈ sib));
    repeat (progress (simpl in E; rewrite ?objs_update, ?edit_bones_update in E;
                      rewrite ?fn_lookup_alter, ?fn_lookup_alter_ne in E by done;
                      rewrite ?Ho, ?Hrot, ?Hpos, ?Harm, ?Hl in E));
    injection E as <-;
    rewrite !objs_update, !fn_lookup_alter, objs_set_edit_bones;
    rewrite !objs_update, !fn_lookup_alter, ?Ho; reflexivity.
Qed.

Lemma annotate_loop_placement armobj sib l arot apos : forall w w',
  for_each (annotate_bone armobj sib) l w = Ok w' ->
  NoDup l -> armobj ∉ l ->
  rotation (objs w armobj) = Some arot ->
  position (objs w armobj) = Some apos ->
  forall b, b ∈ l ->
    let lp := localPosition (transform (objs w b)) in
    let lr := localRotation (transform (objs w b)) in
    let r := quat_inverted arot in
    placement (objs w' b)
    = (if decide (b ∈ sib)
       then (Some (quat_rotate r (vsub lp apos)), Some (quat_mul r lr), Some r)
       else (Some lp, Some lr, Some (mkQuaternion 1 0 0 0))).
Proof.
  induction l as [| c l IH]; intros w w' E Hnd Hno Hrot Hpos b Hb.
  - by apply elem_of_nil in Hb.
  - simpl in E. unbind E as w1 Hw1.
    apply not_elem_of_cons in Hno as [Hne Hno].
    apply NoDup_cons in Hnd as [Hc Hnd].
    destruct (annotate_bone_Ok _ _ _ _ _ Hw1)
      as (_ & _ & _ & _ & _ & _ & _ & _ & _ & Hother & _).
    apply elem_of_cons in Hb as [-> | Hb].
    + rewrite (annotate_loop_others _ _ _ _ _ E) by done.
      apply (annotate_bone_placement armobj sib c w w1 arot apos Hw1 Hrot Hpos).
    + assert (Hbc : b <> c) by (by intros ->).
      rewrite (IH _ _ E Hnd Hno) by (by rewrite ?Hother).
      by rewrite Hother.
Qed.

(** X12. After a build, a bone outside the sibling boundaries carries
    its local position and rotation and the identity for [relRotation];
    a bone that is a sibling boundary carries them taken into the frame
    of the armature object, and when the rotation of that object is not
    zero, rotating back by it and adding its position gives the local
    position and rotation again. *)
Theorem bones_placed_under_the_armature fuel mu skins sibs h ao w bones h1
    armobj :
  create_armature fuel mu skins sibs h = Ok (ao, w) ->
  collect_bones fuel mu skins (list_to_set sibs) ∅ h = Ok (bones, h1) ->
  skins !! 0%nat = Some armobj ->
  forall b, b ∈ bones ->
    let lp := localPosition (transform (h1 b)) in
    let lr := localRotation (transform (h1 b)) in
    let apos := localPosition (transform (h1 armobj)) in
    let arot := localRotation (transform (h1 armobj)) in
    (b ∉ sibs ->
     placement (objs w b) = (Some lp, Some lr, Some (mkQuaternion 1 0 0 0))) /\
    (b ∈ sibs ->
     exists p q,
       placement (objs w b) = (Some p, Some q, Some (quat_inverted arot)) /\
       p = quat_rotate (quat_inverted arot) (vsub lp apos) /\
       q = quat_mul (quat_inverted arot) lr /\
       (~ (qdot arot arot == 0)%Q ->
        quat_eq (quat_mul arot q) lr /\
        veq (vadd (quat_rotate arot p) apos) lp)).
Proof.
  intros E Hcol Hfirst b Hb.
  destruct (create_armature_stages _ _ _ _ _ _ _ E)
    as (bones' & h1' & armobj' & wa & w1 & roots & w2 & w4 & w6 & Hcol' & Hfirst'
        & Hno & Hann & Hlink & Hproc & Hplace & Hcopy & Hattach & _).
  rewrite Hcol in Hcol'. injection Hcol' as <- <-.
  rewrite Hfirst in Hfirst'. injection Hfirst' as <-.
  destruct (setup_armobj_attrs armobj (mkWorld h1 [] [] ∅ ∅))
    as (_ & _ & Hpos & Hrot & _ & _ & _ & Hother & _).
  fold (start_world armobj h1) in Hpos, Hrot, Hother. simpl in Hpos, Hrot.
  assert (Hw : placement (objs w b) = placement (objs wa b)).
  { destruct (attach_loop_refs _ _ _ _ Hattach) as (_ & _ & _ & Hrest).
    rewrite (proj1 (Hrest b)).
    apply (after_annotation placement ltac:(by intros ? []) ltac:(by intros ? [])
             ltac:(by intros ? []) _ _ _ _ _ _ _ _ _ _ _ _ _
             Hlink Hproc Hplace Hcopy). }
  pose proof (annotate_loop_placement _ _ _ _ _ _ _ Hann (NoDup_elements bones)
                ltac:(by rewrite elem_of_elements) Hrot Hpos b
                ltac:(by rewrite elem_of_elements)) as Hp.
  cbv zeta in Hp. rewrite Hother in Hp by (by intros ->). simpl in Hp.
  rewrite Hw, Hp. split.
  - intros Hout. rewrite decide_False; [done |]. by rewrite elem_of_list_to_set.
  - intros Hin. rewrite decide_True by (by rewrite elem_of_list_to_set).
    eexists _, _. split; [reflexivity |]. split; [done |]. split; [done |].
    intros Hne. split.
    + by apply rebase_rotation_back.
    + by apply rebase_position_back.
Qed.

End Placement.

(** ** The force_import flag *)

Lemma force_import_fold (bones : gset objid) b cs : forall w v,
  force_import (objs w b) = Some v ->
  exists v',
    force_import
      (objs (foldl (fun w c => if decide (c ∈ bones) then w
                               else update b (set_force_import true) w) w cs) b)
    = Some v' /\
    (v' = true <-> v = true \/ exists c, c ∈ cs /\ c ∉ bones).
Proof.
  induction cs as [| c cs IH]; intros w v Hv; simpl.
  - exists v. split; [done |]. split; [auto |].
    intros [Ht | (c & Hc & _)]; [done | by apply elem_of_nil in Hc].
  - destruct (decide (c ∈ bones)) as [Hin | Hout].
    + destruct (IH w v Hv) as (v' & Hv' & Hiff). exists v'. split; [done |].
      rewrite Hiff. split.
      * intros [Ht | (d & Hd & Hdo)]; [by left | right].
        exists d. split; [by right | done].
      * intros [Ht | (d & Hd & Hdo)]; [by left |].
        apply elem_of_cons in Hd as [-> | Hd]; [done | right; eauto].
    + destruct (IH (update b (set_force_import true) w) true) as (v' & Hv' & Hiff).
      { rewrite objs_update, fn_lookup_alter. by destruct (objs w b). }
      exists v'. split; [done |]. rewrite Hiff. split.
      * intros _. right. exists c. split; [left | done].
      * by left.
Qed.

Lemma force_import_fold_others (bones : gset objid) b cs o : forall w,
  o <> b ->
  objs (foldl (fun w c => if decide (c ∈ bones) then w
                          else update b (set_force_import true) w) w cs) o
  = objs w o.
Proof.
  induction cs as [| c cs IH]; intros w Hne; simpl; [done |].
  destruct (decide (c ∈ bones)); [by apply IH |].
  rewrite IH by done. by rewrite objs_update, fn_lookup_alter_ne.
Qed.

Lemma link_bone_force_import (bones : gset objid) b w R w' R' :
  link_bone bones b (w, R) = Ok (w', R') ->
  (exists v, force_import (objs w' b) = Some v /\
             (v = true <-> exists c, c ∈ children (objs w b) /\ c ∉ bones)) /\
  (forall o, o <> b -> objs w' o = objs w o).
Proof.
  unfold link_bone. intros E. unbind E as r Hr. destruct r as [w1 R1].
  injection E as <- <-.
  assert (Hobjs : objs w1 = objs w).
  { destruct (parent (objs w b)) as [p |]; [| by injection Hr as <- <-].
    destruct (decide (p ∈ bones)); [| by injection Hr as <- <-].
    unbind Hr as pb Hpb. unbind Hr as bb Hbb. unbind Hr as hd Hhd.
    destruct pb as [hp | nm]; [| discriminate].
    unbind Hr as w2 Hw2. injection Hr as <- <-.
    by apply alter_bone_objs in Hw2. }
  split.
  - destruct (force_import_fold bones b
                (children (objs (update b (set_force_import false) w1) b))
                (update b (set_force_import false) w1) false)
      as (v & Hv & Hiff).
    { rewrite objs_update, fn_lookup_alter. by destruct (objs w1 b). }
    exists v. split; [done |]. rewrite Hiff.
    rewrite objs_update, fn_lookup_alter, Hobjs.
    replace (children (set_force_import false (objs w b)))
      with (children (objs w b)) by (by destruct (objs w b)).
    naive_solver.
  - intros o Ho. rewrite force_import_fold_others by done.
    by rewrite objs_update, fn_lookup_alter_ne, Hobjs.
Qed.

Lemma link_loop_force_import (bones : gset objid) l : forall w R w' R',
  for_each (link_bone bones) l (w, R) = Ok (w', R') ->
  NoDup l ->
  forall b, b ∈ l ->
    exists v, force_import (objs w' b) = Some v /\
              (v = true <-> exists c, c ∈ children (objs w b) /\ c ∉ bones).
Proof.
  induction l as [| c l IH]; intros w R w' R' E Hnd b Hb.
  - by apply elem_of_nil in Hb.
  - simpl in E. unbind E as s1 Hs1. destruct s1 as [w1 R1].
    apply NoDup_cons in Hnd as [Hc Hnd].
    pose proof (link_loop_proj children ltac:(by intros ? []) _ _ _ _ E) as Hch.
    destruct (link_bone_force_import _ _ _ _ _ _ Hs1) as [Hset Hother].
    apply elem_of_cons in Hb as [-> | Hb].
    + assert (Hkeep : forall o, o ∉ l -> objs w' o = objs w1 o).
      { clear -E. revert w1 R1 E. induction l as [| d l IH]; intros w1 R1 E o Ho.
        - simpl in E. by injection E as <- <-.
        - simpl in E. unbind E as s2 Hs2. destruct s2 as [w2 R2].
          apply not_elem_of_cons in Ho as [Hne Ho].
          rewrite (IH _ _ E) by done.
          by apply (link_bone_force_import _ _ _ _ _ _ Hs2). }
      by rewrite Hkeep.
    + assert (Hbc : b <> c) by (by intros ->).
      destruct (IH _ _ _ _ E Hnd b Hb) as (v & Hv & Hiff).
      exists v. split; [done |]. by rewrite Hiff, Hother.
Qed.

(** X13. After a build, every bone of the bone set has a [force_import]
    flag, and the flag is set exactly when the bone has a child outside
    the bone set. *)
Theorem force_import_marks_partial_bones `{Host} fuel mu skins sibs h ao w
    bones h1 :
  create_armature fuel mu skins sibs h = Ok (ao, w) ->
  collect_bones fuel mu skins (list_to_set sibs) ∅ h = Ok (bones, h1) ->
  forall b, b ∈ bones ->
    exists v, force_import (objs w b) = Some v /\
              (v = true <-> exists c, c ∈ children (h1 b) /\ c ∉ bones).
Proof.
  intros E Hcol b Hb.
  destruct (create_armature_stages _ _ _ _ _ _ _ E)
    as (bones' & h1' & armobj & wa & w1 & roots & w2 & w4 & w6 & Hcol' & Hfirst
        & Hno & Hann & Hlink & Hproc & Hplace & Hcopy & Hattach & _).
  rewrite Hcol in Hcol'. injection Hcol' as <- <-.
  destruct (link_loop_force_import _ _ _ _ _ _ Hlink (NoDup_elements bones) b)
    as (v & Hv & Hiff); [by apply elem_of_elements |].
  exists v. split.
  - destruct (attach_loop_refs _ _ _ _ Hattach) as (_ & _ & _ & Hrest).
    rewrite (proj1 (proj2 (Hrest b))).
    rewrite (proj1 (copy_loop_objs _ _ _ _ Hcopy)).
    rewrite (proj1 (leave_edit_mode_frame BindPoseObject w4)).
    rewrite (place_loop_proj force_import ltac:(by intros ? []) _ _ _ _ Hplace).
    rewrite (proj1 (leave_edit_mode_frame ArmatureObject w2)).
    by rewrite (process_armature_proj force_import ltac:(by intros ? [])
                  _ _ _ _ _ Hproc).
  - rewrite Hiff. rewrite (proj2 (annotate_loop_links _ _ _ _ _ Hann b)).
    destruct (setup_armobj_attrs armobj (mkWorld h1 [] [] ∅ ∅))
      as (_ & _ & _ & _ & _ & _ & _ & _ & Hlinks).
    fold (start_world armobj h1) in Hlinks.
    by rewrite (proj2 (proj2 (Hlinks b))).
Qed.

Section Affine.
Local Open Scope Q_scope.

(** A bind matrix whose last row is (0, 0, 0, 1) is undone by its
    inverse on points. *)
Lemma affine_inverse_apply (m i : Matrix) (v : Vector) :
  mat_inverted m = Some i ->
  row_eq m.2 (0, 0, 0, 1) ->
  veq (mat_apply m (mat_apply i v)) v.
Proof.
  unfold mat_inverted. intros Hi Hrow.
  destruct (Qeq_bool (mat_det m) 0) eqn:Hd; [discriminate |].
  injection Hi as <-.
  assert (Hne : ~ mat_det m == 0).
  { intros Hz. apply Qeq_bool_iff in Hz. congruence. }
  clear Hd.
  destruct m as [[[[[[a00 a01] a02] a03] [[[a10 a11] a12] a13]]
                    [[[a20 a21] a22] a23]] [[[a30 a31] a32] a33]].
  destruct v as [x y z].
  simpl in Hrow. destruct Hrow as (H0 & H1 & H2 & H3).
  unfold veq, mat_apply, mat_scale, mat_adjugate, row_scale, row_dot, mat_det in *.
  simpl in *.
  rewrite H0, H1, H2, H3 in Hne |- *.
  repeat split; field; intros Hz; apply Hne; (etransitivity; [| exact Hz]); ring.
Qed.

End Affine.

(** ** The bones of the bind-pose skeleton *)

Lemma set_edit_bones_twice a l1 l2 w :
  set_edit_bones a l2 (set_edit_bones a l1 w) = set_edit_bones a l2 w.
Proof. by destruct w, a. Qed.

(** A write through the handle of the bone created last. *)
Lemma alter_last_bone a l eb f w :
  edit_bones a w = Ok (l ++ [eb]) ->
  alter_bone (a, length l) f w = Ok (set_edit_bones a (l ++ [f eb]) w).
Proof.
  intros Hl. unfold alter_bone, get_bone. cbn [fst snd]. rewrite Hl. cbn [bind].
  rewrite list_lookup_middle by done. cbn [bind].
  do 2 f_equal. rewrite insert_app_r_alt by done.
  by rewrite Nat.sub_diag.
Qed.

Section BindBones.
Context `{Host}.

Lemma create_bone_new o a w hd w' :
  create_bone o a w = Ok (hd, w') ->
  exists l eb,
    edit_bones a w = Ok l /\ hd = (a, length l) /\
    w' = set_edit_bones a (l ++ [eb]) w /\
    eb_name eb = unique_name (eb_name <$> l) (name (transform o)) /\
    eb_head eb = mkVector 0 0 0 /\
    eb_tail eb = vadd (mkVector 0 0 0) (mkVector 0 BONE_LENGTH 0) /\
    eb_parent eb = None /\
    option_map use_deform (eb_flags eb) = Some true /\
    option_map use_connect (eb_flags eb) = Some false.
Proof.
  unfold create_bone. intros E. unbind E as l Hl. injection E as <- <-.
  eexists l, _. split; [done |]. split; [done |]. split; [reflexivity |].
  by repeat split.
Qed.

Lemma place_bind_bone_Ok armobj b w w' m :
  place_bind_bone armobj b w = Ok w' ->
  bindPose (objs w b) = Some (BindMatrix m) ->
  bindPose (objs w armobj) = Some (BindArmature BindPoseData) ->
  exists i eb,
    mat_inverted m = Some i /\
    bindPose_bones w' = bindPose_bones w ++ [eb] /\
    poseBone (objs w' b) = Some (eb_name eb) /\
    eb_name eb
    = unique_name (eb_name <$> bindPose_bones w) (name (transform (objs w b))) /\
    eb_head eb = mat_apply i (mkVector 0 0 0) /\
    eb_tail eb = mat_apply i (mkVector 0 BONE_LENGTH 0) /\
    eb_roll eb = Some (mat_apply i (mkVector 0 0 1)) /\
    eb_parent eb = None.
Proof.
  unfold place_bind_bone. intros E Hb Harm. rewrite Hb in E.
  unbind E as i Hi. unfold bindPose_inverted in Hi.
  destruct (mat_inverted m) as [i' |]; [| discriminate]. injection Hi as ->.
  unbind E as abp Habp. apply getattr_Ok in Habp.
  rewrite Harm in Habp. injection Habp as <-.
  unbind E as a Ha. injection Ha as <-.
  unbind E as r Hr. destruct r as [pb w1].
  apply create_bone_new in Hr
    as (l & eb & Hl & -> & -> & Hname & _ & _ & Hpar & _).
  simpl in Hl. injection Hl as <-.
  rewrite (alter_last_bone BindPoseData (bindPose_bones w) eb) in E
    by (by destruct w).
  cbn [bind] in E. rewrite set_edit_bones_twice in E.
  rewrite (alter_last_bone BindPoseData (bindPose_bones w)
             (set_head (mat_apply i (mkVector 0 0 0)) eb)) in E
    by (by destruct w).
  cbn [bind] in E. rewrite set_edit_bones_twice in E.
  rewrite (alter_last_bone BindPoseData (bindPose_bones w)
             (set_tail (mat_apply i (mkVector 0 BONE_LENGTH 0))
                (set_head (mat_apply i (mkVector 0 0 0)) eb))) in E
    by (by destruct w).
  cbn [bind] in E. rewrite set_edit_bones_twice in E.
  unfold get_bone in E. cbn [fst snd] in E.
  replace (edit_bones BindPoseData (set_edit_bones BindPoseData
             (bindPose_bones w ++
              [align_roll (mat_apply i (mkVector 0 0 1))
                 (set_tail (mat_apply i (mkVector 0 BONE_LENGTH 0))
                    (set_head (mat_apply i (mkVector 0 0 0)) eb))]) w))
    with (Ok (bindPose_bones w ++
              [align_roll (mat_apply i (mkVector 0 0 1))
                 (set_tail (mat_apply i (mkVector 0 BONE_LENGTH 0))
                    (set_head (mat_apply i (mkVector 0 0 0)) eb))]))
    in E by (by destruct w).
  cbn [bind] in E.
  rewrite (list_lookup_middle (bindPose_bones w) [] _ _ eq_refl) in E.
  cbn [bind] in E. injection E as <-.
  eexists i, _. split; [done |]. split.
  { destruct w. reflexivity. }
  split.
  { rewrite objs_update, fn_lookup_alter.
    destruct w as [o ab bb ap bp]. simpl. by destruct (o b). }
  destruct eb. simpl in *. by repeat split.
Qed.

Lemma place_bind_bone_appends armobj b w w' :
  place_bind_bone armobj b w = Ok w' ->
  bindPose (objs w armobj) = Some (BindArmature BindPoseData) ->
  (exists news, bindPose_bones w' = bindPose_bones w ++ news) /\
  (forall o, o <> b -> objs w' o = objs w o).
Proof.
  intros E Harm. split.
  - destruct (bindPose (objs w b)) as [[m | a] |] eqn:Hb.
    + destruct (place_bind_bone_Ok _ _ _ _ _ E Hb Harm) as (i & eb & _ & -> & _).
      eauto.
    + unfold place_bind_bone in E. rewrite Hb in E. discriminate.
    + unfold place_bind_bone in E. rewrite Hb in E. injection E as <-.
      exists []. by rewrite app_nil_r.
  - intros o Ho. unfold place_bind_bone in E.
    destruct (bindPose (objs w b)) as [bp |]; [| by injection E as <-].
    unbind E as m Hm. unbind E as abp Habp. unbind E as a Ha.
    unbind E as r Hr. destruct r as [pb w1].
    unbind E as w2 Hw2. unbind E as w3 Hw3. unbind E as w4 Hw4.
    unbind E as eb Heb. injection E as <-.
    apply create_bone_Ok in Hr as (l & eb0 & _ & _ & _ & _ & _ & Hobjs & _).
    rewrite objs_update, fn_lookup_alter_ne by done.
    rewrite (alter_bone_objs _ _ _ _ Hw4), (alter_bone_objs _ _ _ _ Hw3).
    by rewrite (alter_bone_objs _ _ _ _ Hw2), Hobjs.
Qed.

Lemma place_loop_appends armobj l : forall w w',
  for_each (place_bind_bone armobj) l w = Ok w' ->
  bindPose (objs w armobj) = Some (BindArmature BindPoseData) ->
  (exists news, bindPose_bones w' = bindPose_bones w ++ news) /\
  (forall o, o ∉ l -> objs w' o = objs w o).
Proof.
  induction l as [| b l IH]; intros w w' E Harm; simpl in E.
  - injection E as <-. split; [| done]. exists []. by rewrite app_nil_r.
  - unbind E as w1 Hw1.
    pose proof (place_bind_bone_proj bindPose ltac:(by intros ? [])
                  _ _ _ _ Hw1) as Hbp.
    destruct (place_bind_bone_appends _ _ _ _ Hw1 Harm) as [[n1 H1] Ho1].
    destruct (IH _ _ E) as [[n2 H2] Ho2]; [by rewrite Hbp |].
    split.
    + exists (n1 ++ n2). by rewrite H2, H1, app_assoc.
    + intros o Ho. apply not_elem_of_cons in Ho as [Hne Ho].
      rewrite Ho2 by done. by apply Ho1.
Qed.

Lemma place_loop_bone armobj l : forall w w' b m,
  for_each (place_bind_bone armobj) l w = Ok w' ->
  NoDup l -> b ∈ l ->
  bindPose (objs w b) = Some (BindMatrix m) ->
  bindPose (objs w armobj) = Some (BindArmature BindPoseData) ->
  exists i eb,
    mat_inverted m = Some i /\
    eb ∈ bindPose_bones w' /\
    poseBone (objs w' b) = Some (eb_name eb) /\
    eb_head eb = mat_apply i (mkVector 0 0 0) /\
    eb_tail eb = mat_apply i (mkVector 0 BONE_LENGTH 0) /\
    eb_roll eb = Some (mat_apply i (mkVector 0 0 1)) /\
    eb_parent eb = None.
Proof.
  induction l as [| c l IH]; intros w w' b m E Hnd Hb Hm Harm.
  - by apply elem_of_nil in Hb.
  - simpl in E. unbind E as w1 Hw1.
    apply NoDup_cons in Hnd as [Hc Hnd].
    pose proof (place_bind_bone_proj bindPose ltac:(by intros ? [])
                  _ _ _ _ Hw1) as Hbp.
    apply elem_of_cons in Hb as [-> | Hb].
    + destruct (place_bind_bone_Ok _ _ _ _ _ Hw1 Hm Harm)
        as (i & eb & Hi & Hl & Hpb & _ & Hh & Ht & Hr & Hp).
      destruct (place_loop_appends _ _ _ _ E) as [[news Hnews] Hother];
        [by rewrite Hbp |].
      exists i, eb. split; [done |]. split.
      { rewrite Hnews, Hl. apply elem_of_app. left. apply elem_of_app. right.
        by apply list_elem_of_singleton. }
      split; [by rewrite Hother |]. done.
    + apply (IH _ _ _ _ E Hnd Hb); by rewrite Hbp.
Qed.

(** X14. A build that returns has inverted the bind matrix of every
    bone that has one (no such matrix is singular) and has given the bone
    an edit bone of the bind-pose armature, named by [poseBone], whose
    head, tail and roll axis are the images of the origin, of
    [(0, BONE_LENGTH, 0)] and of [(0, 0, 1)] under the inverse.  When the
    last row of the bind matrix is [(0, 0, 0, 1)], the bind matrix takes
    the head back to the origin and the tail to [(0, BONE_LENGTH, 0)]. *)
Theorem bind_pose_bone_inverts_bind_matrix fuel mu skins sibs h ao w bones h1
    b m :
  create_armature fuel mu skins sibs h = Ok (ao, w) ->
  collect_bones fuel mu skins (list_to_set sibs) ∅ h = Ok (bones, h1) ->
  b ∈ bones -> bindPose (h1 b) = Some (BindMatrix m) ->
  exists i eb,
    mat_inverted m = Some i /\
    eb ∈ bindPose_bones w /\
    poseBone (objs w b) = Some (eb_name eb) /\
    eb_head eb = mat_apply i (mkVector 0 0 0) /\
    eb_tail eb = mat_apply i (mkVector 0 BONE_LENGTH 0) /\
    eb_roll eb = Some (mat_apply i (mkVector 0 0 1)) /\
    (row_eq m.2 (0, 0, 0, 1)%Q ->
     veq (mat_apply m (eb_head eb)) (mkVector 0 0 0) /\
     veq (mat_apply m (eb_tail eb)) (mkVector 0 BONE_LENGTH 0)).
Proof.
  intros E Hcol Hb Hm.
  destruct (create_armature_stages _ _ _ _ _ _ _ E)
    as (bones' & h1' & armobj & wa & w1 & roots & w2 & w4 & w6 & Hcol' & Hfirst
        & Hno & Hann & Hlink & Hproc & Hplace & Hcopy & Hattach & _).
  rewrite Hcol in Hcol'. injection Hcol' as <- <-.
  destruct (setup_armobj_attrs armobj (mkWorld h1 [] [] ∅ ∅))
    as (_ & Hbp & _ & _ & _ & _ & _ & Hother & _).
  fold (start_world armobj h1) in Hbp, Hother.
  assert (Hbp2 : forall o, bindPose (objs (leave_edit_mode ArmatureObject w2) o)
                           = bindPose (objs (start_world armobj h1) o)).
  { intros o. rewrite (proj1 (leave_edit_mode_frame ArmatureObject w2)).
    rewrite (process_armature_proj bindPose ltac:(by intros ? [])
               _ _ _ _ _ Hproc).
    rewrite (link_loop_proj bindPose ltac:(by intros ? []) _ _ _ _ Hlink).
    cbn [fst].
    by destruct (kept_fields _ _ (annotate_loop_kept _ _ _ _ _ Hann o)) as (-> & _). }
  assert (Hne : b <> armobj) by (by intros ->).
  destruct (place_loop_bone _ _ _ _ b m Hplace (NoDup_elements bones))
    as (i & eb & Hi & Hin & Hpb & Hh & Ht & Hr & _).
  { by apply elem_of_elements. }
  { by rewrite Hbp2, Hother. }
  { by rewrite Hbp2. }
  exists i, eb. split; [done |].
  destruct (copy_loop_objs _ _ _ _ Hcopy) as (O6 & _ & B6).
  destruct (leave_edit_mode_frame BindPoseObject w4) as (O5 & _ & B5).
  destruct (attach_skins_frame _ _ _ _ Hattach) as (N7 & _).
  assert (B7 : bindPose_bones w = bindPose_bones w6).
  { clear -Hattach. revert Hattach. generalize w6.
    induction skins as [| s l IH]; intros w0 E; simpl in E.
    - by injection E as <-.
    - unbind E as w1 Hw1. rewrite (IH _ E).
      unfold attach_skin in Hw1.
      unbind Hw1 as a Ha. unbind Hw1 as ao Hao. unbind Hw1 as bp Hbp.
      unbind Hw1 as bo Hbo. injection Hw1 as <-. by destruct w0. }
  split; [by rewrite B7, B6, B5 |].
  split; [by rewrite N7, O6, O5 |].
  split; [done |]. split; [done |]. split; [done |].
  intros Hrow. rewrite Hh, Ht.
  split; by apply affine_inverse_apply.
Qed.

End BindBones.

(** ** What the pose propagator leaves of the linked skeleton *)

Lemma renames_refl w : renames w w.
Proof. split; auto. Qed.

Lemma bone_links_Ok hd w eb :
  get_bone hd w = Ok eb ->
  bone_links hd w = Some (eb_name eb, eb_parent eb, eb_flags eb).
Proof. unfold bone_links. by intros ->. Qed.

Lemma bone_links_name hd w w' eb :
  bone_links hd w' = bone_links hd w -> get_bone hd w = Ok eb ->
  exists eb', get_bone hd w' = Ok eb' /\ eb_name eb' = eb_name eb /\
              eb_parent eb' = eb_parent eb /\ eb_flags eb' = eb_flags eb.
Proof.
  unfold bone_links. intros E Heb. rewrite Heb in E.
  destruct (get_bone hd w') as [eb' | |]; [| discriminate..].
  injection E as ? ? ?. eauto.
Qed.

Lemma renames_trans w1 w2 w3 : renames w1 w2 -> renames w2 w3 -> renames w1 w3.
Proof.
  intros [Hl Hb] [Hl' Hb']. split.
  - intros hd. by rewrite Hl', Hl.
  - intros o. destruct (Hb' o) as [-> | (hd & eb & H2 & Heb & H3)]; [apply Hb |].
    destruct (Hb o) as [E | (hd' & eb' & _ & _ & H2')]; [| congruence].
    right. rewrite E in H2.
    assert (Hl2 : bone_links hd w1 = bone_links hd w2) by (by rewrite Hl).
    destruct (bone_links_name _ _ _ _ Hl2 Heb) as (eb1 & Heb1 & Hname & _).
    exists hd, eb1. by rewrite Hname.
Qed.

Lemma alter_bone_renames hd f w w' :
  alter_bone hd f w = Ok w' ->
  (forall eb, eb_name (f eb) = eb_name eb /\ eb_parent (f eb) = eb_parent eb /\
              eb_flags (f eb) = eb_flags eb) ->
  renames w w'.
Proof.
  intros E Hf.
  apply alter_bone_Ok in E as (eb & Heb & Heb' & Hothers & Hobjs & _).
  split.
  - intros hd'. destruct (decide (hd' = hd)) as [-> | Hne].
    + rewrite (bone_links_Ok _ _ _ Heb), (bone_links_Ok _ _ _ Heb').
      by destruct (Hf eb) as (-> & -> & ->).
    + unfold bone_links. by rewrite Hothers.
  - intros o. left. by rewrite Hobjs.
Qed.

Lemma process_bone_renames fuel : forall armobj obj pos rot w w',
  process_bone fuel armobj obj pos rot w = Ok w' -> renames w w'.
Proof.
  induction fuel as [| fuel IH]; intros armobj obj pos rot w w' E;
    [discriminate |].
  simpl in E.
  unbind E as p Hp. unbind E as b Hb. unbind E as hd Hhd. unbind E as w1 Hw1.
  unbind E as q Hq. unbind E as eb1 Heb1. unbind E as w2 Hw2.
  unbind E as w3 Hw3. unbind E as w4 Hloop.
  unbind E as b' Hb'. apply getattr_Ok in Hb'.
  unbind E as hd' Hhd'. apply as_edit_bone_Ok in Hhd'. subst b'.
  unbind E as eb' Heb'. injection E as <-.
  assert (H03 : renames w w3).
  { eapply renames_trans; [| eapply renames_trans].
    - eapply alter_bone_renames; [exact Hw1 | by intros []].
    - eapply alter_bone_renames; [exact Hw2 | by intros []].
    - eapply alter_bone_renames; [exact Hw3 | by intros []]. }
  assert (H34 : renames w3 w4).
  { revert Hloop. apply (for_each_preserves _ renames);
      [apply renames_refl | apply renames_trans |].
    intros x s s' _ Ex.
    destruct (in_armature armobj (objs s x)); [| injection Ex as <-; apply renames_refl].
    unbind Ex as bx Hbx. unbind Ex as hx Hhx. unbind Ex as ex Hex.
    eapply IH. eassumption. }
  eapply renames_trans; [exact H03 |]. eapply renames_trans; [exact H34 |].
  split.
  - intros hd0. unfold bone_links. by rewrite get_bone_update.
  - intros o. destruct (objs_set_bone obj (BoneName (eb_name eb')) w4 o)
      as (_ & _ & _ & _ & ->).
    destruct (decide (obj = o)) as [<- | Hne]; [| by left].
    right. eauto.
Qed.

Lemma process_armature_renames fuel armobj (roots : gset objid) w w' :
  process_armature fuel armobj roots w = Ok w' -> renames w w'.
Proof.
  unfold process_armature.
  apply (for_each_preserves _ renames);
    [apply renames_refl | apply renames_trans |].
  intros x s s' _. apply process_bone_renames.
Qed.

(** X15. The pose propagation creates, renames and re-parents no edit
    bone and changes no flag, and it leaves on every object it visits the
    name of the edit bone that the object held. *)
Theorem propagation_keeps_links_and_names fuel armobj (roots : gset objid)
    w w' :
  process_armature fuel armobj roots w = Ok w' ->
  length (armature_bones w') = length (armature_bones w) /\
  (forall hd eb, get_bone hd w = Ok eb ->
     exists eb', get_bone hd w' = Ok eb' /\ eb_name eb' = eb_name eb /\
                 eb_parent eb' = eb_parent eb /\ eb_flags eb' = eb_flags eb) /\
  (handles_distinct w ->
   forall root o pos rot,
     root ∈ roots ->
     visited w armobj root (mkVector 0 0 0) (mkQuaternion 1 0 0 0) o pos rot ->
     exists hd eb,
       bone (objs w o) = Some (EditBoneRef hd) /\ get_bone hd w' = Ok eb /\
       bone (objs w' o) = Some (BoneName (eb_name eb))).
Proof.
  intros E. pose proof (process_armature_renames _ _ _ _ _ E) as [Hl Hb].
  split; [| split].
  - pose proof (process_armature_sizes _ _ _ _ _ E) as Hs.
    unfold skeleton_sizes in Hs. by injection Hs.
  - intros hd eb Heb. by apply (bone_links_name hd w w' eb).
  - intros Hd root o pos rot Hroot Hv.
    destruct (process_armature_settles _ _ _ _ _ E Hd _ _ _ _ Hroot Hv)
      as (hd & eb & p & q & Ho & _ & _ & Hdead & Heb & _).
    exists hd, eb. split; [done |]. split; [done |].
    destruct (Hb o) as [E' | (hd' & eb0 & Ho' & Heb0 & ->)].
    + destruct (Hdead o). by rewrite E'.
    + rewrite Ho in Ho'. injection Ho' as <-.
      destruct (bone_links_name _ _ _ _ (Hl hd) Heb0) as (eb1 & Heb1 & <- & _).
      congruence.
Qed.

(** ** The armature modifiers of a skinned mesh *)

(** X16. After a build, [create_armature_modifier] on any of the skins
    returns: it appends two modifiers to the stack, the first named for
    [BindPose] and bound to the bind-pose object, the second named for
    [Armature] and bound to the armature object that the build returned,
    both deforming by vertex groups, without envelopes and without
    volume preservation. *)
Theorem modifiers_bind_to_the_build `{Host} fuel mu skins sibs h ao w skin
    modifiers :
  create_armature fuel mu skins sibs h = Ok (ao, w) ->
  skin ∈ skins ->
  exists m1 m2,
    create_armature_modifier modifiers (objs w skin)
    = Ok (modifiers ++ [m1; m2]) /\
    mod_object m1 = BindPoseObject /\ mod_object m2 = ao /\
    mod_name m1 = unique_name (mod_name <$> modifiers) "BindPose" /\
    mod_name m2 = unique_name (mod_name <$> modifiers ++ [m1]) "Armature" /\
    use_vertex_groups m1 = true /\ use_vertex_groups m2 = true /\
    use_bone_envelopes m1 = false /\ use_bone_envelopes m2 = false /\
    use_deform_preserve_volume m1 = false /\
    use_deform_preserve_volume m2 = false.
Proof.
  intros E Hskin.
  destruct (skins_refs_after_build _ _ _ _ _ _ _ E) as [-> Hrefs].
  destruct (Hrefs skin Hskin) as (_ & Hao & _ & Hbo).
  unfold create_armature_modifier. rewrite Hbo, Hao. simpl.
  unfold add_modifier. rewrite <- app_assoc. simpl.
  eexists _, _. split; [reflexivity |]. by repeat split.
Qed.

(** ** The vertex groups of a skinned mesh *)

Lemma group_at_Ok groups bind k :
  group_at groups bind = Ok k ->
  in_range (length groups) bind /\ k < length groups /\
  Z.of_nat k = (if (bind <? 0)%Z then bind + Z.of_nat (length groups) else bind)%Z.
Proof.
  unfold group_at, in_range.
  destruct (bind <? 0)%Z eqn:Hneg;
    [apply Z.ltb_lt in Hneg | apply Z.ltb_ge in Hneg];
    destruct (_ && _) eqn:Hin; try discriminate;
    apply andb_true_iff in Hin as [H1 H2];
    apply Z.leb_le in H1; apply Z.ltb_lt in H2;
    intros [= <-]; lia.
Qed.

Lemma group_at_in_range groups bind :
  in_range (length groups) bind -> exists k, group_at groups bind = Ok k.
Proof.
  unfold group_at, in_range. intros Hin.
  destruct (bind <? 0)%Z eqn:Hneg;
    [apply Z.ltb_lt in Hneg | apply Z.ltb_ge in Hneg].
  - rewrite (proj2 (andb_true_iff _ _)); [eauto |].
    split; [apply Z.leb_le | apply Z.ltb_lt]; lia.
  - rewrite (proj2 (andb_true_iff _ _)); [eauto |].
    split; [apply Z.leb_le | apply Z.ltb_lt]; lia.
Qed.

Lemma group_at_out_of_range groups bind :
  ~ in_range (length groups) bind -> group_at groups bind = Raise IndexError.
Proof.
  intros Hout. destruct (group_at groups bind) as [k | e |] eqn:E.
  - by apply group_at_Ok in E as [? _].
  - unfold group_at in E. by destruct (_ && _); [| injection E as <-].
  - unfold group_at in E. by destruct (_ && _).
Qed.

Lemma new_groups_length `{Host} bones : forall groups,
  length (foldl new_group groups bones) = length groups + length bones.
Proof.
  induction bones as [| b bones IH]; intros groups; simpl; [lia |].
  rewrite IH. unfold new_group. rewrite length_app. simpl. lia.
Qed.

Section Slots.
Context `{VertexGroupOps}.

(** The outcome of one slot. *)
Lemma add_slot_cases vind bw i groups :
  match add_slot vind bw i groups with
  | Ok groups' =>
      length groups' = length groups /\
      vg_name <$> groups' = vg_name <$> groups /\
      exists bind x,
        indices bw !! i = Some bind /\ weights bw !! i = Some x /\
        if Qeq_bool x 0 then groups' = groups
        else in_range (length groups) bind
  | Raise e =>
      e = IndexError /\
      (is_Some (indices bw !! i) -> is_Some (weights bw !! i) ->
       exists bind x,
         indices bw !! i = Some bind /\ weights bw !! i = Some x /\
         Qeq_bool x 0 = false /\ ~ in_range (length groups) bind)
  | OutOfFuel => False
  end.
Proof.
  unfold add_slot, list_item.
  destruct (indices bw !! i) as [bind |]; simpl.
  2: { split; [done |]. by intros [? ?]. }
  destruct (weights bw !! i) as [x |]; simpl.
  2: { split; [done |]. by intros _ [? ?]. }
  destruct (Qeq_bool x 0) eqn:Hz.
  { split; [done |]. split; [done |]. exists bind, x. by rewrite Hz. }
  destruct (group_at groups bind) as [k | e |] eqn:Hk; simpl.
  - apply group_at_Ok in Hk as (Hin & Hlt & _).
    destruct (lookup_lt_is_Some_2 groups k Hlt) as [g Hg]. rewrite Hg. simpl.
    split; [by rewrite length_insert |]. split.
    + rewrite list_fmap_insert. simpl. apply list_insert_id.
      by rewrite list_lookup_fmap, Hg.
    + exists bind, x. by rewrite Hz.
  - assert (Hout : ~ in_range (length groups) bind).
    { intros Hin. apply group_at_in_range in Hin as [k' Hk']. congruence. }
    rewrite (group_at_out_of_range _ _ Hout) in Hk. injection Hk as <-.
    split; [done |]. intros _ _. by exists bind, x.
  - unfold group_at in Hk. by destruct (_ && _).
Qed.


Lemma add_slot_Ok vind bw i groups groups' :
  add_slot vind bw i groups = Ok groups' ->
  length groups' = length groups /\
  vg_name <$> groups' = vg_name <$> groups /\
  slot_ok (length groups) bw i /\
  ((forall x, weights bw !! i = Some x -> Qeq_bool x 0 = true) ->
   groups' = groups).
Proof.
  intros E. pose proof (add_slot_cases vind bw i groups) as Hc.
  rewrite E in Hc. destruct Hc as (Hlen & Hnames & bind & x & Hb & Hx & Hcase).
  split; [done |]. split; [done |]. split.
  - exists bind, x. split; [done |]. split; [done |].
    intros Hz. by rewrite Hz in Hcase.
  - intros Hzero. by rewrite (Hzero x Hx) in Hcase.
Qed.

Lemma add_slot_returns vind bw i groups :
  slot_ok (length groups) bw i ->
  exists groups', add_slot vind bw i groups = Ok groups'.
Proof.
  intros (bind & x & Hb & Hx & Hin).
  pose proof (add_slot_cases vind bw i groups) as Hc.
  destruct (add_slot vind bw i groups) as [groups' | e |]; [eauto | | done].
  destruct Hc as [_ Hc].
  destruct Hc as (bind' & x' & Hb' & Hx' & Hz & Hout); [eauto.. |].
  rewrite Hb in Hb'. injection Hb' as <-. rewrite Hx in Hx'. injection Hx' as <-.
  destruct (Hout (Hin Hz)).
Qed.

Lemma add_slot_raises vind bw i groups e :
  add_slot vind bw i groups = Raise e -> e = IndexError.
Proof.
  intros E. pose proof (add_slot_cases vind bw i groups) as Hc.
  rewrite E in Hc. by destruct Hc.
Qed.

Lemma add_slot_fuel vind bw i groups :
  add_slot vind bw i groups <> OutOfFuel.
Proof.
  intros E. pose proof (add_slot_cases vind bw i groups) as Hc.
  by rewrite E in Hc.
Qed.

(** The slots of one vertex. *)
Lemma add_slots_Ok vind bw slots : forall groups groups',
  for_each (add_slot vind bw) slots groups = Ok groups' ->
  length groups' = length groups /\
  vg_name <$> groups' = vg_name <$> groups /\
  (forall i, i ∈ slots -> slot_ok (length groups) bw i) /\
  ((forall i x, i ∈ slots -> weights bw !! i = Some x -> Qeq_bool x 0 = true) ->
   groups' = groups).
Proof.
  induction slots as [| i slots IH]; intros groups groups' E; simpl in E.
  - injection E as <-. repeat split; try done.
    intros i Hi. by apply elem_of_nil in Hi.
  - unbind E as g1 Hg1. apply add_slot_Ok in Hg1 as (Hlen & Hnames & Hok & Hzero).
    destruct (IH _ _ E) as (Hlen' & Hnames' & Hok' & Hzero').
    rewrite Hlen in Hlen', Hok'. rewrite Hnames in Hnames'.
    split; [done |]. split; [done |]. split.
    + intros j Hj. apply elem_of_cons in Hj as [-> | Hj]; auto.
    + intros Hall. rewrite Hzero'.
      * apply Hzero. intros x. apply Hall. left.
      * intros j x Hj. apply Hall. by right.
Qed.

Lemma add_slots_returns vind bw slots : forall groups,
  (forall i, i ∈ slots -> slot_ok (length groups) bw i) ->
  exists groups', for_each (add_slot vind bw) slots groups = Ok groups'.
Proof.
  induction slots as [| i slots IH]; intros groups Hall; simpl; [eauto |].
  destruct (add_slot_returns vind bw i groups) as [g1 Hg1]; [apply Hall; left |].
  rewrite Hg1. simpl. apply IH. intros j Hj.
  apply add_slot_Ok in Hg1 as (-> & _). apply Hall. by right.
Qed.

Lemma add_slots_fails vind bw slots : forall groups,
  match for_each (add_slot vind bw) slots groups with
  | Ok _ => True
  | Raise e => e = IndexError
  | OutOfFuel => False
  end.
Proof.
  induction slots as [| i slots IH]; intros groups; simpl; [done |].
  destruct (add_slot vind bw i groups) as [g1 | e |] eqn:E; simpl.
  - apply IH.
  - by apply add_slot_raises in E.
  - by apply add_slot_fuel in E.
Qed.

(** The vertices of a mesh. *)
Lemma add_vertices_Ok vws : forall groups groups',
  for_each (fun vw groups => for_each (add_slot vw.1 vw.2) (seq 0 4) groups)
    vws groups = Ok groups' ->
  length groups' = length groups /\
  vg_name <$> groups' = vg_name <$> groups /\
  (forall vw i, vw ∈ vws -> i < 4 -> slot_ok (length groups) vw.2 i) /\
  ((forall vw i x, vw ∈ vws -> i < 4 -> weights vw.2 !! i = Some x ->
                   Qeq_bool x 0 = true) ->
   groups' = groups).
Proof.
  induction vws as [| vw vws IH]; intros groups groups' E; cbn [for_each] in E.
  - injection E as <-. repeat split; try done.
    intros vw i Hvw. by apply elem_of_nil in Hvw.
  - unbind E as g1 Hg1. apply add_slots_Ok in Hg1 as (Hlen & Hnames & Hok & Hzero).
    destruct (IH _ _ E) as (Hlen' & Hnames' & Hok' & Hzero').
    rewrite Hlen in Hlen', Hok'. rewrite Hnames in Hnames'.
    split; [done |]. split; [done |]. split.
    + intros vw' i Hvw Hi. apply elem_of_cons in Hvw as [-> | Hvw]; [| auto].
      apply Hok. apply elem_of_seq. lia.
    + intros Hall. rewrite Hzero'.
      * apply Hzero. intros i x Hi. apply Hall; [left |].
        apply elem_of_seq in Hi. lia.
      * intros vw' i x Hvw. apply Hall. by right.
Qed.

Lemma add_vertices_returns vws : forall groups,
  (forall vw i, vw ∈ vws -> i < 4 -> slot_ok (length groups) vw.2 i) ->
  exists groups',
    for_each (fun vw groups => for_each (add_slot vw.1 vw.2) (seq 0 4) groups)
      vws groups = Ok groups'.
Proof.
  induction vws as [| vw vws IH]; intros groups Hall; cbn [for_each]; [eauto |].
  destruct (add_slots_returns vw.1 vw.2 (seq 0 4) groups) as [g1 Hg1].
  { intros i Hi. apply Hall; [left |]. apply elem_of_seq in Hi. lia. }
  rewrite Hg1. cbn [bind]. apply IH. intros vw' i Hvw Hi.
  apply add_slots_Ok in Hg1 as (-> & _). apply Hall; [by right | done].
Qed.

Lemma add_vertices_fails vws : forall groups,
  match for_each (fun vw groups => for_each (add_slot vw.1 vw.2) (seq 0 4) groups)
          vws groups with
  | Ok _ => True
  | Raise e => e = IndexError
  | OutOfFuel => False
  end.
Proof.
  induction vws as [| vw vws IH]; intros groups; cbn [for_each]; [done |].
  pose proof (add_slots_fails vw.1 vw.2 (seq 0 4) groups) as Hc.
  destruct (for_each (add_slot vw.1 vw.2) (seq 0 4) groups) as [g1 | e |];
    cbn [bind]; [apply IH | done | done].
Qed.

Context `{Host}.

(** X17. [create_vertex_groups] returns exactly when the bone weights
    of every vertex have four indices and four weights and every weight
    that is not zero comes with an index among the groups that the object
    has after those of the bones are added (negative indices count from
    the end); the index of a zero weight is not looked at.  A call that
    does not return raises an [IndexError]. *)
Theorem vertex_groups_need_indices_in_range groups bones weights' :
  let n := length groups + length bones in
  ((exists groups', create_vertex_groups groups bones weights' = Ok groups') <->
   (forall vind bw i, weights' !! vind = Some bw -> i < 4 -> slot_ok n bw i)) /\
  (forall e, create_vertex_groups groups bones weights' = Raise e ->
             e = IndexError) /\
  create_vertex_groups groups bones weights' <> OutOfFuel.
Proof.
  intros n. unfold create_vertex_groups.
  assert (Hn : length (foldl new_group groups bones) = n)
    by apply new_groups_length.
  split; [split |].
  - intros [groups' E] vind bw i Hbw Hi.
    apply add_vertices_Ok in E as (_ & _ & Hok & _). rewrite Hn in Hok.
    apply (Hok (vind, bw)); [| done].
    apply elem_of_lookup_imap. eauto.
  - intros Hall. apply add_vertices_returns. rewrite Hn.
    intros [vind bw] i Hvw Hi.
    apply elem_of_lookup_imap in Hvw as (v & b & [= -> ->] & Hb). eauto.
  - pose proof (add_vertices_fails (imap pair weights')
                  (foldl new_group groups bones)) as Hc.
    split.
    + intros e E. by rewrite E in Hc.
    + intros E. by rewrite E in Hc.
Qed.

Lemma new_groups_layout bones : forall groups,
  take (length groups) (foldl new_group groups bones) = groups /\
  forall j bone, bones !! j = Some bone ->
    exists g,
      foldl new_group groups bones !! (length groups + j) = Some g /\
      vg_weights g = ∅ /\
      vg_name g
      = unique_name
          (vg_name <$> take (length groups + j) (foldl new_group groups bones))
          bone.
Proof.
  induction bones as [| b bones IH]; intros groups; simpl.
  - split; [by rewrite firstn_all |]. intros j bone Hj. by rewrite lookup_nil in Hj.
  - destruct (IH (new_group groups b)) as [Htake Hnew].
    assert (Hlen : length (new_group groups b) = S (length groups)).
    { unfold new_group. rewrite length_app. simpl. lia. }
    rewrite Hlen in Htake, Hnew.
    assert (Htake' : take (length groups) (foldl new_group (new_group groups b) bones)
                     = groups).
    { replace (take (length groups) (foldl new_group (new_group groups b) bones))
        with (take (length groups)
                (take (S (length groups))
                   (foldl new_group (new_group groups b) bones)))
        by (rewrite take_take; f_equal; lia).
      rewrite Htake. unfold new_group. by rewrite take_app_length. }
    split; [done |].
    intros [| j] bone Hj; simpl in Hj.
    + injection Hj as <-. rewrite Nat.add_0_r, Htake'.
      exists (mkVertexGroup (unique_name (vg_name <$> groups) b) ∅).
      split; [| done].
      rewrite <- (lookup_take_lt _ (S (length groups))) by lia.
      rewrite Htake. unfold new_group. by rewrite list_lookup_middle.
    + destruct (Hnew j bone Hj) as (g & Hg & Hw & Hname).
      replace (length groups + S j) with (S (length groups) + j) by lia. eauto.
Qed.

(** X18. After [create_vertex_groups], the groups that the object had
    keep their places and names and the groups of the bones follow them
    in the order of the bones, each under the unique name made from the
    bone name: the bone index [j] of a weight addresses the group of bone
    [j] only on an object that had no groups.  When all weights are zero
    the new groups stay empty. *)
Theorem vertex_groups_follow_bone_order groups bones weights' groups' :
  create_vertex_groups groups bones weights' = Ok groups' ->
  length groups' = length groups + length bones /\
  vg_name <$> take (length groups) groups' = vg_name <$> groups /\
  (forall j bone, bones !! j = Some bone ->
     exists g,
       groups' !! (length groups + j) = Some g /\
       vg_name g
       = unique_name (vg_name <$> take (length groups + j) groups') bone) /\
  ((forall bw i x, bw ∈ weights' -> i < 4 -> weights bw !! i = Some x ->
                   Qeq_bool x 0 = true) ->
   groups' = foldl new_group groups bones).
Proof.
  unfold create_vertex_groups. intros E.
  apply add_vertices_Ok in E as (Hlen & Hnames & _ & Hzero).
  rewrite new_groups_length in Hlen.
  destruct (new_groups_layout bones groups) as [Htake Hnew].
  split; [done |]. split; [| split].
  - rewrite fmap_take, Hnames, <- fmap_take. by rewrite Htake.
  - intros j bone Hj. destruct (Hnew j bone Hj) as (g0 & Hg0 & _ & Hname).
    assert (Hj' : (vg_name <$> groups') !! (length groups + j) = Some (vg_name g0)).
    { by rewrite Hnames, list_lookup_fmap, Hg0. }
    rewrite list_lookup_fmap in Hj'.
    destruct (groups' !! (length groups + j)) as [g |]; [| discriminate].
    injection Hj' as Hg. exists g. split; [done |].
    by rewrite Hg, fmap_take, Hnames, <- fmap_take.
  - intros Hall. apply Hzero. intros [vind bw] i x Hvw.
    apply elem_of_lookup_imap in Hvw as (v & b & [= -> ->] & Hb).
    apply Hall. by eapply list_elem_of_lookup_2.
Qed.

End Slots.

(** ** The properties on the scenarios *)

Lemma chain_built_returns :
  @create_armature translation_host 4 chain_mu [3] [0] chain_AC
  = Ok (chain_built.1, chain_built.2).
Proof. vm_compute. reflexivity. Defined.

Lemma chain_collected_returns :
  collect_bones 4 chain_mu [3] (list_to_set [0]) ∅ chain_AC
  = Ok (chain_collected.1, chain_collected.2).
Proof. vm_compute. reflexivity. Defined.

Lemma chain_collected_A : 0 ∈ chain_collected.1.
Proof.
  assert (E : chain_collected.1 = {[0; 1; 2]}) by (vm_compute; reflexivity).
  rewrite E. set_solver.
Qed.

Lemma inner_collected_skin : 3 ∈ inner_collected.1.
Proof.
  assert (E : inner_collected.1 = {[0; 3]}) by (vm_compute; reflexivity).
  rewrite E. set_solver.
Qed.

Lemma armature_object_among_bones_witness :
  @create_armature translation_host 4 chain_mu [3] [3] inner_heap
  = Raise (AttributeError "edit_bones").
Proof.
  apply (@armature_object_among_bones translation_host 4 chain_mu [3] [3]
           inner_heap 3 inner_collected.1 inner_collected.2).
  - vm_compute. reflexivity.
  - reflexivity.
  - exact inner_collected_skin.
Defined.

Lemma one_edit_bone_per_bone_witness :
  length (armature_bones chain_built.2) = size chain_collected.1 /\
  length (bindPose_bones chain_built.2)
  = length (filter (fun b => is_Some (bindPose (chain_collected.2 b)))
              (elements chain_collected.1)).
Proof.
  apply (@one_edit_bone_per_bone translation_host 4 chain_mu [3] [0] chain_AC
           chain_built.1 chain_built.2 chain_collected.1 chain_collected.2).
  - exact chain_built_returns.
  - exact chain_collected_returns.
Defined.

Lemma skins_refer_to_the_armatures_witness :
  chain_built.1 = ArmatureObject /\
  forall skin, skin ∈ [3] ->
    armature (objs chain_built.2 skin) = Some (ArmatureBlock ArmatureData) /\
    armature_obj (objs chain_built.2 skin) = Some chain_built.1 /\
    bindPose (objs chain_built.2 skin) = Some (BindArmature BindPoseData) /\
    bindPose_obj (objs chain_built.2 skin) = Some BindPoseObject.
Proof.
  apply (@skins_refer_to_the_armatures translation_host 4 chain_mu [3] [0]
           chain_AC chain_built.1 chain_built.2).
  exact chain_built_returns.
Defined.

Lemma bones_placed_witness :
  let lp := localPosition (transform (chain_collected.2 0)) in
  let lr := localRotation (transform (chain_collected.2 0)) in
  let apos := localPosition (transform (chain_collected.2 3)) in
  let arot := localRotation (transform (chain_collected.2 3)) in
  (0 ∉ [0] ->
   placement (objs chain_built.2 0)
   = (Some lp, Some lr, Some (mkQuaternion 1 0 0 0))) /\
  (0 ∈ [0] ->
   exists p q,
     placement (objs chain_built.2 0)
     = (Some p, Some q, Some (quat_inverted arot)) /\
     p = quat_rotate (quat_inverted arot) (vsub lp apos) /\
     q = quat_mul (quat_inverted arot) lr /\
     (~ (qdot arot arot == 0)%Q ->
      quat_eq (quat_mul arot q) lr /\
      veq (vadd (quat_rotate arot p) apos) lp)).
Proof.
  apply (@bones_placed_under_the_armature translation_host 4 chain_mu [3] [0]
           chain_AC chain_built.1 chain_built.2 chain_collected.1
           chain_collected.2 3).
  - exact chain_built_returns.
  - exact chain_collected_returns.
  - reflexivity.
  - exact chain_collected_A.
Defined.

Lemma force_import_witness :
  exists v, force_import (objs chain_built.2 0) = Some v /\
            (v = true <->
             exists c, c ∈ children (chain_collected.2 0) /\
                       c ∉ chain_collected.1).
Proof.
  apply (@force_import_marks_partial_bones translation_host 4 chain_mu [3] [0]
           chain_AC chain_built.1 chain_built.2 chain_collected.1
           chain_collected.2).
  - exact chain_built_returns.
  - exact chain_collected_returns.
  - exact chain_collected_A.
Defined.

Lemma bind_pose_bone_witness :
  exists i eb,
    mat_inverted (convert (Matrix_of_rows identity16)) = Some i /\
    eb ∈ bindPose_bones chain_built.2 /\
    poseBone (objs chain_built.2 0) = Some (eb_name eb) /\
    eb_head eb = mat_apply i (mkVector 0 0 0) /\
    eb_tail eb = mat_apply i (mkVector 0 BONE_LENGTH 0) /\
    eb_roll eb = Some (mat_apply i (mkVector 0 0 1)) /\
    (row_eq (convert (Matrix_of_rows identity16)).2 (0, 0, 0, 1)%Q ->
     veq (mat_apply (convert (Matrix_of_rows identity16)) (eb_head eb))
       (mkVector 0 0 0) /\
     veq (mat_apply (convert (Matrix_of_rows identity16)) (eb_tail eb))
       (mkVector 0 BONE_LENGTH 0)).
Proof.
  apply (@bind_pose_bone_inverts_bind_matrix translation_host 4 chain_mu [3] [0]
           chain_AC chain_built.1 chain_built.2 chain_collected.1
           chain_collected.2 0).
  - exact chain_built_returns.
  - exact chain_collected_returns.
  - exact chain_collected_A.
  - vm_compute. reflexivity.
Defined.

Lemma propagation_witness :
  length (armature_bones chain_posed) = length (armature_bones chain_skeleton.1) /\
  (forall hd eb, get_bone hd chain_skeleton.1 = Ok eb ->
     exists eb', get_bone hd chain_posed = Ok eb' /\ eb_name eb' = eb_name eb /\
                 eb_parent eb' = eb_parent eb /\ eb_flags eb' = eb_flags eb) /\
  (handles_distinct chain_skeleton.1 ->
   forall root o pos rot,
     root ∈ chain_skeleton.2 ->
     visited chain_skeleton.1 3 root (mkVector 0 0 0) (mkQuaternion 1 0 0 0)
       o pos rot ->
     exists hd eb,
       bone (objs chain_skeleton.1 o) = Some (EditBoneRef hd) /\
       get_bone hd chain_posed = Ok eb /\
       bone (objs chain_posed o) = Some (BoneName (eb_name eb))).
Proof.
  apply (propagation_keeps_links_and_names 4 3 chain_skeleton.2
           chain_skeleton.1 chain_posed).
  vm_compute. reflexivity.
Defined.

Lemma modifiers_witness :
  exists m1 m2,
    @create_armature_modifier translation_host [] (objs chain_built.2 3)
    = Ok ([] ++ [m1; m2]) /\
    mod_object m1 = BindPoseObject /\ mod_object m2 = chain_built.1 /\
    mod_name m1 = @unique_name translation_host (mod_name <$> []) "BindPose" /\
    mod_name m2
    = @unique_name translation_host (mod_name <$> [] ++ [m1]) "Armature" /\
    use_vertex_groups m1 = true /\ use_vertex_groups m2 = true /\
    use_bone_envelopes m1 = false /\ use_bone_envelopes m2 = false /\
    use_deform_preserve_volume m1 = false /\
    use_deform_preserve_volume m2 = false.
Proof.
  apply (@modifiers_bind_to_the_build translation_host 4 chain_mu [3] [0]
           chain_AC chain_built.1 chain_built.2 3 []).
  - exact chain_built_returns.
  - apply list_elem_of_here.
Defined.

Lemma vertex_groups_witness :
  length two_bone_groups = length (@nil VertexGroup) + length ["A"; "B"] /\
  vg_name <$> take (length (@nil VertexGroup)) two_bone_groups
  = vg_name <$> [] /\
  (forall j bone, ["A"; "B"] !! j = Some bone ->
     exists g,
       two_bone_groups !! (length (@nil VertexGroup) + j) = Some g /\
       vg_name g
       = @unique_name translation_host
           (vg_name <$> take (length (@nil VertexGroup) + j) two_bone_groups)
           bone) /\
  ((forall bw i x, bw ∈ two_bone_weights -> i < 4 ->
                   weights bw !! i = Some x -> Qeq_bool x 0 = true) ->
   two_bone_groups = foldl (@new_group translation_host) [] ["A"; "B"]).
Proof.
  apply (@vertex_groups_follow_bone_order summing_groups translation_host []
           ["A"; "B"] two_bone_weights two_bone_groups).
  vm_compute. reflexivity.
Defined.
